(** * Evaluation pipeline and scoring engine: a shallow embedding

    The development follows the Python sources:
    - [scoring.py]    edit distance, CER / WER, keyword matcher
    - [text_utils.py] text normaliser
    - [llm_client.py] judge-model evaluator
    - [pipeline.py]   the four-stage orchestrator
    - [server.py]     the streaming driver

    Modelling conventions.
    - A Python [str] is a [string]; each [ascii] is read as one code point
      in the range 0..255.
    - Python [int]s that count are [nat]; ids and scores are [Z].
    - [time.perf_counter()] readings and latencies are [Z] clock ticks;
      quotients ([/] on numbers) are exact rationals [Q].
    - A Python exception is represented by its [str(exc)] text. *)

From Stdlib Require Import ZArith QArith String Ascii List Lia DecimalString.
From stdpp Require Import base option list strings gmap.

Local Open Scope nat_scope.

(** ** scoring.py: [_levenshtein_distance] *)

(** [for index, x in enumerate(xs, start): s = body(s, index, x)], where the
    body may raise (here: an [IndexError], rendered as [None]). *)
Fixpoint for_enumerate {B St : Type} (body : St → nat → B → option St)
    (start : nat) (xs : list B) (s : St) : option St :=
  match xs with
  | [] => Some s
  | x :: xs' => s' ← body s start x; for_enumerate body (S start) xs' s'
  end.

Section levenshtein.
Context {A : Type} `{EqDecision A}.

(** Python's [min(a, b, c)] on integers. *)
Definition min3 (a b c : nat) : nat := Nat.min a (Nat.min b c).

(** [(ref_token != hyp_token)] used as an integer. *)
Definition ne_int (x y : A) : nat := if decide (x = y) then 0 else 1.

(** Body of the inner loop: reads [current_row[j - 1]], [previous_row[j]]
    and [previous_row[j - 1]], appends the minimum to [current_row]. *)
Definition inner_body (ref_token : A) (previous_row current_row : list nat)
    (j : nat) (hyp_token : A) : option (list nat) :=
  insertions ← (λ v, v + 1) <$> current_row !! (j - 1);
  deletions ← (λ v, v + 1) <$> previous_row !! j;
  substitutions ← (λ v, v + ne_int ref_token hyp_token) <$> previous_row !! (j - 1);
  Some (current_row ++ [min3 insertions deletions substitutions]).

(** Body of the outer loop: builds [current_row] from [[i]] and makes it
    the new [previous_row]. *)
Definition outer_body (hyp : list A) (previous_row : list nat) (i : nat)
    (ref_token : A) : option (list nat) :=
  for_enumerate (inner_body ref_token previous_row) 1 hyp [i].

Definition _levenshtein_distance (ref hyp : list A) : option nat :=
  previous_row ← for_enumerate (outer_body hyp) 1 ref (seq 0 (length hyp + 1));
  last previous_row.

(** *** Reference notions of edit distance *)

(** Edit scripts with unit costs: [edit a b n] says that [a] can be turned
    into [b] by deletions, insertions and substitutions of total cost [n]
    (keeping an equal token costs nothing). *)
Inductive edit : list A → list A → nat → Prop :=
| edit_nil : edit [] [] 0
| edit_del x a b n : edit a b n → edit (x :: a) b (S n)
| edit_ins y a b n : edit a b n → edit a (y :: b) (S n)
| edit_sub x y a b n : edit a b n → edit (x :: a) (y :: b) (n + ne_int x y).

(** The textbook recursive Levenshtein distance. *)
Fixpoint lev (a b : list A) : nat :=
  match a with
  | [] => length b
  | x :: a' =>
      (fix lev_a (b : list A) : nat :=
         match b with
         | [] => length a
         | y :: b' =>
             min3 (lev_a b' + 1) (lev a' b + 1) (lev a' b' + ne_int x y)
         end) b
  end.

(** Row [i] of the dynamic-programming table: distances from the first
    [i] reference tokens [r] to every prefix of [hyp]. *)
Definition row (r hyp : list A) (n : nat) : list nat :=
  (λ k, lev r (take k hyp)) <$> seq 0 n.

End levenshtein.

(** ** Python [str] methods used by the sources *)

Local Open Scope string_scope.

Definition code (c : ascii) : N := N_of_ascii c.

(** [c.isspace()], which is also the class [\s] of [re] on [str] and the
    set removed by [strip()] and [split()]: TAB..CR, FS..US, SPACE, NEL
    and NBSP are the white-space code points below 256. *)
Definition isspace (c : ascii) : bool :=
  let n := code c in
  ((9 <=? n) && (n <=? 13) || (28 <=? n) && (n <=? 32)
   || (n =? 133) || (n =? 160))%N.

(** [c.lower()]: A..Z and the Latin-1 capitals (all of U+00C0..U+00DE but
    the multiplication sign U+00D7) move up by 32. *)
Definition lower_char (c : ascii) : ascii :=
  let n := code c in
  if ((65 <=? n) && (n <=? 90)
      || (192 <=? n) && (n <=? 222) && negb (n =? 215))%N
  then ascii_of_N (n + 32) else c.

Fixpoint lower (s : string) : string :=
  match s with
  | EmptyString => EmptyString
  | String c s' => String (lower_char c) (lower s')
  end.

(** Truth value of a [str]: non-empty. *)
Definition truthy (s : string) : bool :=
  match s with EmptyString => false | String _ _ => true end.

Fixpoint lstrip (s : string) : string :=
  match s with
  | EmptyString => EmptyString
  | String c s' => if isspace c then lstrip s' else s
  end.

Fixpoint rstrip (s : string) : string :=
  match s with
  | EmptyString => EmptyString
  | String c s' =>
      let t := rstrip s' in
      if isspace c && negb (truthy t) then EmptyString else String c t
  end.

(** [s.strip()] *)
Definition strip (s : string) : string := rstrip (lstrip s).

(** [s.split(sep)] for a one-character separator: never an empty list. *)
Fixpoint split_on (sep : ascii) (s : string) : list string :=
  match s with
  | EmptyString => [EmptyString]
  | String c s' =>
      let rest := split_on sep s' in
      if Ascii.eqb c sep then EmptyString :: rest
      else match rest with
           | piece :: pieces => String c piece :: pieces
           | [] => [String c EmptyString]
           end
  end.

(** [s.split()]: the maximal runs of non-white-space characters; [word] is
    the run being read. *)
Fixpoint split_ws_from (word : string) (s : string) : list string :=
  match s with
  | EmptyString => if truthy word then [word] else []
  | String c s' =>
      if isspace c
      then (if truthy word then word :: split_ws_from EmptyString s'
            else split_ws_from EmptyString s')
      else split_ws_from (word ++ String c EmptyString) s'
  end.

Definition split_ws (s : string) : list string := split_ws_from EmptyString s.

(** [s.startswith(p)] *)
Fixpoint startswith (s p : string) {struct p} : bool :=
  match p, s with
  | EmptyString, _ => true
  | String a p', String b s' => Ascii.eqb a b && startswith s' p'
  | String _ _, EmptyString => false
  end.

(** [needle in hay] *)
Fixpoint contains (hay needle : string) : bool :=
  startswith hay needle
  || match hay with
     | EmptyString => false
     | String _ hay' => contains hay' needle
     end.

(** What [in] is meant to decide: an occurrence of [needle] inside [hay]. *)
Definition is_substring (needle hay : string) : Prop :=
  ∃ before after, hay = before ++ needle ++ after.

(** [x / y] on non-negative integers; [None] is [ZeroDivisionError]. *)
Definition truediv (x y : nat) : option Q :=
  match y with
  | O => None
  | S _ => Some (inject_Z (Z.of_nat x) / inject_Z (Z.of_nat y))%Q
  end.

(** ** scoring.py: [cer], [wer], [check_answer_with_keywords] *)

Definition cer (ref hyp : string) : option Q :=
  let ref_seq := list_ascii_of_string ref in
  let hyp_seq := list_ascii_of_string hyp in
  match ref_seq with
  | [] => Some (match hyp_seq with [] => 0%Q | _ => 1%Q end)
  | _ :: _ =>
      distance ← _levenshtein_distance ref_seq hyp_seq;
      truediv distance (length ref_seq)
  end.

Definition wer (ref hyp : string) : option Q :=
  let ref_tokens := split_ws ref in
  let hyp_tokens := split_ws hyp in
  match ref_tokens with
  | [] => Some (match hyp_tokens with [] => 0%Q | _ => 1%Q end)
  | _ :: _ =>
      distance ← _levenshtein_distance ref_tokens hyp_tokens;
      truediv distance (length ref_tokens)
  end.

(** The [keywords] argument: a [str] or an iterable of [str]. *)
Inductive keywords_arg :=
| KeywordsStr (s : string)
| KeywordsIter (l : list string).

(** The list [items] built at the top of [check_answer_with_keywords]. *)
Definition keyword_items (keywords : keywords_arg) : list string :=
  match keywords with
  | KeywordsStr s =>
      strip <$> List.filter (λ item, truthy (strip item)) (split_on "," s)
  | KeywordsIter l =>
      strip <$> List.filter (λ item, truthy item && truthy (strip item)) l
  end.

(** The raw keywords of a specification, before trimming. *)
Definition raw_keywords (keywords : keywords_arg) : list string :=
  match keywords with
  | KeywordsStr s => split_on "," s
  | KeywordsIter l => l
  end.

Definition check_answer_with_keywords (answer : string)
    (keywords : keywords_arg) : bool * list string :=
  let items := keyword_items keywords in
  match items with
  | [] => (false, [])
  | _ :: _ =>
      let normalized_answer := lower answer in
      let missing :=
        List.filter (λ keyword, negb (contains normalized_answer (lower keyword)))
          items in
      (match missing with [] => true | _ => false end, missing)
  end.

(** ** text_utils.py: [normalize_text] *)

(** [_WHITESPACE_RE.sub(" ", s)]: every maximal run of white space becomes
    one space; [in_run] tells that the previous character was white space. *)
Fixpoint sub_whitespace (in_run : bool) (s : string) : string :=
  match s with
  | EmptyString => EmptyString
  | String c s' =>
      if isspace c
      then (if in_run then sub_whitespace true s'
            else String " " (sub_whitespace true s'))
      else String c (sub_whitespace false s')
  end.

Definition normalize_text (text : option string) : string :=
  match text with
  | None => EmptyString
  | Some t =>
      if truthy t
      then let lowered := lower (strip t) in sub_whitespace false lowered
      else EmptyString
  end.

(** ** Effects: exceptions, mutable state and the clock *)

(** What a call does: raise, or return a value. *)
Inductive outcome (E A : Type) : Type :=
| Raised (e : E)
| Returned (a : A).
Arguments Raised {E A} e.
Arguments Returned {E A} a.

(** A computation over a mutable state [St] that may raise [E]; the state
    reached when the exception is raised is kept, as Python keeps the
    mutations made before a [raise]. *)
Definition M (E St A : Type) : Type := St → outcome E A * St.

Definition ret {E St A} (a : A) : M E St A := λ s, (Returned a, s).
Definition raise {E St A} (e : E) : M E St A := λ s, (Raised e, s).
Definition bind {E St A B} (c : M E St A) (k : A → M E St B) : M E St B :=
  λ s, match c s with
       | (Raised e, s') => (Raised e, s')
       | (Returned a, s') => k a s'
       end.
Definition get {E St} : M E St St := λ s, (Returned s, s).
Definition modify {E St} (f : St → St) : M E St unit := λ s, (Returned tt, f s).

(** [try: body except Exception as e: handler(e)] *)
Definition try_except {E St A} (body : M E St A) (handler : E → M E St A)
    : M E St A :=
  λ s, match body s with
       | (Raised e, s') => handler e s'
       | (Returned a, s') => (Returned a, s')
       end.

#[global] Instance M_ret {E St} : MRet (M E St) := λ A, @ret E St A.
#[global] Instance M_bind {E St} : MBind (M E St) := λ A B k c, @bind E St A B c k.

(** A call to an external collaborator: the time it takes on the
    monotonic clock and what it gives back. Exceptions of collaborators
    are represented by their [str(exc)]. *)
Record effect (A : Type) : Type := Effect {
  took : N;
  gave : outcome string A
}.
Arguments Effect {A} took gave.
Arguments took {A} e.
Arguments gave {A} e.

(** ** llm_client.py: [evaluate_answer_with_llm] *)

(** The dictionary [EvaluationResult]; a key that the dictionary does not
    have is [None]. Values have the types the [TypedDict] declares. *)
Record EvaluationResult := {
  eval_is_correct : option bool;
  eval_score : option Z;
  eval_reason : option string
}.

(** What [json.loads] returns: an object, of which only the three keys of
    the rubric are read, or a value of another Python type. *)
Inductive json_value :=
| JsonObject (o : EvaluationResult)
| JsonOther (type_name : string).

(** The judge model and its client library. *)
Record JudgeModel := {
  (** [_get_openai_client()]: raises [ConfigError] without an API key *)
  get_openai_client : outcome string unit;
  (** [client.chat.completions.create(...)] followed by
      [response.choices[0].message.content], for the prompt built from
      question, reference and answer *)
  chat_completions_create : string → string → string → effect (option string);
  (** [json.loads(content)] *)
  json_loads : string → outcome string json_value
}.

(** [result.get(key, default)] on the decoded reply. *)
Definition json_get {A} (field : EvaluationResult → option A) (dflt : A)
    (result : json_value) : outcome string A :=
  match result with
  | JsonObject o => Returned (default dflt (field o))
  | JsonOther type_name =>
      Raised ("'" ++ type_name ++ "' object has no attribute 'get'")
  end.

#[global] Instance outcome_ret {E} : MRet (outcome E) := λ A, @Returned E A.
#[global] Instance outcome_bind {E} : MBind (outcome E) := λ A B k o,
  match o with
  | Raised e => Raised e
  | Returned a => k a
  end.

(** The body of the [try] block, given what the call to the model did. *)
Definition evaluate_try (judge : JudgeModel) (response : outcome string (option string))
    : outcome string EvaluationResult :=
  content ← response;
  content ← match content with
            | None | Some EmptyString => Raised "Empty response from OpenAI"
            | Some content => Returned content
            end;
  result ← json_loads judge content;
  c ← json_get eval_is_correct false result;
  s ← json_get eval_score 0%Z result;
  r ← json_get eval_reason "No reason provided" result;
  Returned {| eval_is_correct := Some c; eval_score := Some s;
              eval_reason := Some r |}.

Definition evaluate_answer_with_llm (judge : JudgeModel)
    (question reference answer : string) : effect EvaluationResult :=
  match get_openai_client judge with
  | Raised exc => Effect 0 (Raised exc)
  | Returned _ =>
      let response := chat_completions_create judge question reference answer in
      Effect (took response)
        match evaluate_try judge (gave response) with
        | Returned res => Returned res
        | Raised exc =>
            Returned {| eval_is_correct := Some false; eval_score := None;
                        eval_reason := Some ("Evaluation failed: " ++ exc) |}
        end
  end.

(** [d[key]] on an [EvaluationResult]: [KeyError] when the key is absent;
    [str(KeyError(key))] is the key in quotes. *)
Definition getitem {A} (key : string) (value : option A) : outcome string A :=
  match value with
  | Some v => Returned v
  | None => Raised ("'" ++ key ++ "'")
  end.

(** ** pipeline.py: [PipelineResult] and [ProcessingPipeline.process_item] *)

Record PipelineResult := {
  id : Z;
  question : string;
  reference_answer : string;
  audio_path : option string;
  tts_latency : Z;
  stt_text : string;
  stt_latency : Z;
  ai_answer : string;
  chatbase_latency : Z;
  score : Z;
  reason : string;
  eval_latency : Z;
  total_latency : Z;
  status : string;
  error_msg : option string
}.

(** The dataclass constructor with its defaults. *)
Definition new_PipelineResult (item_id : Z) (q ref : string) : PipelineResult :=
  {| id := item_id; question := q; reference_answer := ref;
     audio_path := None; tts_latency := 0;
     stt_text := EmptyString; stt_latency := 0;
     ai_answer := EmptyString; chatbase_latency := 0;
     score := 0; reason := EmptyString; eval_latency := 0;
     total_latency := 0; status := "pending"; error_msg := None |}.

(** Attribute assignments [result.field = v]. *)
Definition set_audio_path (v : option string) (r : PipelineResult) :=
  let 'Build_PipelineResult a b c _ e f g h i j k l m n o := r in
  Build_PipelineResult a b c v e f g h i j k l m n o.
Definition set_tts_latency (v : Z) (r : PipelineResult) :=
  let 'Build_PipelineResult a b c d _ f g h i j k l m n o := r in
  Build_PipelineResult a b c d v f g h i j k l m n o.
Definition set_stt_text (v : string) (r : PipelineResult) :=
  let 'Build_PipelineResult a b c d e _ g h i j k l m n o := r in
  Build_PipelineResult a b c d e v g h i j k l m n o.
Definition set_stt_latency (v : Z) (r : PipelineResult) :=
  let 'Build_PipelineResult a b c d e f _ h i j k l m n o := r in
  Build_PipelineResult a b c d e f v h i j k l m n o.
Definition set_ai_answer (v : string) (r : PipelineResult) :=
  let 'Build_PipelineResult a b c d e f g _ i j k l m n o := r in
  Build_PipelineResult a b c d e f g v i j k l m n o.
Definition set_chatbase_latency (v : Z) (r : PipelineResult) :=
  let 'Build_PipelineResult a b c d e f g h _ j k l m n o := r in
  Build_PipelineResult a b c d e f g h v j k l m n o.
Definition set_score (v : Z) (r : PipelineResult) :=
  let 'Build_PipelineResult a b c d e f g h i _ k l m n o := r in
  Build_PipelineResult a b c d e f g h i v k l m n o.
Definition set_reason (v : string) (r : PipelineResult) :=
  let 'Build_PipelineResult a b c d e f g h i j _ l m n o := r in
  Build_PipelineResult a b c d e f g h i j v l m n o.
Definition set_eval_latency (v : Z) (r : PipelineResult) :=
  let 'Build_PipelineResult a b c d e f g h i j k _ m n o := r in
  Build_PipelineResult a b c d e f g h i j k v m n o.
Definition set_total_latency (v : Z) (r : PipelineResult) :=
  let 'Build_PipelineResult a b c d e f g h i j k l _ n o := r in
  Build_PipelineResult a b c d e f g h i j k l v n o.
Definition set_status (v : string) (r : PipelineResult) :=
  let 'Build_PipelineResult a b c d e f g h i j k l m _ o := r in
  Build_PipelineResult a b c d e f g h i j k l m v o.
Definition set_error_msg (v : option string) (r : PipelineResult) :=
  let 'Build_PipelineResult a b c d e f g h i j k l m n _ := r in
  Build_PipelineResult a b c d e f g h i j k l m n v.

(** Everything [process_item] reaches outside itself. [TAIWAN_ANIMALS]
    comes from the module [constants]. *)
Record Collaborators := {
  TAIWAN_ANIMALS : list string;
  (** [hashlib.md5(text.encode("utf-8")).hexdigest()] *)
  md5_hexdigest : string → string;
  (** [path.exists()] *)
  wav_exists : string → bool;
  (** [generate_tts_for_text(text, filename, outdir, language, voice_name)],
      always with [speed=1.0] *)
  generate_tts_for_text :
    string → string → string → string → option string → effect unit;
  (** [os.getenv("GCS_BUCKET_NAME")] *)
  GCS_BUCKET_NAME : option string;
  (** [GCSClient(bucket).upload_file(source_file_path, destination_blob_name)] *)
  upload_file : string → string → string → effect string;
  (** [transcribe_file(wav_path, language_code, phrase_hints, provider)] *)
  transcribe_file : string → string → list string → string → effect string;
  (** [ask_chatbase(query_text)["answer_text"]] *)
  ask_chatbase : string → effect string;
  judge_model : JudgeModel
}.

Record ProcessingPipeline := { output_dir : string }.

(** The state of one run of [process_item]: the clock and the [result]
    object that the stages mutate. *)
Record frame := Frame { now : Z; result : PipelineResult }.

Definition P (A : Type) : Type := M string frame A.

(** [time.perf_counter()] *)
Definition perf_counter : P Z := λ s, (Returned (now s), s).

(** A blocking call to a collaborator: the clock moves on, then the call
    returns or raises. *)
Definition call {A} (e : effect A) : P A :=
  λ s, (gave e, Frame (now s + Z.of_N (took e)) (result s)).

Definition update (f : PipelineResult → PipelineResult) : P unit :=
  modify (λ s, Frame (now s) (f (result s))).

Definition read {A} (field : PipelineResult → A) : P A :=
  λ s, (Returned (field (result s)), s).

Definition lift {A} (o : outcome string A) : P A := λ s, (o, s).

(** [str(item_id)] inside an f-string. *)
Definition str_of_int (z : Z) : string := NilZero.string_of_int (Z.to_int z).

(** [str(self.output_dir / wav_filename)], for an [output_dir] that is a
    plain directory name such as the default ["audio"]. *)
Definition path_join (dir name : string) : string := dir ++ "/" ++ name.

Definition wav_filename_of (env : Collaborators) (item_id : Z) (q : string) : string :=
  let q_hash := substring 0 8 (md5_hexdigest env q) in
  "q" ++ str_of_int item_id ++ "_" ++ q_hash ++ ".wav".

(** Stage 1, [# 1. TTS Generation] with the upload that follows it. *)
Definition stage_tts (self : ProcessingPipeline) (env : Collaborators)
    (item_id : Z) (q : string) (language_code : string) : P unit :=
  let wav_filename := wav_filename_of env item_id q in
  let wav_path := path_join (output_dir self) wav_filename in
  t0 ← perf_counter;
  (if wav_exists env wav_path then ret tt
   else
     let voice :=
       if startswith (lower language_code) "en" then Some "en-US-AvaNeural"
       else None in
     call (generate_tts_for_text env q wav_filename (output_dir self)
             language_code voice));;
  t1 ← perf_counter;
  update (set_tts_latency (t1 - t0));;
  match GCS_BUCKET_NAME env with
  | Some (String _ _ as gcs_bucket) =>
      try_except
        (let blob_name := "audio/" ++ wav_filename in
         public_url ← call (upload_file env gcs_bucket wav_path blob_name);
         update (set_audio_path (Some public_url)))
        (λ e, update (set_audio_path (Some wav_path)))
  | _ => update (set_audio_path (Some wav_path))
  end.

(** Stage 2, [# 2. STT]. *)
Definition stage_stt (self : ProcessingPipeline) (env : Collaborators)
    (item_id : Z) (q : string) (phrase_hints : option (list string))
    (stt_provider language_code : string) : P unit :=
  let wav_path := path_join (output_dir self) (wav_filename_of env item_id q) in
  t0 ← perf_counter;
  let hints := match phrase_hints with
               | Some h => h
               | None => TAIWAN_ANIMALS env
               end in
  stt_raw ← call (transcribe_file env wav_path language_code hints stt_provider);
  update (set_stt_text (normalize_text (Some stt_raw)));;
  t1 ← perf_counter;
  update (set_stt_latency (t1 - t0)).

(** Stage 3, [# 3. Chatbase]. *)
Definition stage_chatbase (env : Collaborators) (stt_provider : string) : P unit :=
  t0 ← perf_counter;
  stt ← read stt_text;
  let query_text :=
    if String.eqb stt_provider "openai"
    then stt ++ ";Please answer in the language: en-US"
    else stt ++ " Please answer in the language: zh-TW" in
  answer_text ← call (ask_chatbase env query_text);
  update (set_ai_answer answer_text);;
  t1 ← perf_counter;
  update (set_chatbase_latency (t1 - t0)).

(** Stage 4, [# 4. Eval]. *)
Definition stage_eval (env : Collaborators) (q ref : string) : P unit :=
  t0 ← perf_counter;
  (if truthy ref
   then
     answer ← read ai_answer;
     eval_res ← call (evaluate_answer_with_llm (judge_model env) q ref answer);
     s ← lift (getitem "score" (eval_score eval_res));
     update (set_score s);;
     r ← lift (getitem "reason" (eval_reason eval_res));
     update (set_reason r)
   else update (set_reason "No reference answer provided"));;
  t1 ← perf_counter;
  update (set_eval_latency (t1 - t0)).

(** The body of the [try] block. *)
Definition process_item_try (self : ProcessingPipeline) (env : Collaborators)
    (item_id : Z) (q ref : string) (phrase_hints : option (list string))
    (stt_provider language_code : string) : P unit :=
  stage_tts self env item_id q language_code;;
  stage_stt self env item_id q phrase_hints stt_provider language_code;;
  stage_chatbase env stt_provider;;
  stage_eval env q ref;;
  update (set_status "success").

Definition process_item_body (self : ProcessingPipeline) (env : Collaborators)
    (item_id : Z) (q ref : string) (phrase_hints : option (list string))
    (stt_provider language_code : string) : P PipelineResult :=
  start_total ← perf_counter;
  try_except
    (process_item_try self env item_id q ref phrase_hints stt_provider
       language_code)
    (λ e, update (set_status "error");; update (set_error_msg (Some e)));;
  t ← perf_counter;
  update (set_total_latency (t - start_total));;
  read (λ r, r).

(** [self.process_item(item_id, question, reference_answer, phrase_hints,
    stt_provider, language_code)], started when the clock shows [clock]:
    what it does and the clock afterwards. *)
Definition process_item (self : ProcessingPipeline) (env : Collaborators)
    (item_id : Z) (q ref : string) (phrase_hints : option (list string))
    (stt_provider language_code : string) (clock : Z)
    : outcome string PipelineResult * Z :=
  let '(o, s) :=
    process_item_body self env item_id q ref phrase_hints stt_provider
      language_code (Frame clock (new_PipelineResult item_id q ref)) in
  (o, now s).


(** *** The four stages, by name *)

Inductive stage := TTS | STT | Chatbase | Eval.

#[global] Instance stage_eq_dec : EqDecision stage.
Proof. solve_decision. Defined.

(** The latency field that belongs to a stage. *)
Definition latency (k : stage) (r : PipelineResult) : Z :=
  match k with
  | TTS => tts_latency r
  | STT => stt_latency r
  | Chatbase => chatbase_latency r
  | Eval => eval_latency r
  end.

(** The stages that run before a stage, in order. *)
Definition earlier (k : stage) : list stage :=
  match k with
  | TTS => []
  | STT => [TTS]
  | Chatbase => [TTS; STT]
  | Eval => [TTS; STT; Chatbase]
  end.

(** The stage and those after it. *)
Definition from_stage (k : stage) : list stage :=
  match k with
  | TTS => [TTS; STT; Chatbase; Eval]
  | STT => [STT; Chatbase; Eval]
  | Chatbase => [Chatbase; Eval]
  | Eval => [Eval]
  end.

Section one_item.
Variables (self : ProcessingPipeline) (env : Collaborators).
Variables (item_id : Z) (q ref : string) (phrase_hints : option (list string)).
Variables (stt_provider language_code : string).

Definition stage_run (k : stage) : P unit :=
  match k with
  | TTS => stage_tts self env item_id q language_code
  | STT => stage_stt self env item_id q phrase_hints stt_provider language_code
  | Chatbase => stage_chatbase env stt_provider
  | Eval => stage_eval env q ref
  end.

Fixpoint run_stages (l : list stage) : P unit :=
  match l with
  | [] => ret tt
  | k :: l' => stage_run k;; run_stages l'
  end.

(** Stage [k] is the one that fails, with message [msg]: started on a
    fresh result when the clock shows [clock], the stages before [k]
    complete and leave the frame [s], from which stage [k] raises. *)
Definition fails_at (clock : Z) (k : stage) (msg : string) (s : frame) : Prop :=
  run_stages (earlier k) (Frame clock (new_PipelineResult item_id q ref))
  = (Returned tt, s)
  ∧ ∃ s', stage_run k s = (Raised msg, s').

End one_item.

(** *** What counts as a failure of the call to the judge model *)

(** [delegate_failure judge q ref answer exc]: the call to the model for
    this prompt fails, and [exc] describes the failure. *)
Inductive delegate_failure (judge : JudgeModel) (q ref answer : string)
    : string → Prop :=
| failure_call exc :
    (** the request itself raises, as on a network error *)
    gave (chat_completions_create judge q ref answer) = Raised exc →
    delegate_failure judge q ref answer exc
| failure_empty content :
    (** the reply has no content *)
    gave (chat_completions_create judge q ref answer) = Returned content →
    content = None ∨ content = Some EmptyString →
    delegate_failure judge q ref answer "Empty response from OpenAI"
| failure_not_json content exc :
    (** the content is not JSON *)
    gave (chat_completions_create judge q ref answer) = Returned (Some content) →
    content ≠ EmptyString →
    json_loads judge content = Raised exc →
    delegate_failure judge q ref answer exc
| failure_not_object content type_name :
    (** the content is JSON, but not an object *)
    gave (chat_completions_create judge q ref answer) = Returned (Some content) →
    content ≠ EmptyString →
    json_loads judge content = Returned (JsonOther type_name) →
    delegate_failure judge q ref answer
      ("'" ++ type_name ++ "' object has no attribute 'get'").

(** The judgment the specification asks for after a failure [exc]. *)
Definition fail_closed (exc : string) (res : EvaluationResult) : Prop :=
  eval_is_correct res = Some false
  ∧ eval_score res = Some 0%Z
  ∧ ∃ text, eval_reason res = Some text ∧ is_substring exc text.

(** *** What a stage leaves alone *)

(** Between the frames [s] and [s'] the clock has not gone back, and of
    the result only what belongs to the stages in [ks] may have changed
    (the score and the reason belong to [Eval]); the status, the error
    message and the item id belong to no stage. *)
Definition only_touches (ks : list stage) (s s' : frame) : Prop :=
  (now s ≤ now s')%Z
  ∧ (∀ j, j ∉ ks → latency j (result s') = latency j (result s))
  ∧ status (result s') = status (result s)
  ∧ error_msg (result s') = error_msg (result s)
  ∧ id (result s') = id (result s)
  ∧ (Eval ∉ ks → score (result s') = score (result s)
                 ∧ reason (result s') = reason (result s)).


(** ** server.py: [websocket_endpoint] *)

(** One element of the list under ["items"]: a dictionary, read with
    [item["id"]], [item["question"]] and [item["reference_answer"]]. *)
Record item := {
  item_id : option Z;
  item_question : option string;
  item_reference_answer : option string
}.

(** The exceptions the endpoint tells apart. *)
Inductive server_exc :=
| WebSocketDisconnect
| Exception (msg : string).

(** The dictionary under ["result"] of an update message. *)
Record UpdateResult := {
  u_id : Z;
  u_audio_url : option string;
  u_question : string;
  u_stt_text : string;
  u_ai_answer : string;
  u_score : Z;
  u_latency : Z;
  u_breakdown_tts : Z;
  u_breakdown_stt : Z;
  u_breakdown_chatbase : Z;
  u_breakdown_eval : Z;
  u_status : string;
  u_error : option string
}.

(** The dictionary under ["stats"]. *)
Record UpdateStats := {
  processed : nat;
  total : nat;
  avg_score : Q;
  avg_latency : Q
}.

Inductive ws_message :=
| MsgError (message : string)
| MsgUpdate (res : UpdateResult) (stats : UpdateStats)
| MsgComplete.

(** The ["type"] of a message. *)
Definition msg_type (m : ws_message) : string :=
  match m with
  | MsgError _ => "error"
  | MsgUpdate _ _ => "update"
  | MsgComplete => "complete"
  end.

(** What [await websocket.receive_json()] does. [Received None] is a
    dictionary without the key ["items"]. *)
Inductive received :=
| ReceiveRaises (e : server_exc)
| Received (items : option (list item)).

(** The connected consumer: its first message, and what happens to the
    [n]-th call of [websocket.send_json], counted from 0. *)
Record WebSocket := {
  receive_json : received;
  send_json : nat → outcome server_exc unit
}.

(** The module-level state of [server.py] that the endpoint reads. *)
Record ServerGlobals := {
  pipeline : ProcessingPipeline;
  current_phrase_hints : list string;
  current_stt_provider : string
}.

(** The state the endpoint changes: the clock, the messages delivered to
    the consumer, the number of [send_json] calls made, and the global
    list [current_results]. *)
Record ServerState := {
  clock : Z;
  sends : nat;
  delivered : list ws_message;
  current_results : list PipelineResult
}.

Definition S' (A : Type) : Type := M server_exc ServerState A.

(** [await websocket.send_json(m)] *)
Definition send (ws : WebSocket) (m : ws_message) : S' unit :=
  λ s, match send_json ws (sends s) with
       | Raised e =>
           (Raised e,
            {| clock := clock s; sends := S (sends s);
               delivered := delivered s;
               current_results := current_results s |})
       | Returned _ =>
           (Returned tt,
            {| clock := clock s; sends := S (sends s);
               delivered := delivered s ++ [m];
               current_results := current_results s |})
       end.

(** [item[key]] *)
Definition item_get {A} (key : string) (value : option A) : S' A :=
  match value with
  | Some v => ret v
  | None => raise (Exception ("'" ++ key ++ "'"))
  end.

(** [pipeline.process_item(...)] run on the server's clock. *)
Definition run_pipeline (g : ServerGlobals) (env : Collaborators)
    (item_id : Z) (q ref language_code : string) : S' PipelineResult :=
  λ s,
    let '(o, t) :=
      process_item (pipeline g) env item_id q ref
        (Some (current_phrase_hints g)) (current_stt_provider g)
        language_code (clock s) in
    (match o with
     | Raised e => Raised (Exception e)
     | Returned res => Returned res
     end,
     {| clock := t; sends := sends s; delivered := delivered s;
        current_results := current_results s |}).

(** [current_results.append(res)] *)
Definition append_result (res : PipelineResult) : S' unit :=
  modify (λ s, {| clock := clock s; sends := sends s;
                  delivered := delivered s;
                  current_results := current_results s ++ [res] |}).

(** [Path(p).name] for a path that does not end in a slash: what follows
    the last slash. *)
Fixpoint path_name (p : string) : string :=
  match p with
  | EmptyString => EmptyString
  | String c p' =>
      if contains p' "/" then path_name p'
      else if Ascii.eqb c "/" then p' else p
  end.

Definition audio_url_of (res : PipelineResult) : option string :=
  match audio_path res with
  | Some (String _ _ as p) =>
      if startswith p "http" then Some p else Some ("/audio/" ++ path_name p)
  | _ => None
  end.

(** [x / processed if processed else 0] *)
Definition average (x : Z) (processed : nat) : Q :=
  match processed with
  | O => 0%Q
  | S _ => (inject_Z x / inject_Z (Z.of_nat processed))%Q
  end.

(** The local variables [processed], [total_score] and [total_latency]. *)
Record counters := {
  c_processed : nat;
  c_total_score : Z;
  c_total_latency : Z
}.

(** [# Update stats] *)
Definition update_stats (c : counters) (res : PipelineResult) : counters :=
  let processed := c_processed c + 1 in
  if String.eqb (status res) "success"
  then {| c_processed := processed;
          c_total_score := c_total_score c + score res;
          c_total_latency := c_total_latency c + total_latency res |}
  else {| c_processed := processed;
          c_total_score := c_total_score c;
          c_total_latency := c_total_latency c |}.

Definition update_message (res : PipelineResult) (c : counters) (total : nat)
    : ws_message :=
  MsgUpdate
    {| u_id := id res; u_audio_url := audio_url_of res;
       u_question := question res; u_stt_text := stt_text res;
       u_ai_answer := ai_answer res; u_score := score res;
       u_latency := total_latency res;
       u_breakdown_tts := tts_latency res;
       u_breakdown_stt := stt_latency res;
       u_breakdown_chatbase := chatbase_latency res;
       u_breakdown_eval := eval_latency res;
       u_status := status res; u_error := error_msg res |}
    {| processed := c_processed c; total := total;
       avg_score := average (c_total_score c) (c_processed c);
       avg_latency := average (c_total_latency c) (c_processed c) |}.

(** The body of [for item in items]; [env] is how the collaborators
    behave while this item is processed. The short [asyncio.sleep] that
    ends the body falls between two runs of [process_item] and is not
    part of any latency; it is left out. *)
Definition loop_body (g : ServerGlobals) (ws : WebSocket) (total : nat)
    (env : Collaborators) (c : counters) (it : item) : S' counters :=
  let language_code :=
    if String.eqb (current_stt_provider g) "openai" then "en-US" else "zh-TW" in
  i ← item_get "id" (item_id it);
  q ← item_get "question" (item_question it);
  ref ← item_get "reference_answer" (item_reference_answer it);
  res ← run_pipeline g env i q ref language_code;
  let c' := update_stats c res in
  append_result res;;
  send ws (update_message res c' total);;
  ret c'.

(** [for item in items: ...]; [k] is the position of the next item. *)
Fixpoint loop (g : ServerGlobals) (ws : WebSocket) (total : nat)
    (envs : nat → Collaborators) (k : nat) (items : list item) (c : counters)
    : S' counters :=
  match items with
  | [] => ret c
  | it :: items' =>
      c' ← loop_body g ws total (envs k) c it;
      loop g ws total envs (S k) items' c'
  end.

(** The [try] block of the endpoint. *)
Definition endpoint_try (g : ServerGlobals) (ws : WebSocket)
    (envs : nat → Collaborators) : S' unit :=
  match receive_json ws with
  | ReceiveRaises e => raise e
  | Received data =>
      let items := default [] data in
      match items with
      | [] => send ws (MsgError "No items to process")
      | _ :: _ =>
          let total := length items in
          loop g ws total envs 0 items
            {| c_processed := 0; c_total_score := 0; c_total_latency := 0 |};;
          send ws MsgComplete
      end
  end.

Definition websocket_endpoint (g : ServerGlobals) (ws : WebSocket)
    (envs : nat → Collaborators) : S' unit :=
  λ s, match endpoint_try g ws envs s with
       | (Raised WebSocketDisconnect, s') => (Returned tt, s')
       | (Raised (Exception msg), s') => send ws (MsgError msg) s'
       | (Returned _, s') => (Returned tt, s')
       end.

(** *** Items as the endpoint expects them *)

(** The three keys the loop reads are present. *)
Definition well_formed (it : item) : Prop :=
  is_Some (item_id it) ∧ is_Some (item_question it)
  ∧ is_Some (item_reference_answer it).


(** ** Concrete collaborators, used to exercise the model *)

(** A judge whose request raises a network error. *)
Definition judge_unreachable : JudgeModel :=
  {| get_openai_client := Returned tt;
     chat_completions_create := λ _ _ _, Effect 7 (Raised "Connection error.");
     json_loads := λ _, Raised "Expecting value: line 1 column 1 (char 0)" |}.

(** A judge that answers with an object that says [is_correct: true],
    [score: 90] and has no reason. *)
Definition judge_without_reason : JudgeModel :=
  {| get_openai_client := Returned tt;
     chat_completions_create := λ _ _ _,
       Effect 7 (Returned (Some "{is_correct: true, score: 90}"));
     json_loads := λ _,
       Returned (JsonObject {| eval_is_correct := Some true;
                               eval_score := Some 90%Z;
                               eval_reason := None |}) |}.

(** A judge that grades every answer with [n]. *)
Definition judge_scoring (n : Z) : JudgeModel :=
  {| get_openai_client := Returned tt;
     chat_completions_create := λ _ _ _, Effect 7 (Returned (Some "{...}"));
     json_loads := λ _,
       Returned (JsonObject {| eval_is_correct := Some (60 <=? n)%Z;
                               eval_score := Some n;
                               eval_reason := Some "graded" |}) |}.

(** Collaborators that all work; the judge is a parameter. *)
Definition env_with (judge : JudgeModel) : Collaborators :=
  {| TAIWAN_ANIMALS := ["lion"; "zebra"];
     md5_hexdigest := λ _, "0123456789abcdef0123456789abcdef";
     wav_exists := λ _, false;
     generate_tts_for_text := λ _ _ _ _ _, Effect 3 (Returned tt);
     GCS_BUCKET_NAME := None;
     upload_file := λ _ _ _, Effect 2 (Raised "403 Forbidden");
     transcribe_file := λ _ _ _ _, Effect 5 (Returned "  What IS   a lion ");
     ask_chatbase := λ _, Effect 11 (Returned "A big cat");
     judge_model := judge |}.

Definition env_ok (n : Z) : Collaborators := env_with (judge_scoring n).

(** Speech synthesis is down. *)
Definition env_tts_down : Collaborators :=
  {| TAIWAN_ANIMALS := ["lion"; "zebra"];
     md5_hexdigest := λ _, "0123456789abcdef0123456789abcdef";
     wav_exists := λ _, false;
     generate_tts_for_text := λ _ _ _ _ _, Effect 3 (Raised "synthesis canceled");
     GCS_BUCKET_NAME := None;
     upload_file := λ _ _ _, Effect 2 (Raised "403 Forbidden");
     transcribe_file := λ _ _ _ _, Effect 5 (Returned "what is a lion");
     ask_chatbase := λ _, Effect 11 (Returned "A big cat");
     judge_model := judge_scoring 80 |}.

(** Speech recognition finds nothing; the audio is cached and uploaded. *)
Definition env_stt_down : Collaborators :=
  {| TAIWAN_ANIMALS := ["lion"; "zebra"];
     md5_hexdigest := λ _, "0123456789abcdef0123456789abcdef";
     wav_exists := λ _, true;
     generate_tts_for_text := λ _ _ _ _ _, Effect 3 (Returned tt);
     GCS_BUCKET_NAME := Some "bucket";
     upload_file := λ _ _ blob, Effect 2 (Returned ("https://storage/" ++ blob));
     transcribe_file := λ _ _ _ _, Effect 5 (Raised "No transcription results returned");
     ask_chatbase := λ _, Effect 11 (Returned "A big cat");
     judge_model := judge_scoring 80 |}.

(** The chatbot answers with an HTTP error. *)
Definition env_chatbase_down : Collaborators :=
  {| TAIWAN_ANIMALS := ["lion"; "zebra"];
     md5_hexdigest := λ _, "0123456789abcdef0123456789abcdef";
     wav_exists := λ _, false;
     generate_tts_for_text := λ _ _ _ _ _, Effect 3 (Returned tt);
     GCS_BUCKET_NAME := None;
     upload_file := λ _ _ _, Effect 2 (Raised "403 Forbidden");
     transcribe_file := λ _ _ _ _, Effect 5 (Returned "what is a lion");
     ask_chatbase := λ _, Effect 11 (Raised "Chatbase API returned an error: 500");
     judge_model := judge_scoring 80 |}.

Definition audio_pipeline : ProcessingPipeline := {| output_dir := "audio" |}.

Definition globals : ServerGlobals :=
  {| pipeline := audio_pipeline;
     current_phrase_hints := ["lion"];
     current_stt_provider := "google" |}.

Definition item_of (i : Z) (q ref : string) : item :=
  {| item_id := Some i; item_question := Some q;
     item_reference_answer := Some ref |}.

(** Three items with a reference answer. *)
Definition three_items : list item :=
  [item_of 1 "What is a lion?" "A large cat";
   item_of 2 "What is a zebra?" "A striped horse";
   item_of 3 "What is a gnu?" "An antelope"].

(** A consumer that sends [items] and stays connected. *)
Definition ws_sending (items : list item) : WebSocket :=
  {| receive_json := Received (Some items);
     send_json := λ _, Returned tt |}.

(** The first item is graded 80, the second 100, and the chatbot fails on
    the third. *)
Definition envs_80_100_error (k : nat) : Collaborators :=
  match k with
  | 0 => env_ok 80
  | 1 => env_ok 100
  | _ => env_chatbase_down
  end.

Definition idle : ServerState :=
  {| clock := 1000; sends := 0; delivered := []; current_results := [] |}.

(** The statistics of the messages delivered, in order. *)
Definition delivered_stats (s : ServerState) : list UpdateStats :=
  omap (λ m, match m with MsgUpdate _ st => Some st | _ => None end)
    (delivered s).

(** The item ids of the update messages delivered, in order. *)
Definition update_ids (ms : list ws_message) : list Z :=
  omap (λ m, match m with MsgUpdate r _ => Some (u_id r) | _ => None end) ms.


(** ** Further notions used to state properties of the sources *)

(** The shape of a normalised text, read from left to right: words of
    characters that are not white space, separated by single spaces.
    [word_due] tells that the next character has to start a word (at the
    beginning, and after a space). *)
Fixpoint single_spaced (word_due : bool) (s : string) : bool :=
  match s with
  | EmptyString => negb word_due
  | String c s' =>
      if isspace c
      then Ascii.eqb c " " && negb word_due && single_spaced true s'
      else single_spaced false s'
  end.

(** No character of the string is white space. *)
Fixpoint no_space (s : string) : bool :=
  match s with
  | EmptyString => true
  | String c s' => negb (isspace c) && no_space s'
  end.

(** What a stage writes into the result besides its latency, padded to
    one type: the audio path for [TTS], the recognised text for [STT],
    the answer for [Chatbase], the reason and the score for [Eval]. *)
Definition outputs (k : stage) (r : PipelineResult) : option string * string * Z :=
  match k with
  | TTS => (audio_path r, EmptyString, 0%Z)
  | STT => (None, stt_text r, 0%Z)
  | Chatbase => (None, ai_answer r, 0%Z)
  | Eval => (None, reason r, score r)
  end.

(** The sum of the latencies of some stages. *)
Definition sum_latency (l : list stage) (r : PipelineResult) : Z :=
  foldr (λ j acc, (latency j r + acc)%Z) 0%Z l.

(** The voice [process_item] asks for. *)
Definition tts_voice (language_code : string) : option string :=
  if startswith (lower language_code) "en" then Some "en-US-AvaNeural"
  else None.

(** The same collaborators with another speech synthesiser. *)
Definition with_tts
    (tts : string → string → string → string → option string → effect unit)
    (env : Collaborators) : Collaborators :=
  {| TAIWAN_ANIMALS := TAIWAN_ANIMALS env;
     md5_hexdigest := md5_hexdigest env;
     wav_exists := wav_exists env;
     generate_tts_for_text := tts;
     GCS_BUCKET_NAME := GCS_BUCKET_NAME env;
     upload_file := upload_file env;
     transcribe_file := transcribe_file env;
     ask_chatbase := ask_chatbase env;
     judge_model := judge_model env |}.

(** The update messages the loop sends for the results [rs], one after
    the other, starting from the counters [c]. *)
Fixpoint updates_of (c : counters) (total : nat) (rs : list PipelineResult)
    : list ws_message :=
  match rs with
  | [] => []
  | r :: rs' =>
      let c' := update_stats c r in
      update_message r c' total :: updates_of c' total rs'
  end.

(** The results that count for the sums: those with status ["success"]. *)
Definition successes (rs : list PipelineResult) : list PipelineResult :=
  List.filter (λ r, String.eqb (status r) "success") rs.

Definition sum_Z (zs : list Z) : Z := foldr Z.add 0%Z zs.

(** The statistics of a history of results, computed from scratch. *)
Definition stats_of (rs : list PipelineResult) (total : nat) : UpdateStats :=
  {| processed := length rs; total := total;
     avg_score := average (sum_Z (score <$> successes rs)) (length rs);
     avg_latency := average (sum_Z (total_latency <$> successes rs)) (length rs) |}.

(** The first key of an item that is missing, in the order in which the
    loop reads them. *)
Definition missing_key (it : item) : option string :=
  match item_id it, item_question it, item_reference_answer it with
  | None, _, _ => Some "id"
  | Some _, None, _ => Some "question"
  | Some _, Some _, None => Some "reference_answer"
  | Some _, Some _, Some _ => None
  end.

(** A consumer that sends [items] and for which the call of [send_json]
    number [n] does [o]; the other calls return. *)
Definition ws_failing (items : list item) (n : nat)
    (o : outcome server_exc unit) : WebSocket :=
  {| receive_json := Received (Some items);
     send_json := λ k, if Nat.eqb k n then o else Returned tt |}.


(** ** tts_generate.py: [_resolve_column] *)

(** The keys of a dictionary built by inserting the elements of [l] one
    after the other: each key once, in the order of first insertion.
    [seen] are the keys inserted so far. *)
Fixpoint dict_keys_from (seen l : list string) : list string :=
  match l with
  | [] => []
  | x :: l' =>
      if bool_decide (x ∈ seen) then dict_keys_from seen l'
      else x :: dict_keys_from (x :: seen) l'
  end.

Definition dict_keys (l : list string) : list string := dict_keys_from [] l.

(** [normalized_lower.get(k)], for
    [normalized_lower = {name.lower(): name for name in normalized}]: of
    the names with the same lower-case form the one inserted last stays. *)
Definition normalized_lower_get (normalized : list string) (k : string)
    : option string :=
  last (List.filter (λ name, String.eqb (lower name) k) normalized).

(** The loop over [search_order]; [None] stands for falling out of the
    loop, after which the function raises [ValueError]. *)
Fixpoint resolve_loop (normalized search_order : list string) : option string :=
  match search_order with
  | [] => None
  | candidate :: rest =>
      let candidate := strip candidate in
      if negb (truthy candidate) then resolve_loop normalized rest
      else if bool_decide (candidate ∈ normalized) then Some candidate
      else match normalized_lower_get normalized (lower candidate) with
           | Some resolved => Some resolved
           | None => resolve_loop normalized rest
           end
  end.

Definition search_order_of (COLUMN_ALIASES : string → list string)
    (preferred key : string) : list string :=
  ((if truthy preferred then [preferred] else []) ++ COLUMN_ALIASES key)%list.

(** [_resolve_column(columns, preferred, key)]; [COLUMN_ALIASES key] is
    [COLUMN_ALIASES.get(key, [])], and [None] is the [ValueError]. *)
Definition _resolve_column (COLUMN_ALIASES : string → list string)
    (columns : list string) (preferred key : string) : option string :=
  let normalized := dict_keys (strip <$> columns) in
  resolve_loop normalized (search_order_of COLUMN_ALIASES preferred key).


(** ** config.py *)

(** [os.environ] once the [.env] files are loaded. *)
Abbreviation environ := (gmap string string).

(** [_require_env(var_name)]; the exception is [ConfigError]. *)
Definition _require_env (env : environ) (var_name : string)
    : outcome string string :=
  match env !! var_name with
  | Some value =>
      if negb (truthy (strip value))
      then Raised ("Environment variable '" ++ var_name
                   ++ "' is required but was not provided.")
      else Returned (strip value)
  | None =>
      Raised ("Environment variable '" ++ var_name
              ++ "' is required but was not provided.")
  end.

Record AzureConfig := { azure_key : string; azure_region : string; azure_voice : string }.
Record ChatbaseConfig := { api_key : string; bot_id : string; api_url : string }.
Record OpenAIConfig := { openai_api_key : string }.

Definition get_azure_config (env : environ) : outcome string AzureConfig :=
  key ← _require_env env "AZURE_SPEECH_KEY";
  region ← _require_env env "AZURE_SPEECH_REGION";
  voice ← _require_env env "AZURE_TTS_VOICE";
  Returned {| azure_key := key; azure_region := region; azure_voice := voice |}.

Definition get_chatbase_config (env : environ) : outcome string ChatbaseConfig :=
  k ← _require_env env "CHATBASE_API_KEY";
  b ← _require_env env "CHATBASE_BOT_ID";
  u ← _require_env env "CHATBASE_API_URL";
  Returned {| api_key := k; bot_id := b; api_url := u |}.

Definition get_default_language_code (env : environ) : outcome string string :=
  _require_env env "DEFAULT_LANGUAGE_CODE".

Definition get_openai_config (env : environ) : outcome string OpenAIConfig :=
  k ← _require_env env "OPENAI_API_KEY";
  Returned {| openai_api_key := k |}.

(** ** chatbase_client.py *)

(** A decoded JSON document. The fields of an object are the items of
    the dictionary, so no key occurs twice. *)
Local Unset Elimination Schemes.
Inductive json :=
| JNull
| JBool (b : bool)
| JNum (z : Z)
| JStr (s : string)
| JArr (l : list json)
| JObj (fields : list (string * json)).
Local Set Elimination Schemes.

(** Truth value of a decoded JSON value. *)
Definition json_truthy (v : json) : bool :=
  match v with
  | JNull => false
  | JBool b => b
  | JNum z => negb (z =? 0)%Z
  | JStr s => truthy s
  | JArr l => match l with [] => false | _ => true end
  | JObj fields => match fields with [] => false | _ => true end
  end.

(** [type(v).__name__] *)
Definition json_type_name (v : json) : string :=
  match v with
  | JNull => "NoneType"
  | JBool _ => "bool"
  | JNum _ => "int"
  | JStr _ => "str"
  | JArr _ => "list"
  | JObj _ => "dict"
  end.

Fixpoint assoc (key : string) (fields : list (string * json)) : option json :=
  match fields with
  | [] => None
  | (k, v) :: fields' => if String.eqb k key then Some v else assoc key fields'
  end.

(** [payload.get(key)]: [None] for a missing key, [AttributeError] when
    the payload is not an object. *)
Definition payload_get (payload : json) (key : string) : outcome string json :=
  match payload with
  | JObj fields => Returned (default JNull (assoc key fields))
  | _ => Raised ("'" ++ json_type_name payload
                 ++ "' object has no attribute 'get'")
  end.

(** [a or b] *)
Definition py_or (a b : json) : json := if json_truthy a then a else b.

Module chatbase_client.

(** The request sent with [requests.post]. *)
Record request := {
  url : string;
  bearer : string;
  chatbotId : string;
  content : string;
  conversationId : option string
}.

(** What comes back: the status code, the body as text, and what
    [response.json()] does ([Raised] is its [JSONDecodeError]). *)
Record response := {
  status_code : Z;
  text : string;
  json_of : outcome string json
}.

(** The dictionary [ask_chatbase] returns. *)
Record answer := {
  answer_text : string;
  conversation_id : json;
  raw : json
}.

(** [ask_chatbase(question, conversation_id)]; [post] is [requests.post],
    of which [Raised] is a [requests.RequestException]. *)
Definition ask_chatbase (env : environ)
    (post : request → outcome string response)
    (question : string) (conversation_id : option string)
    : outcome string answer :=
  cfg ← get_chatbase_config env;
  let body :=
    {| url := api_url cfg; bearer := api_key cfg; chatbotId := bot_id cfg;
       content := question;
       conversationId := match conversation_id with
                         | Some (String _ _ as c) => Some c
                         | _ => None
                         end |} in
  match post body with
  | Raised exc => Raised ("Network error calling Chatbase: " ++ exc)
  | Returned resp =>
      if (400 <=? status_code resp)%Z
      then Raised ("Chatbase API returned an error: "
                   ++ str_of_int (status_code resp) ++ " " ++ strip (text resp))
      else
        match json_of resp with
        | Raised _ => Raised "Failed to parse Chatbase response as JSON"
        | Returned payload =>
            a1 ← payload_get payload "answer";
            a2 ← payload_get payload "text";
            a3 ← payload_get payload "answer_text";
            a4 ← payload_get payload "reply";
            let answer := py_or (py_or (py_or a1 a2) a3) a4 in
            match answer with
            | JStr s =>
                if negb (truthy (strip s))
                then Raised "Chatbase response did not include an answer text field"
                else
                  c1 ← payload_get payload "conversationId";
                  c2 ← payload_get payload "conversation_id";
                  Returned {| answer_text := strip s;
                              conversation_id := py_or c1 c2;
                              raw := payload |}
            | _ => Raised "Chatbase response did not include an answer text field"
            end
        end
  end.

End chatbase_client.

(** The keys [ask_chatbase] tries for the answer, in this order. *)
Definition answer_keys : list string := ["answer"; "text"; "answer_text"; "reply"].

(** The message of the [ConfigError] for a variable. *)
Definition config_error (var_name : string) : string :=
  "Environment variable '" ++ var_name ++ "' is required but was not provided.".

(** A complete Chatbase configuration. *)
Definition environ_chatbase : environ :=
  <["CHATBASE_API_KEY" := "k"]> (<["CHATBASE_BOT_ID" := "b"]>
    (<["CHATBASE_API_URL" := " https://chat/api "]> ∅)).

(** A chatbot that answers under the key [text], with an empty [answer]. *)
Definition post_text_answer (req : chatbase_client.request)
    : outcome string chatbase_client.response :=
  Returned
    {| chatbase_client.status_code := 200;
       chatbase_client.text := "{...}";
       chatbase_client.json_of :=
         Returned (JObj [("answer", JStr EmptyString);
                         ("text", JStr " A big cat ")]) |}.


(** ** stt_client.py *)

Module stt_client.

(** What [client.recognize] may raise: the [GoogleAPICallError] that
    [transcribe_file] wraps, or anything else. *)
Inductive recognize_exc :=
| GoogleAPICallError (msg : string)
| OtherError (msg : string).

(** The services behind the two providers. A response of [recognize] is
    the list [response.results], each result being the transcripts of
    its alternatives. *)
Record services := {
  (** [Path(wav_path).exists()] *)
  path_exists : string → bool;
  (** [_detect_sample_rate(path)] *)
  detect_sample_rate : string → outcome string Z;
  (** [_build_speech_client()], [path.read_bytes()] and
      [client.recognize(config, audio)], in this order, for the file,
      the sample rate, the language and the phrases of the speech
      context, if any; only an error of [recognize] can be a
      [GoogleAPICallError] *)
  recognize :
    string → Z → string → option (list string)
    → outcome recognize_exc (list (list string));
  (** [path.open("rb")] and
      [client.audio.transcriptions.create(...).text] for the file and
      the language *)
  whisper : string → string → outcome string string
}.

Definition transcribe_file_openai (env : environ) (sv : services)
    (wav_path : string) (language_code : option string)
    : outcome string string :=
  _ ← get_openai_config env;
  if negb (path_exists sv wav_path)
  then Raised ("Audio file not found: " ++ wav_path)
  else
    let iso_lang :=
      match language_code with
      | Some (String _ _ as l) => if contains (lower l) "en" then "en" else "zh"
      | _ => "zh"
      end in
    whisper sv wav_path iso_lang.

Definition transcribe_file (env : environ) (sv : services)
    (wav_path : string) (language_code : option string)
    (phrase_hints : option (list string)) (provider : string)
    : outcome string string :=
  if String.eqb provider "openai"
  then transcribe_file_openai env sv wav_path language_code
  else if negb (path_exists sv wav_path)
  then Raised ("Audio file not found: " ++ wav_path)
  else
    language ← match language_code with
               | Some (String _ _ as l) => Returned l
               | _ => get_default_language_code env
               end;
    sample_rate_hz ← detect_sample_rate sv wav_path;
    let speech_contexts :=
      match phrase_hints with
      | Some (_ :: _ as hints) => Some hints
      | _ => None
      end in
    match recognize sv wav_path sample_rate_hz language speech_contexts with
    | Raised (GoogleAPICallError exc) =>
        Raised ("Google STT API call failed for " ++ wav_path ++ ": " ++ exc)
    | Raised (OtherError exc) => Raised exc
    | Returned results =>
        match results with
        | [] => Raised ("No transcription results returned for " ++ wav_path ++ ".")
        | top_result :: _ =>
            match top_result with
            | [] => Raised ("STT result had no alternatives for " ++ wav_path ++ ".")
            | alternative :: _ =>
                let transcript := strip alternative in
                if negb (truthy transcript)
                then Raised ("Empty transcript returned for " ++ wav_path ++ ".")
                else Returned transcript
            end
        end
    end.

End stt_client.

(** ** stt_test.py *)

Module stt_test.

(** The columns of a row of the test set that [evaluate_row] reads. *)
Record row := {
  row_id : Z;
  row_wav_path : string;
  row_ref_transcript : string
}.

(** The dictionary [evaluate_row] returns. *)
Record result := {
  res_id : Z;
  wav_path : string;
  ref_transcript : string;
  stt_raw : string;
  stt_normalized : string;
  cer_score : Q;
  wer_score : Q;
  intent_hit : option bool;
  error : option string
}.

(** A rate, or the [IndexError] of the edit distance. *)
Definition rate (r : option Q) : outcome string Q :=
  match r with
  | Some q => Returned q
  | None => Raised "list index out of range"
  end.

(** [evaluate_row(row, language, intent_strict)]; [hints] is the
    constant [TAIWAN_ANIMALS]. *)
Definition evaluate_row (env : environ) (sv : stt_client.services)
    (hints : list string) (r : row) (language : option string)
    (intent_strict : bool) : outcome string result :=
  let wav_path := row_wav_path r in
  let ref_transcript := row_ref_transcript r in
  stt_raw ← stt_client.transcribe_file env sv wav_path language (Some hints)
              "google";
  let stt_normalized := normalize_text (Some stt_raw) in
  let ref_normalized := normalize_text (Some ref_transcript) in
  c ← rate (cer ref_normalized stt_normalized);
  w ← rate (wer ref_normalized stt_normalized);
  let intent_hit :=
    if intent_strict then Some (String.eqb stt_normalized ref_normalized)
    else None in
  Returned {| res_id := row_id r; wav_path := wav_path;
              ref_transcript := ref_transcript; stt_raw := stt_raw;
              stt_normalized := stt_normalized; cer_score := c;
              wer_score := w; intent_hit := intent_hit; error := None |}.

End stt_test.

(** Speech services for one file, [audio/q1.wav], recognised as a padded
    question. *)
Definition services_one_file : stt_client.services :=
  {| stt_client.path_exists := λ p, String.eqb p "audio/q1.wav";
     stt_client.detect_sample_rate := λ _, Returned 24000%Z;
     stt_client.recognize := λ _ _ _ _,
       Returned [[" What is a LION "; "what is a line"]];
     stt_client.whisper := λ _ _, Returned EmptyString |}.

(** A row of the test set for that file. *)
Definition row_q1 : stt_test.row :=
  {| stt_test.row_id := 1; stt_test.row_wav_path := "audio/q1.wav";
     stt_test.row_ref_transcript := "what  is a lion" |}.


(** ** tts_generate.py: synthesis *)

(** The Python [float] operations that [_build_ssml] uses. *)
Class Float := {
  float : Type;
  (** [x > 0] *)
  float_pos : float → bool;
  (** [1.0] *)
  float_one : float;
  (** the text of [x] in an f-string *)
  float_str : float → string
}.

Module tts_generate.

(** [s.replace(c, by)] for a pattern [c] of one character. *)
Fixpoint replace_char (c : ascii) (by_ : string) (s : string) : string :=
  match s with
  | EmptyString => EmptyString
  | String a s' =>
      if Ascii.eqb a c then by_ ++ replace_char c by_ s'
      else String a (replace_char c by_ s')
  end.

(** The double quote. *)
Definition quot : ascii := ascii_of_nat 34.

(** [html.escape(s)] of the Python library, which quotes by default. *)
Definition html_escape (s : string) : string :=
  let s := replace_char "&" "&amp;" s in
  let s := replace_char "<" "&lt;" s in
  let s := replace_char ">" "&gt;" s in
  let s := replace_char quot "&quot;" s in
  replace_char "'" "&#x27;" s.

Definition _build_ssml `{Float} (text voice_name language_code : string)
    (rate : float) : string :=
  let rate_value := if float_pos rate then rate else float_one in
  let escaped_text := html_escape text in
  "<speak version='1.0' xml:lang='" ++ language_code ++ "'>"
  ++ "<voice name='" ++ voice_name ++ "'>"
  ++ "<prosody rate='" ++ float_str rate_value ++ "'>"
  ++ escaped_text
  ++ "</prosody></voice></speak>".

(** The fields of [speechsdk.SpeechConfig] that [_build_speech_config]
    sets; the output format is a constant. *)
Record SpeechConfig := {
  subscription : string;
  region : string;
  speech_synthesis_language : string;
  speech_synthesis_voice_name : string
}.

(** What [speak_ssml_async(ssml).get()] returns: whether the reason is
    [SynthesizingAudioCompleted], the text of the reason, the error code
    and details of the cancellation, if any, and the audio. *)
Record SpeechSynthesisResult := {
  completed : bool;
  reason : string;
  cancellation_details : option (string * string);
  audio_data : string
}.

(** The Azure SDK and the file system around it. *)
Record Azure := {
  (** [import azure.cognitiveservices.speech] succeeds *)
  sdk_installed : bool;
  (** [speechsdk.SpeechSynthesizer(speech_config, audio_config=None)]
      followed by [speak_ssml_async(ssml).get()] *)
  speak_ssml : SpeechConfig → string → outcome string SpeechSynthesisResult;
  (** [Path(outdir).mkdir(parents=True, exist_ok=True)] *)
  mkdir : string → outcome string unit
}.

(** The files written, by path. *)
Abbreviation files := (gmap string string).

Definition of_outcome {A} (o : outcome string A) : M string files A :=
  λ fs, (o, fs).

(** [_get_speech_sdk()] and [_build_speech_config(language, voice)]; the
    resolved language and voice are those of the returned configuration. *)
Definition _build_speech_config (az : Azure) (env : environ)
    (language voice : option string) : outcome string SpeechConfig :=
  if negb (sdk_installed az)
  then Raised "azure-cognitiveservices-speech is required. Please install dependencies."
  else
    azure_cfg ← get_azure_config env;
    resolved_language ← match language with
                        | Some (String _ _ as l) => Returned l
                        | _ => get_default_language_code env
                        end;
    let resolved_voice :=
      match voice with
      | Some (String _ _ as v) => v
      | _ => azure_voice azure_cfg
      end in
    Returned {| subscription := azure_key azure_cfg;
                region := azure_region azure_cfg;
                speech_synthesis_language := resolved_language;
                speech_synthesis_voice_name := resolved_voice |}.

(** [_synthesize_to_file(speechsdk, synthesizer, ssml, output_path)];
    [write_bytes] writes the whole file. *)
Definition _synthesize_to_file (az : Azure) (cfg : SpeechConfig)
    (ssml output_path : string) : M string files unit :=
  result ← of_outcome (speak_ssml az cfg ssml);
  if negb (completed result)
  then
    let detail_msg := " reason=" ++ reason result in
    let detail_msg :=
      match cancellation_details result with
      | Some (error_code, error_details) =>
          detail_msg ++ ", code=" ++ error_code ++ ", message=" ++ error_details
      | None => detail_msg
      end in
    raise ("Azure TTS synthesis failed:" ++ detail_msg)
  else if negb (truthy (audio_data result))
  then raise "Azure TTS returned empty audio data"
  else modify (λ fs : files, <[output_path := audio_data result]> fs).

Definition generate_tts_for_text `{Float} (az : Azure) (env : environ)
    (text filename outdir : string) (language voice_name : option string)
    (speed : float) : M string files unit :=
  _ ← of_outcome (mkdir az outdir);
  let output_path := path_join outdir filename in
  cfg ← of_outcome (_build_speech_config az env language voice_name);
  let ssml := _build_ssml text (speech_synthesis_voice_name cfg)
                (speech_synthesis_language cfg) speed in
  _synthesize_to_file az cfg ssml output_path.

End tts_generate.

(** What [html.escape] makes of one character. *)
Definition escape_char (a : ascii) : string :=
  if Ascii.eqb a "&" then "&amp;"
  else if Ascii.eqb a "<" then "&lt;"
  else if Ascii.eqb a ">" then "&gt;"
  else if Ascii.eqb a tts_generate.quot then "&quot;"
  else if Ascii.eqb a "'" then "&#x27;"
  else String a EmptyString.

(** Speeds with one decimal, counted in tenths. *)
Definition tenths : Float :=
  {| float := N;
     float_pos := λ x, (0 <? x)%N;
     float_one := 10%N;
     float_str := λ x,
       NilZero.string_of_uint (N.to_uint (x / 10))
       ++ "." ++ NilZero.string_of_uint (N.to_uint (x mod 10)) |}.

(** An environment with the Azure settings, and a service that returns
    five bytes of audio for whatever it is asked. *)
Definition environ_azure : environ :=
  <["AZURE_SPEECH_KEY" := "k"]>
    (<["AZURE_SPEECH_REGION" := "eastasia"]>
       (<["AZURE_TTS_VOICE" := "zh-TW-HsiaoChenNeural"]> ∅)).

Definition azure_ok : tts_generate.Azure :=
  {| tts_generate.sdk_installed := true;
     tts_generate.speak_ssml := λ _ _,
       Returned {| tts_generate.completed := true;
                   tts_generate.reason := "ResultReason.SynthesizingAudioCompleted";
                   tts_generate.cancellation_details := None;
                   tts_generate.audio_data := "RIFF." |};
     tts_generate.mkdir := λ _, Returned tt |}.


(** ** e2e_test.py *)

Module e2e_test.

(** A cell of the test set as [pandas] reads it: an integer, a float
    (finite, not a number, or infinite) or a string. *)
Inductive cell :=
| CInt (z : Z)
| CFloat (q : Q)
| CNaN
| CInf
| CStr (s : string).

(** The columns of a row that [evaluate_row] reads; a column that the
    test set does not have is [None]. *)
Record row := {
  row_id : option cell;
  row_canonical_query_id : option cell;
  row_wav_path : string;
  row_ref_transcript : string
}.

(** Truth value of [row.get(column)]. *)
Definition cell_truthy (c : option cell) : bool :=
  match c with
  | None => false
  | Some (CInt z) => negb (z =? 0)%Z
  | Some (CFloat q) => negb (Qeq_bool q 0)
  | Some CNaN | Some CInf => true
  | Some (CStr s) => truthy s
  end.

(** What [int(value)] does. *)
Inductive int_result :=
| IntOk (z : Z)
| IntValueError
| IntOverflowError (msg : string).

(** [int(value)]: a float is truncated; [int_of_str] is [int] on a
    string, [None] being its [ValueError]. *)
Definition int_of_cell (int_of_str : string → option Z) (c : cell)
    : int_result :=
  match c with
  | CInt z => IntOk z
  | CFloat q => IntOk (Z.quot (Qnum q) (Z.pos (Qden q)))
  | CNaN => IntValueError
  | CInf => IntOverflowError "cannot convert float infinity to integer"
  | CStr s =>
      match int_of_str s with
      | Some z => IntOk z
      | None => IntValueError
      end
  end.

(** [d.get(value)] on a dictionary with integer keys: a float finds the
    integer it is equal to, a string finds nothing. *)
Definition dict_get_cell (d : gmap Z string) (c : cell) : option string :=
  match c with
  | CInt z => d !! z
  | CFloat q =>
      if (Z.rem (Qnum q) (Z.pos (Qden q)) =? 0)%Z
      then d !! Z.quot (Qnum q) (Z.pos (Qden q))
      else None
  | CNaN | CInf | CStr _ => None
  end.

(** [sep.join(items)] *)
Fixpoint join (sep : string) (items : list string) : string :=
  match items with
  | [] => EmptyString
  | [x] => x
  | x :: rest => x ++ sep ++ join sep rest
  end.

(** The dictionary [evaluate_row] returns. *)
Record result := {
  res_id : cell;
  wav_path : string;
  ref_transcript : string;
  question_text : option string;
  stt_raw : string;
  stt_normalized : string;
  ai_answer : string;
  stt_intent_hit : option bool;
  ai_correct : option bool;
  e2e_success : option bool;
  conversation_id : json;
  keywords_used : option string;
  missing_keywords : option string;
  llm_reason : option string;
  error : option string
}.

(** The grading by keywords, when there are any. *)
Definition grade_by_keywords (answer : string) (keywords : option string)
    : option bool * option (list string) :=
  match keywords with
  | Some (String _ _ as k) =>
      let '(correct, missing) :=
        check_answer_with_keywords answer (KeywordsStr k) in
      (Some correct, Some missing)
  | _ => (None, None)
  end.

(** [evaluate_row(row, keyword_map, language, intent_strict,
    question_map, use_llm_eval=..., reference_answer_map=...)]; the two
    keyword arguments default to [False] and the empty dictionary. *)
Definition evaluate_row (env : environ) (sv : stt_client.services)
    (post : chatbase_client.request → outcome string chatbase_client.response)
    (judge : JudgeModel) (int_of_str : string → option Z)
    (hints : list string)
    (r : row) (keyword_map : gmap Z string) (language : option string)
    (intent_strict : bool) (question_map : gmap Z string)
    (use_llm_eval : bool) (reference_answer_map : gmap Z string)
    : outcome string result :=
  let wav := row_wav_path r in
  let ref := row_ref_transcript r in
  stt ← stt_client.transcribe_file env sv wav language (Some hints) "google";
  let normalized := normalize_text (Some stt) in
  let ref_normalized := normalize_text (Some ref) in
  let intent :=
    if intent_strict then Some (String.eqb normalized ref_normalized)
    else None in
  chatbase_response ← chatbase_client.ask_chatbase env post normalized None;
  let answer := chatbase_client.answer_text chatbase_response in
  let canonical_id :=
    if cell_truthy (row_canonical_query_id r) then row_canonical_query_id r
    else row_id r in
  '(keywords, question) ←
    match canonical_id with
    | None => Returned (None, None)
    | Some c =>
        match int_of_cell int_of_str c with
        | IntOk canonical_int =>
            Returned (keyword_map !! canonical_int,
                      question_map !! canonical_int)
        | IntValueError => Returned (None, None)
        | IntOverflowError msg => Raised msg
        end
    end;
  '(correct, missing, reason) ←
    match use_llm_eval, question with
    | true, Some (String _ _ as q) =>
        match canonical_id ≫= dict_get_cell reference_answer_map with
        | Some (String _ _ as reference_answer) =>
            llm_result ← gave (evaluate_answer_with_llm judge q
                                 reference_answer answer);
            c ← getitem "is_correct" (eval_is_correct llm_result);
            why ← getitem "reason" (eval_reason llm_result);
            Returned (Some c, None, Some why)
        | _ =>
            let '(c, m) := grade_by_keywords answer keywords in
            Returned (c, m, None)
        end
    | _, _ =>
        let '(c, m) := grade_by_keywords answer keywords in
        Returned (c, m, None)
    end;
  let success :=
    match correct with
    | Some c =>
        Some ((if intent_strict then default false intent else true) && c)
    | None => None
    end in
  i ← getitem "id" (row_id r);
  Returned {| res_id := i; wav_path := wav; ref_transcript := ref;
              question_text := question; stt_raw := stt;
              stt_normalized := normalized; ai_answer := answer;
              stt_intent_hit := intent; ai_correct := correct;
              e2e_success := success;
              conversation_id :=
                chatbase_client.conversation_id chatbase_response;
              keywords_used := keywords;
              missing_keywords :=
                match missing with
                | Some (_ :: _ as m) => Some (join ", " m)
                | _ => None
                end;
              llm_reason := reason; error := None |}.

End e2e_test.

(** A row of the end-to-end test set, and an environment in which
    recognition and the chatbot work. *)
Definition e2e_row_q1 : e2e_test.row :=
  {| e2e_test.row_id := Some (e2e_test.CInt 1);
     e2e_test.row_canonical_query_id := Some (e2e_test.CFloat 1);
     e2e_test.row_wav_path := "audio/q1.wav";
     e2e_test.row_ref_transcript := "What is a lion" |}.


(** ** gcs_client.py *)

Module gcs_client.

(** The objects of the bucket, by name. *)
Abbreviation bucket := (gmap string string).

(** The storage service and the local disk. *)
Record Storage := {
  (** the bytes [blob.upload_from_filename(path)] reads, or its error *)
  read_file : string → outcome string string;
  (** [blob.public_url] for a bucket and an object name *)
  public_url : string → string → string
}.

Record GCSClient := { bucket_name : string }.

(** [GCSClient(bucket_name)], once the storage client is built. *)
Definition __init__ (env : environ) (name : option string)
    : outcome string GCSClient :=
  let resolved :=
    match name with
    | Some (String _ _ as n) => Some n
    | _ => env !! "GCS_BUCKET_NAME"
    end in
  match resolved with
  | Some (String _ _ as n) => Returned {| bucket_name := n |}
  | _ => Raised "GCS_BUCKET_NAME environment variable is required"
  end.

(** [self.exists(blob_name)] *)
Definition exists_ (self : GCSClient) (blob_name : string)
    : M string bucket bool :=
  λ b, (Returned (bool_decide (is_Some (b !! blob_name))), b).

(** [self.upload_file(source_file_path, destination_blob_name)] *)
Definition upload_file (st : Storage) (self : GCSClient)
    (source_file_path destination_blob_name : string)
    : M string bucket string :=
  present ← exists_ self destination_blob_name;
  (if negb present
   then
     data ← (λ b, (read_file st source_file_path, b));
     modify (λ b : bucket, <[destination_blob_name := data]> b)
   else ret tt);;
  ret (public_url st (bucket_name self) destination_blob_name).

End gcs_client.

(** A disk with one audio file. *)
Definition storage_one_file : gcs_client.Storage :=
  {| gcs_client.read_file := λ p,
       if String.eqb p "audio/q1.wav" then Returned "RIFF."
       else Raised ("[Errno 2] No such file or directory: '" ++ p ++ "'");
     gcs_client.public_url := λ b n,
       "https://storage.googleapis.com/" ++ b ++ "/" ++ n |}.


(** * Properties *)

Local Open Scope nat_scope.

(** ** Edit distance: the dynamic programme computes the Levenshtein distance *)

Section levenshtein_facts.
Context {A : Type} `{EqDecision A}.
Local Open Scope list_scope.
Implicit Types (a b r hyp : list A) (x y : A).

Lemma ne_int_refl x : ne_int x x = 0.
Proof. unfold ne_int. by case_decide. Qed.

Lemma ne_int_sym x y : ne_int x y = ne_int y x.
Proof. unfold ne_int. repeat case_decide; congruence. Qed.

Lemma ne_int_zero x y : ne_int x y = 0 → x = y.
Proof. unfold ne_int. by case_decide. Qed.

Lemma min3_cases (p q s : nat) :
  min3 p q s = p ∨ min3 p q s = q ∨ min3 p q s = s.
Proof. unfold min3. lia. Qed.

Lemma min3_le (p q s : nat) :
  min3 p q s ≤ p ∧ min3 p q s ≤ q ∧ min3 p q s ≤ s.
Proof. unfold min3. lia. Qed.

Lemma lev_nil_r a : lev a [] = length a.
Proof. by destruct a. Qed.

Lemma lev_cons x a y b :
  lev (x :: a) (y :: b)
  = min3 (lev (x :: a) b + 1) (lev a (y :: b) + 1) (lev a b + ne_int x y).
Proof. reflexivity. Qed.

(** [lev a b] is the cost of some edit script ... *)
Lemma edit_lev a b : edit a b (lev a b).
Proof.
  induction a as [|x a IHa] in b |- *.
  - induction b as [|y b IHb]; [constructor | by apply edit_ins].
  - induction b as [|y b IHb].
    + rewrite lev_nil_r. specialize (IHa []). rewrite lev_nil_r in IHa.
      by apply edit_del.
    + rewrite lev_cons.
      destruct (min3_cases (lev (x :: a) b + 1) (lev a (y :: b) + 1)
                  (lev a b + ne_int x y)) as [-> | [-> | ->]].
      * rewrite Nat.add_1_r. by apply edit_ins.
      * rewrite Nat.add_1_r. by apply edit_del.
      * by apply edit_sub.
Qed.

(** ... and no edit script is cheaper. *)
Lemma lev_le_edit a b n : edit a b n → lev a b ≤ n.
Proof.
  induction 1 as [|x a b n _ IH|y a b n _ IH|x y a b n _ IH].
  - done.
  - destruct b as [|y b].
    + rewrite !lev_nil_r in *. simpl. lia.
    + rewrite lev_cons.
      pose proof (min3_le (lev (x :: a) b + 1) (lev a (y :: b) + 1)
                    (lev a b + ne_int x y)). lia.
  - destruct a as [|x a].
    + simpl in *. lia.
    + rewrite lev_cons.
      pose proof (min3_le (lev (x :: a) b + 1) (lev a (y :: b) + 1)
                    (lev a b + ne_int x y)). lia.
  - rewrite lev_cons.
    pose proof (min3_le (lev (x :: a) b + 1) (lev a (y :: b) + 1)
                  (lev a b + ne_int x y)). lia.
Qed.

Lemma lev_unique a b d :
  edit a b d → (∀ n, edit a b n → d ≤ n) → d = lev a b.
Proof.
  intros Hd Hmin. apply Nat.le_antisymm.
  - apply Hmin, edit_lev.
  - by apply lev_le_edit.
Qed.

Lemma edit_sym a b n : edit a b n → edit b a n.
Proof.
  induction 1; [constructor | by apply edit_ins | by apply edit_del |].
  rewrite ne_int_sym. by apply edit_sub.
Qed.

Lemma lev_sym a b : lev a b = lev b a.
Proof.
  apply Nat.le_antisymm; apply lev_le_edit, edit_sym, edit_lev.
Qed.

Lemma edit_refl a : edit a a 0.
Proof.
  induction a as [|x a IH]; [constructor|].
  replace 0 with (0 + ne_int x x) by (rewrite ne_int_refl; lia).
  by apply edit_sub.
Qed.

Lemma edit_zero a b n : edit a b n → n = 0 → a = b.
Proof.
  induction 1 as [| | |x y a b n _ IH]; try done.
  intros Hn. assert (n = 0 ∧ ne_int x y = 0) as [Hn0 Hxy] by lia.
  f_equal; [by apply ne_int_zero | by apply IH].
Qed.

Lemma lev_zero a b : lev a b = 0 ↔ a = b.
Proof.
  split.
  - intros Hz. apply (edit_zero a b (lev a b)); [apply edit_lev | done].
  - intros ->. pose proof (lev_le_edit b b 0 (edit_refl b)). lia.
Qed.

(** Edit scripts can equally be extended at the right end. *)
Lemma edit_snoc_del x a b n : edit a b n → edit (a ++ [x]) b (S n).
Proof.
  induction 1 as [|x' a b n _ IH|y' a b n _ IH|x' y' a b n _ IH]; simpl.
  - apply edit_del, edit_nil.
  - by apply edit_del.
  - by apply edit_ins.
  - by apply (edit_sub x' y' _ _ (S n)).
Qed.

Lemma edit_snoc_ins y a b n : edit a b n → edit a (b ++ [y]) (S n).
Proof. intros Hd. apply edit_sym, edit_snoc_del, edit_sym, Hd. Qed.

Lemma edit_snoc_sub x y a b n :
  edit a b n → edit (a ++ [x]) (b ++ [y]) (n + ne_int x y).
Proof.
  induction 1 as [|x' a b n _ IH|y' a b n _ IH|x' y' a b n _ IH]; simpl.
  - apply (edit_sub x y [] [] 0), edit_nil.
  - by apply edit_del.
  - by apply edit_ins.
  - replace (n + ne_int x' y' + ne_int x y)
      with (n + ne_int x y + ne_int x' y') by lia.
    by apply edit_sub.
Qed.

Lemma edit_rev a b n : edit a b n → edit (rev a) (rev b) n.
Proof.
  induction 1; simpl;
    [constructor | by apply edit_snoc_del | by apply edit_snoc_ins
    | by apply edit_snoc_sub].
Qed.

Lemma lev_rev a b : lev (rev a) (rev b) = lev a b.
Proof.
  apply Nat.le_antisymm.
  - apply lev_le_edit, edit_rev, edit_lev.
  - rewrite <- (rev_involutive a), <- (rev_involutive b) at 1.
    apply lev_le_edit, edit_rev, edit_lev.
Qed.

(** The recurrence the table is filled with: last tokens instead of
    first tokens. *)
Lemma lev_snoc x a y b :
  lev (a ++ [x]) (b ++ [y])
  = min3 (lev (a ++ [x]) b + 1) (lev a (b ++ [y]) + 1) (lev a b + ne_int x y).
Proof.
  rewrite <- (lev_rev (a ++ [x]) (b ++ [y])), !rev_unit, lev_cons.
  rewrite <- (rev_unit a x), <- (rev_unit b y), !lev_rev.
  reflexivity.
Qed.

Lemma lev_snoc_nil x a : lev (a ++ [x]) [] = length a + 1.
Proof. by rewrite lev_nil_r, length_app. Qed.

Lemma row_lookup r hyp n k :
  k < n → row r hyp n !! k = Some (lev r (take k hyp)).
Proof.
  intros Hk. unfold row. rewrite list_lookup_fmap, lookup_seq_lt by done.
  reflexivity.
Qed.

Lemma row_snoc r hyp n :
  row r hyp (S n) = row r hyp n ++ [lev r (take n hyp)].
Proof. unfold row. by rewrite seq_S, fmap_app. Qed.

Lemma take_snoc_middle h1 y h2 :
  take (length h1 + 1) (h1 ++ y :: h2) = h1 ++ [y].
Proof.
  rewrite (cons_middle y h1 h2), app_assoc.
  replace (length h1 + 1) with (length (h1 ++ [y]))
    by (rewrite length_app; simpl; lia).
  by rewrite take_app_length.
Qed.

(** One pass through the inner body fills in the next cell of the row. *)
Lemma inner_body_cell r x h1 y h2 :
  inner_body x (row r (h1 ++ y :: h2) (length (h1 ++ y :: h2) + 1))
    (row (r ++ [x]) (h1 ++ y :: h2) (length h1 + 1)) (length h1 + 1) y
  = Some (row (r ++ [x]) (h1 ++ y :: h2) (S (length h1 + 1))).
Proof.
  unfold inner_body.
  replace (length h1 + 1 - 1) with (length h1) by lia.
  rewrite !row_lookup by (rewrite ?length_app; simpl; lia). simpl.
  rewrite take_app_length, take_snoc_middle, <- lev_snoc.
  by rewrite row_snoc, take_snoc_middle.
Qed.

(** Inner loop: started on the first [length h1 + 1] cells of the new
    row, it completes the row. *)
Lemma inner_loop_row r x h1 h2 :
  for_enumerate (inner_body x (row r (h1 ++ h2) (length (h1 ++ h2) + 1)))
    (length h1 + 1) h2 (row (r ++ [x]) (h1 ++ h2) (length h1 + 1))
  = Some (row (r ++ [x]) (h1 ++ h2) (length (h1 ++ h2) + 1)).
Proof.
  induction h2 as [|y h2 IH] in h1 |- *; cbn [for_enumerate].
  - by rewrite app_nil_r.
  - rewrite inner_body_cell. cbn [mbind option_bind].
    specialize (IH (h1 ++ [y])).
    rewrite <- (app_assoc h1 [y] h2) in IH. simpl in IH.
    rewrite <- IH. f_equal; rewrite length_app; simpl; f_equal; lia.
Qed.

Lemma outer_body_row r x hyp :
  outer_body hyp (row r hyp (length hyp + 1)) (length r + 1) x
  = Some (row (r ++ [x]) hyp (length hyp + 1)).
Proof.
  unfold outer_body.
  pose proof (inner_loop_row r x [] hyp) as Hin.
  rewrite app_nil_l in Hin. rewrite <- Hin. f_equal.
  unfold row. simpl. by rewrite take_0, lev_snoc_nil.
Qed.

Lemma outer_loop_row r1 r2 hyp :
  for_enumerate (outer_body hyp) (length r1 + 1) r2 (row r1 hyp (length hyp + 1))
  = Some (row (r1 ++ r2) hyp (length hyp + 1)).
Proof.
  induction r2 as [|x r2 IH] in r1 |- *; cbn [for_enumerate].
  - by rewrite app_nil_r.
  - rewrite outer_body_row. cbn [mbind option_bind].
    specialize (IH (r1 ++ [x])).
    rewrite <- (app_assoc r1 [x] r2) in IH. simpl in IH.
    rewrite <- IH. f_equal. rewrite length_app. simpl. lia.
Qed.

Lemma row_nil hyp n : n ≤ length hyp + 1 → row [] hyp n = seq 0 n.
Proof.
  intros Hn. unfold row. rewrite <- (list_fmap_id (seq 0 n)) at 2.
  apply list_fmap_ext. intros i k Hk. apply lookup_seq in Hk as [-> Hlt].
  simpl. rewrite length_take. lia.
Qed.

(** The dynamic programme never raises and returns the Levenshtein
    distance. *)
Lemma levenshtein_distance_lev ref hyp :
  _levenshtein_distance ref hyp = Some (lev ref hyp).
Proof.
  unfold _levenshtein_distance.
  pose proof (outer_loop_row [] ref hyp) as Hout. simpl in Hout.
  rewrite row_nil in Hout by lia. rewrite Hout. simpl.
  replace (length hyp + 1) with (S (length hyp)) by lia.
  rewrite row_snoc, last_snoc, firstn_all. reflexivity.
Qed.

End levenshtein_facts.

Example lev_dp_kitten :
  _levenshtein_distance (list_ascii_of_string "kitten") (list_ascii_of_string "sitting")
  = Some 3.
Proof. reflexivity. Qed.


(** ** Python string methods *)

Lemma startswith_spec s p :
  startswith s p = true ↔ ∃ after, s = p ++ after.
Proof.
  revert s. induction p as [|a p IH]; intros s; simpl.
  - split; [by exists s | done].
  - destruct s as [|b s].
    + split; [done | by intros [? ?]].
    + rewrite andb_true_iff, IH, Ascii.eqb_eq. split.
      * intros [-> [after ->]]. eauto.
      * intros [after [= -> ->]]. eauto.
Qed.

(** [needle in hay] holds exactly when [needle] occurs inside [hay]. *)
Lemma contains_spec hay needle :
  contains hay needle = true ↔ is_substring needle hay.
Proof.
  unfold is_substring. induction hay as [|c hay IH].
  - simpl. rewrite orb_false_r, startswith_spec. split.
    + intros [after Heq]. by exists EmptyString, after.
    + intros ([|? ?] & after & Heq); [eauto | done].
  - cbn [contains]. rewrite orb_true_iff, startswith_spec, IH. split.
    + intros [[after Heq] | (before & after & ->)].
      * by exists EmptyString, after.
      * by exists (String c before), after.
    + intros ([|b before] & after & Heq).
      * left. eauto.
      * right. injection Heq as -> ->. eauto.
Qed.

Lemma not_contains_spec hay needle :
  negb (contains hay needle) = true ↔ ¬ is_substring needle hay.
Proof.
  rewrite negb_true_iff, <- contains_spec. by destruct (contains hay needle).
Qed.

Lemma truthy_spec s : truthy s = true ↔ s ≠ EmptyString.
Proof. by destruct s. Qed.

Lemma list_ascii_of_string_inj s t :
  list_ascii_of_string s = list_ascii_of_string t → s = t.
Proof.
  intros Heq.
  rewrite <- (string_of_list_ascii_of_string s), <- (string_of_list_ascii_of_string t).
  by rewrite Heq.
Qed.

Lemma length_list_ascii_of_string s :
  length (list_ascii_of_string s) = String.length s.
Proof. induction s; simpl; congruence. Qed.

(** ** Quotients of counters *)

Lemma truediv_is_Some x y : y ≠ 0 → truediv x y = Some (inject_Z (Z.of_nat x) / inject_Z (Z.of_nat y))%Q.
Proof. by destruct y. Qed.

Lemma quotient_zero (x y : nat) :
  y ≠ 0 → (inject_Z (Z.of_nat x) / inject_Z (Z.of_nat y) == 0)%Q ↔ x = 0.
Proof.
  intros Hy. destruct y as [|y]; [done|].
  unfold Qdiv, Qinv, Qmult, Qeq, inject_Z. simpl. lia.
Qed.

Lemma quotient_gt_one (x y : nat) :
  y ≠ 0 → y < x → (1 < inject_Z (Z.of_nat x) / inject_Z (Z.of_nat y))%Q.
Proof.
  intros Hy Hlt. destruct y as [|y]; [done|].
  unfold Qdiv, Qinv, Qmult, Qlt, inject_Z. simpl. lia.
Qed.

(** ** scoring.py *)

(** C8. The edit distance computed by [_levenshtein_distance] is
    symmetric: on every pair of token sequences both calls return, and
    they return the same number. *)
Theorem levenshtein_distance_symmetric {A} `{EqDecision A} (a b : list A) :
  ∃ d, _levenshtein_distance a b = Some d ∧ _levenshtein_distance b a = Some d.
Proof.
  exists (lev a b). rewrite !levenshtein_distance_lev.
  split; [done | by rewrite (lev_sym b a)].
Qed.

(** On a non-empty reference [cer] divides the Levenshtein distance of
    the character sequences by the length of the reference. *)
Lemma cer_nonempty (ref hyp : string) :
  ref ≠ EmptyString →
  cer ref hyp
  = Some (inject_Z (Z.of_nat (lev (list_ascii_of_string ref)
                                (list_ascii_of_string hyp)))
          / inject_Z (Z.of_nat (String.length ref)))%Q.
Proof.
  destruct ref as [|c r]; intros Hr; [done|]. unfold cer.
  cbn [list_ascii_of_string]. rewrite levenshtein_distance_lev.
  cbn [mbind option_bind]. rewrite truediv_is_Some by done.
  cbn [length String.length]. by rewrite (length_list_ascii_of_string r).
Qed.

Lemma cer_is_Some (ref hyp : string) : is_Some (cer ref hyp).
Proof.
  destruct ref as [|c r].
  - by destruct hyp.
  - by rewrite cer_nonempty.
Qed.

(** C5. [cer] always returns; the rate is zero exactly when the two
    strings are equal; [cer] of two empty strings is 0 and [cer] of an
    empty reference and a non-empty hypothesis is 1; for a non-empty
    reference the rate is the cost of a cheapest edit script (the
    Levenshtein distance) over the characters, divided by the number of
    characters of the reference. *)
Theorem cer_spec (ref hyp : string) :
  (∃ q, cer ref hyp = Some q ∧ ((q == 0)%Q ↔ ref = hyp))
  ∧ cer EmptyString EmptyString = Some 0%Q
  ∧ (hyp ≠ EmptyString → cer EmptyString hyp = Some 1%Q)
  ∧ (ref ≠ EmptyString →
     ∃ d, edit (list_ascii_of_string ref) (list_ascii_of_string hyp) d
          ∧ (∀ n, edit (list_ascii_of_string ref) (list_ascii_of_string hyp) n
                  → d ≤ n)
          ∧ d = lev (list_ascii_of_string ref) (list_ascii_of_string hyp)
          ∧ cer ref hyp
            = Some (inject_Z (Z.of_nat d)
                    / inject_Z (Z.of_nat (String.length ref)))%Q).
Proof.
  split; [|split; [done|split]].
  - destruct ref as [|c ref].
    + destruct hyp as [|c' hyp]; simpl.
      * by exists 0%Q.
      * exists 1%Q. split; [done|]. split; [|done].
        unfold Qeq. simpl. lia.
    + eexists. split; [by apply cer_nonempty|].
      rewrite quotient_zero by done. rewrite lev_zero. split.
      * apply list_ascii_of_string_inj.
      * by intros ->.
  - by destruct hyp.
  - intros Href. eexists. split; [apply edit_lev|].
    split; [intros n Hn; by apply lev_le_edit|].
    split; [done | by apply cer_nonempty].
Qed.

(** C5, at a concrete pair. *)
Lemma cer_spec_witness :
  cer EmptyString "x" = Some 1%Q
  ∧ ∃ d, d = 3 ∧ cer "kitten" "sitting"
               = Some (inject_Z (Z.of_nat d) / inject_Z (Z.of_nat 6))%Q.
Proof.
  split.
  - by apply (cer_spec EmptyString "x").
  - destruct (proj2 (proj2 (proj2 (cer_spec "kitten" "sitting")))) as
      (d & _ & _ & Hd & Hcer); [done|].
    exists d. split; [by rewrite Hd | exact Hcer].
Defined.

(** C9. Neither rate is clamped to the unit interval: a hypothesis much
    longer than a non-empty reference gives a rate above 1, for [cer] and
    for [wer]; and both are functions that return on every input. *)
Theorem cer_wer_not_clamped :
  (∃ ref hyp q, ref ≠ EmptyString ∧ cer ref hyp = Some q ∧ (1 < q)%Q)
  ∧ (∃ ref hyp q, ref ≠ EmptyString ∧ wer ref hyp = Some q ∧ (1 < q)%Q)
  ∧ (∀ ref hyp, is_Some (cer ref hyp) ∧ is_Some (wer ref hyp)).
Proof.
  split; [|split].
  - exists "a", "bbb". eexists. split; [done|]. split; [reflexivity|]. done.
  - exists "a", "b c d". eexists. split; [done|]. split; [reflexivity|]. done.
  - intros ref hyp. split.
    + apply cer_is_Some.
    + unfold wer. destruct (split_ws ref) as [|w ws] eqn:Hws; [eauto|].
      rewrite levenshtein_distance_lev. cbn [mbind option_bind].
      rewrite truediv_is_Some by done. eauto.
Qed.

Lemma filter_nil_forallb {A} (f : A → bool) (l : list A) :
  List.filter f l = [] ↔ ∀ x, x ∈ l → f x = false.
Proof.
  induction l as [|x l IH]; simpl.
  - split; [intros _ x Hx; by apply elem_of_nil in Hx | done].
  - destruct (f x) eqn:Hfx.
    + split; [done|]. intros Hall. specialize (Hall x (list_elem_of_here _ _)).
      congruence.
    + rewrite IH. split.
      * intros Hall y [->|Hy]%elem_of_cons; [done | by apply Hall].
      * intros Hall y Hy. apply Hall. by apply list_elem_of_further.
Qed.

Lemma keyword_items_spec keywords k :
  k ∈ keyword_items keywords
  ↔ ∃ raw, raw ∈ raw_keywords keywords ∧ k = strip raw ∧ k ≠ EmptyString.
Proof.
  destruct keywords as [s|l]; simpl; rewrite list_elem_of_fmap.
  - split.
    + intros (raw & -> & Hin). apply list_elem_of_In, filter_In in Hin as [Hin Hne].
      exists raw. by rewrite list_elem_of_In, <- truthy_spec.
    + intros (raw & Hin & -> & Hne). exists raw. split; [done|].
      apply list_elem_of_In, filter_In. by rewrite <- list_elem_of_In, truthy_spec.
  - split.
    + intros (raw & -> & Hin). apply list_elem_of_In, filter_In in Hin as [Hin Hne].
      apply andb_true_iff in Hne as [_ Hne].
      exists raw. by rewrite list_elem_of_In, <- truthy_spec.
    + intros (raw & Hin & -> & Hne). exists raw. split; [done|].
      apply list_elem_of_In, filter_In. rewrite <- list_elem_of_In.
      split; [done|]. apply truthy_spec in Hne as Hne'. rewrite Hne'.
      destruct raw; [done|done].
Qed.

(** C6. The keywords are the trimmed, non-blank pieces of the
    specification. Without any the result is [(False, [])]. Otherwise the
    second component lists, in order, the keywords of which the
    lower-cased form does not occur in the lower-cased answer, and the
    first component tells whether that list is empty. The two examples
    of the lion evaluate as stated. *)
Theorem check_answer_with_keywords_spec (answer : string) (keywords : keywords_arg) :
  (∀ k, k ∈ keyword_items keywords
        ↔ ∃ raw, raw ∈ raw_keywords keywords ∧ k = strip raw ∧ k ≠ EmptyString)
  ∧ (keyword_items keywords = [] →
     check_answer_with_keywords answer keywords = (false, []))
  ∧ (keyword_items keywords ≠ [] →
     ∃ all_matched missing,
       check_answer_with_keywords answer keywords = (all_matched, missing)
       ∧ missing
         = List.filter (λ k, negb (contains (lower answer) (lower k)))
             (keyword_items keywords)
       ∧ (∀ k, negb (contains (lower answer) (lower k)) = true
               ↔ ¬ is_substring (lower k) (lower answer))
       ∧ (all_matched = true
          ↔ ∀ k, k ∈ keyword_items keywords →
                 is_substring (lower k) (lower answer)))
  ∧ check_answer_with_keywords "The lion is a carnivore"
      (KeywordsStr "lion, carnivore") = (true, [])
  ∧ check_answer_with_keywords "The lion is here"
      (KeywordsStr "lion, carnivore") = (false, ["carnivore"]).
Proof.
  split; [apply keyword_items_spec|].
  split; [|split; [|done]].
  - unfold check_answer_with_keywords. by intros ->.
  - intros Hne. unfold check_answer_with_keywords.
    destruct (keyword_items keywords) as [|k0 items] eqn:Hitems; [done|].
    set (missing := List.filter _ (k0 :: items)).
    exists (match missing with [] => true | _ => false end), missing.
    split; [done|]. split; [done|].
    split; [intros k; apply not_contains_spec|].
    transitivity (missing = []); [by destruct missing|].
    unfold missing. rewrite filter_nil_forallb.
    apply forall_proper. intros k.
    rewrite <- contains_spec.
    destruct (contains (lower answer) (lower k)); simpl; naive_solver.
Qed.

(** C6, at a specification given as a list with blank entries. *)
Lemma check_answer_with_keywords_spec_witness :
  check_answer_with_keywords "The lion is here" (KeywordsStr " , ,") = (false, [])
  ∧ ∃ all_matched,
      check_answer_with_keywords "The LION is here"
        (KeywordsIter [EmptyString; " Lion "; "zebra "]) = (all_matched, ["zebra"]).
Proof.
  split.
  - by apply (check_answer_with_keywords_spec "The lion is here" (KeywordsStr " , ,")).
  - destruct (proj1 (proj2 (proj2 (check_answer_with_keywords_spec "The LION is here"
                (KeywordsIter [EmptyString; " Lion "; "zebra "])))))
      as (all_matched & missing & Heq & Hmissing & _); [done|].
    exists all_matched. rewrite Heq, Hmissing. reflexivity.
Defined.


(** ** llm_client.py *)

Lemma string_app_nil_r (s : string) : s ++ EmptyString = s.
Proof.
  induction s as [|a s IH]; [done|].
  change (String a (s ++ EmptyString) = String a s). by rewrite IH.
Qed.

Lemma is_substring_suffix (before s : string) : is_substring s (before ++ s).
Proof. exists before, EmptyString. by rewrite string_app_nil_r. Qed.

(** The [try] block raises exactly on the failures of the call. *)
Lemma evaluate_try_failure judge q ref answer exc :
  delegate_failure judge q ref answer exc →
  evaluate_try judge (gave (chat_completions_create judge q ref answer))
  = Raised exc.
Proof.
  unfold evaluate_try.
  destruct 1 as [exc Hc|content Hc [-> | ->]|content exc Hc Hne Hj
                |content type_name Hc Hne Hj]; rewrite Hc; simpl; try done.
  - destruct content; [done|]. unfold mbind, outcome_bind. by rewrite Hj.
  - destruct content; [done|]. unfold mbind, outcome_bind. by rewrite Hj.
Qed.

(** C1, as amended. With a client at hand, when the call to the model
    fails (the request raises, the reply is empty, is not JSON, or is not
    a JSON object), [evaluate_answer_with_llm] does not raise: it returns
    a judgment with [is_correct] false and the reason ["Evaluation
    failed: "] followed by the failure text. A JSON object with missing
    fields is not a failure: the fields present are returned as they are,
    and a missing field becomes [False], [0] or ["No reason provided"]. *)
Theorem evaluate_answer_with_llm_fail_closed
    (judge : JudgeModel) (q ref answer : string) :
  get_openai_client judge = Returned tt →
  (∀ exc, delegate_failure judge q ref answer exc →
     ∃ res, gave (evaluate_answer_with_llm judge q ref answer) = Returned res
            ∧ eval_is_correct res = Some false
            ∧ eval_reason res = Some ("Evaluation failed: " ++ exc)
            ∧ is_substring exc ("Evaluation failed: " ++ exc))
  ∧ (∀ content o,
       gave (chat_completions_create judge q ref answer) = Returned (Some content) →
       content ≠ EmptyString →
       json_loads judge content = Returned (JsonObject o) →
       gave (evaluate_answer_with_llm judge q ref answer)
       = Returned {| eval_is_correct := Some (default false (eval_is_correct o));
                     eval_score := Some (default 0%Z (eval_score o));
                     eval_reason :=
                       Some (default "No reason provided" (eval_reason o)) |}).
Proof.
  intros Hclient. unfold evaluate_answer_with_llm. rewrite Hclient. split.
  - intros exc Hfail. rewrite (evaluate_try_failure _ _ _ _ _ Hfail).
    eexists. split; [reflexivity|]. split; [done|]. split; [done|].
    apply is_substring_suffix.
  - intros content o Hc Hne Hj. unfold evaluate_try. rewrite Hc. simpl.
    destruct content; [done|]. unfold mbind, outcome_bind. by rewrite Hj.
Qed.


(** C1 as amended, on the judge that cannot be reached. *)
Lemma evaluate_answer_with_llm_fail_closed_witness :
  ∃ res,
    gave (evaluate_answer_with_llm judge_unreachable "What is a lion?"
            "A large cat" "A big cat") = Returned res
    ∧ eval_is_correct res = Some false
    ∧ eval_reason res = Some "Evaluation failed: Connection error.".
Proof.
  destruct (proj1 (evaluate_answer_with_llm_fail_closed judge_unreachable
                     "What is a lion?" "A large cat" "A big cat" eq_refl)
              "Connection error.")
    as (res & Hres & Hcorrect & Hreason & _).
  - by apply failure_call.
  - exists res. by rewrite Hres, Hcorrect, Hreason.
Defined.

(** C1 as stated fails on a reply with a missing field: the object says
    [is_correct: true] and [score: 90] and has no reason; the judgment
    returned keeps both, so it is not the fail-closed one, whatever the
    failure text. *)
Lemma evaluate_answer_with_llm_missing_field_counterexample :
  ∃ res,
    gave (evaluate_answer_with_llm judge_without_reason "What is a lion?"
            "A large cat" "A big cat") = Returned res
    ∧ eval_is_correct res = Some true
    ∧ eval_score res = Some 90%Z
    ∧ eval_reason res = Some "No reason provided"
    ∧ ¬ ∃ exc, fail_closed exc res.
Proof.
  eexists. split; [reflexivity|]. simpl. do 3 (split; [done|]).
  by intros (exc & Hcorrect & _).
Qed.

(** After a failure of the call the judgment has no key ["score"] at all:
    the [except] branch builds a dictionary of two keys. *)
Example evaluate_answer_with_llm_failure_has_no_score :
  gave (evaluate_answer_with_llm judge_unreachable "What is a lion?"
          "A large cat" "A big cat")
  = Returned {| eval_is_correct := Some false; eval_score := None;
                eval_reason := Some "Evaluation failed: Connection error." |}.
Proof. reflexivity. Qed.

(** Without an API key [evaluate_answer_with_llm] raises: the client is
    built before the [try]. *)
Example evaluate_answer_with_llm_without_key judge q ref answer exc :
  get_openai_client judge = Raised exc →
  gave (evaluate_answer_with_llm judge q ref answer) = Raised exc.
Proof. intros Hc. unfold evaluate_answer_with_llm. by rewrite Hc. Qed.


(** ** pipeline.py *)

Ltac unfold_monad :=
  unfold mbind, mret, M_bind, M_ret, bind, ret, raise, try_except, update,
    modify, read, call, lift, perf_counter in *.

(** Case analysis on whatever the computation in the goal branches on. *)
Ltac case_scrutinee :=
  match goal with
  | |- context [match ?x with _ => _ end] =>
      lazymatch x with
      | context [match _ with _ => _ end] => fail
      | _ => destruct x eqn:?
      end
  | |- context [if ?x then _ else _] =>
      lazymatch x with
      | context [if _ then _ else _] => fail
      | _ => destruct x eqn:?
      end
  end.

Ltac run_stage :=
  unfold_monad; cbn beta iota; repeat (case_scrutinee; cbn beta iota zeta).

Lemma only_touches_refl ks s : only_touches ks s s.
Proof. unfold only_touches. repeat split; lia. Qed.

Lemma only_touches_trans ks1 ks2 s1 s2 s3 :
  only_touches ks1 s1 s2 → only_touches ks2 s2 s3 →
  only_touches (ks1 ++ ks2) s1 s3.
Proof.
  intros (Hn1 & Hl1 & Hs1 & He1 & Hi1 & Hx1) (Hn2 & Hl2 & Hs2 & He2 & Hi2 & Hx2).
  unfold only_touches. split; [lia|]. split; [|split; [|split; [|split]]].
  - intros j Hj. rewrite not_elem_of_app in Hj. destruct Hj as [Hj1 Hj2].
    by rewrite Hl2, Hl1.
  - congruence.
  - congruence.
  - congruence.
  - intros Hj. rewrite not_elem_of_app in Hj. destruct Hj as [Hj1 Hj2].
    destruct (Hx1 Hj1), (Hx2 Hj2). split; congruence.
Qed.

Section one_item_facts.
Variables (self : ProcessingPipeline) (env : Collaborators).
Variables (item_id : Z) (q ref : string) (phrase_hints : option (list string)).
Variables (stt_provider language_code : string).

Local Abbreviation run_stage_of := (stage_run self env item_id q ref phrase_hints
                         stt_provider language_code).
Local Abbreviation run_all := (run_stages self env item_id q ref phrase_hints
                          stt_provider language_code).
Local Abbreviation try_block := (process_item_try self env item_id q ref
                                phrase_hints stt_provider language_code).

(** A stage changes nothing but what is its own, and when it raises it
    has not yet written its latency. *)
Lemma stage_run_touches k s o s' :
  run_stage_of k s = (o, s') →
  only_touches [k] s s'
  ∧ (∀ msg, o = Raised msg → latency k (result s') = latency k (result s)).
Proof.
  destruct s as [t r], r. unfold only_touches.
  destruct k; unfold stage_run, stage_tts, stage_stt, stage_chatbase,
    stage_eval; run_stage; intros [= <- <-]; cbn;
    (split; [split; [lia|]; split;
               [intros [] Hj; cbn; try done; by apply not_elem_of_cons in Hj as [? _]
               |split; [done|]; split; [done|]; split; [done|];
                intros Hj; try done; by apply not_elem_of_cons in Hj as [? _]]
            |try done]).
Qed.

Lemma run_stages_touches l s o s' :
  run_all l s = (o, s') → only_touches l s s'.
Proof.
  revert s. induction l as [|k l IH]; intros s; cbn [run_stages].
  - intros [= <- <-]. apply only_touches_refl.
  - unfold mbind, M_bind, bind.
    destruct (run_stage_of k s) as [[e|[]] s1] eqn:Hk;
      apply stage_run_touches in Hk as [Hk _].
    + intros [= <- <-].
      apply (only_touches_trans [k] l s s1 s1 Hk), only_touches_refl.
    + intros Hl. apply (only_touches_trans [k] l s s1 s' Hk), IH, Hl.
Qed.

Lemma run_stages_app l1 l2 s :
  run_all (l1 ++ l2) s
  = match run_all l1 s with
    | (Raised e, s1) => (Raised e, s1)
    | (Returned _, s1) => run_all l2 s1
    end.
Proof.
  revert s. induction l1 as [|k l1 IH]; intros s; [done|].
  cbn [run_stages app]. unfold mbind, M_bind, bind.
  destruct (run_stage_of k s) as [[e|[]] s1]; [done | apply IH].
Qed.

Lemma run_stages_singleton k s :
  run_all [k] s
  = match run_stage_of k s with
    | (Raised e, s1) => (Raised e, s1)
    | (Returned _, s1) => (Returned tt, s1)
    end.
Proof.
  cbn [run_stages]. unfold mbind, M_bind, bind, ret.
  by destruct (run_stage_of k s) as [[e|[]] s1].
Qed.

(** The [try] block runs the four stages in order and then marks the
    result as a success. *)
Lemma process_item_try_stages s :
  try_block s
  = match run_all [TTS; STT; Chatbase; Eval] s with
    | (Raised e, s1) => (Raised e, s1)
    | (Returned _, s1) =>
        (Returned tt, Frame (now s1) (set_status "success" (result s1)))
    end.
Proof.
  unfold process_item_try. cbn [run_stages stage_run].
  unfold mbind, M_bind, bind, ret, update, modify.
  repeat (case_scrutinee; try done).
Qed.

(** [process_item] always returns: the result of the [try] block with
    the total latency, marked as an error if the block raised. *)
Lemma process_item_unfold clock :
  process_item self env item_id q ref phrase_hints stt_provider
    language_code clock
  = match try_block (Frame clock (new_PipelineResult item_id q ref)) with
    | (Raised e, s1) =>
        (Returned (set_total_latency (now s1 - clock)
                     (set_error_msg (Some e)
                        (set_status "error" (result s1)))), now s1)
    | (Returned _, s1) =>
        (Returned (set_total_latency (now s1 - clock) (result s1)), now s1)
    end.
Proof.
  unfold process_item, process_item_body.
  unfold mbind, M_bind, bind, ret, try_except, update, modify, read,
    perf_counter. cbn beta iota.
  by destruct (try_block _) as [[e|[]] s1].
Qed.

(** Stage [k] is not among the stages before it, and every later stage
    is neither. *)
Lemma from_stage_not_earlier k j : j ∈ from_stage k → j ∉ earlier k.
Proof.
  destruct k, j; cbn; intros Hin Hnot;
    repeat (apply elem_of_cons in Hin as [?|Hin]; try done);
    repeat (apply elem_of_cons in Hnot as [?|Hnot]; try done);
    by apply elem_of_nil in Hin || by apply elem_of_nil in Hnot.
Qed.

Lemma all_stages_split k :
  [TTS; STT; Chatbase; Eval] = (earlier k ++ from_stage k)%list.
Proof. by destruct k. Qed.

Lemma from_stage_head k : ∃ l, from_stage k = k :: l.
Proof. destruct k; eauto. Qed.

Lemma earlier_not_self k j : j ∈ earlier k → j ∉ [k].
Proof.
  intros Hin Hk. apply list_elem_of_singleton in Hk as ->.
  revert Hin. apply from_stage_not_earlier.
  destruct (from_stage_head k) as [l ->]. apply list_elem_of_here.
Qed.

(** What the run of all stages gives when stage [k] fails. *)
Lemma fails_at_run clock k msg s :
  fails_at self env item_id q ref phrase_hints stt_provider language_code
    clock k msg s →
  ∃ s', run_stage_of k s = (Raised msg, s')
        ∧ run_all [TTS; STT; Chatbase; Eval]
            (Frame clock (new_PipelineResult item_id q ref))
          = (Raised msg, s').
Proof.
  intros [Hbefore [s' Hk]]. exists s'. split; [done|].
  rewrite (all_stages_split k), run_stages_app, Hbefore.
  destruct (from_stage_head k) as [l ->].
  cbn [run_stages]. unfold mbind, M_bind, bind. by rewrite Hk.
Qed.
End one_item_facts.

(** Closing a result (status, error text, total latency) leaves the
    latencies of the stages, the score and the reason as they are. *)
Lemma latency_closed j t e st r :
  latency j (set_total_latency t (set_error_msg e (set_status st r)))
  = latency j r.
Proof. by destruct r, j. Qed.

Lemma latency_new j item_id q ref :
  latency j (new_PipelineResult item_id q ref) = 0%Z.
Proof. by destruct j. Qed.

(** C4. [process_item] never raises: it returns a [PipelineResult]
    whatever the collaborators do. When stage [k] is the one that fails
    with message [msg], the result has status ["error"] and carries [msg]
    unchanged in [error_msg]; the latency of stage [k] and of every later
    stage is still 0, and the latencies of the stages completed before
    are those measured when they completed. A result with status
    ["error"] always comes from such a failure. *)
Theorem process_item_never_raises
    (self : ProcessingPipeline) (env : Collaborators) (item_id : Z)
    (q ref : string) (phrase_hints : option (list string))
    (stt_provider language_code : string) (clock : Z) :
  ∃ r clock',
    process_item self env item_id q ref phrase_hints stt_provider
      language_code clock = (Returned r, clock')
    ∧ (∀ k msg s,
         fails_at self env item_id q ref phrase_hints stt_provider
           language_code clock k msg s →
         status r = "error"
         ∧ error_msg r = Some msg
         ∧ (∀ j, j ∈ from_stage k → latency j r = 0%Z)
         ∧ (∀ j, j ∈ earlier k → latency j r = latency j (result s)))
    ∧ (status r = "error" →
       ∃ k msg s,
         fails_at self env item_id q ref phrase_hints stt_provider
           language_code clock k msg s).
Proof.
  rewrite process_item_unfold, process_item_try_stages.
  set (s0 := Frame clock (new_PipelineResult item_id q ref)).
  destruct (run_stages _ _ _ _ _ _ _ _ _ s0) as [[e|[]] s1] eqn:Hrun.
  - eexists _, _. split; [reflexivity|]. split.
    + intros k msg s Hfail.
      pose proof Hfail as [Hbefore _].
      apply fails_at_run in Hfail as (s' & Hk & Hall).
      fold s0 in Hall, Hbefore. rewrite Hrun in Hall. injection Hall as -> ->.
      apply run_stages_touches in Hbefore as (_ & Hearlier & _).
      apply stage_run_touches in Hk as [(_ & Hothers & _) Hself].
      split; [by destruct (result s')|]. split; [by destruct (result s')|].
      split; intros j Hj; rewrite latency_closed.
      * assert (latency j (result s) = 0%Z) as Hzero.
        { rewrite Hearlier by (by apply from_stage_not_earlier).
          apply latency_new. }
        destruct (decide (j = k)) as [->|Hjk].
        -- by rewrite (Hself msg eq_refl).
        -- rewrite Hothers; [done|].
           rewrite not_elem_of_cons. split; [done | apply not_elem_of_nil].
      * apply Hothers. by apply earlier_not_self.
    + intros _. clear -Hrun. subst s0. revert Hrun.
      cbn [run_stages]. unfold mbind, M_bind, bind, ret.
      set (s0 := Frame clock (new_PipelineResult item_id q ref)).
      destruct (stage_run _ _ _ _ _ _ _ _ TTS s0) as [[e1|[]] s1'] eqn:H1.
      { intros [= -> ->]. exists TTS, e, s0. split; [done|eauto]. }
      destruct (stage_run _ _ _ _ _ _ _ _ STT s1') as [[e2|[]] s2'] eqn:H2.
      { intros [= -> ->]. exists STT, e, s1'. split; [|eauto].
        cbn [earlier run_stages]. unfold mbind, M_bind, bind, ret.
        fold s0. by rewrite H1. }
      destruct (stage_run _ _ _ _ _ _ _ _ Chatbase s2') as [[e3|[]] s3'] eqn:H3.
      { intros [= -> ->]. exists Chatbase, e, s2'. split; [|eauto].
        cbn [earlier run_stages]. unfold mbind, M_bind, bind, ret.
        fold s0. by rewrite H1, H2. }
      destruct (stage_run _ _ _ _ _ _ _ _ Eval s3') as [[e4|[]] s4'] eqn:H4.
      { intros [= -> ->]. exists Eval, e, s3'. split; [|eauto].
        cbn [earlier run_stages]. unfold mbind, M_bind, bind, ret.
        fold s0. by rewrite H1, H2, H3. }
      done.
  - eexists _, _. split; [reflexivity|]. split.
    + intros k msg s Hfail.
      apply fails_at_run in Hfail as (s' & _ & Hall).
      fold s0 in Hall. by rewrite Hrun in Hall.
    + apply run_stages_touches in Hrun as (_ & _).
      by destruct (result s1).
Qed.

(** C4, when the chatbot fails on the third stage. *)
Lemma process_item_never_raises_witness :
  ∃ r clock',
    process_item audio_pipeline env_chatbase_down 3 "What is a gnu?"
      "An antelope" None "google" "zh-TW" 1000 = (Returned r, clock')
    ∧ status r = "error"
    ∧ error_msg r = Some "Chatbase API returned an error: 500"
    ∧ latency Chatbase r = 0%Z ∧ latency Eval r = 0%Z
    ∧ latency TTS r = 3%Z ∧ latency STT r = 5%Z.
Proof.
  destruct (process_item_never_raises audio_pipeline env_chatbase_down 3
              "What is a gnu?" "An antelope" None "google" "zh-TW" 1000)
    as (r & clock' & Hr & Hfail & _).
  pose (s := snd (run_stages audio_pipeline env_chatbase_down 3
                    "What is a gnu?" "An antelope" None "google" "zh-TW"
                    (earlier Chatbase)
                    (Frame 1000 (new_PipelineResult 3 "What is a gnu?"
                                   "An antelope")))).
  destruct (Hfail Chatbase "Chatbase API returned an error: 500" s)
    as (Hstatus & Hmsg & Hlater & Hearlier).
  { split; [reflexivity|].
    exists (snd (stage_run audio_pipeline env_chatbase_down 3 "What is a gnu?"
                   "An antelope" None "google" "zh-TW" Chatbase s)).
    reflexivity. }
  exists r, clock'. split; [exact Hr|]. split; [exact Hstatus|].
  split; [exact Hmsg|].
  split; [apply Hlater; cbn; repeat constructor|].
  split; [apply Hlater; cbn; repeat constructor|].
  split; [rewrite Hearlier by (cbn; repeat constructor); reflexivity|].
  rewrite Hearlier by (cbn; repeat constructor); reflexivity.
Defined.

(** The four failure points, one by one. *)
Example process_item_tts_fails :
  fst (process_item audio_pipeline env_tts_down 1 "What is a lion?"
         "A large cat" None "google" "zh-TW" 1000)
  = Returned
      {| id := 1; question := "What is a lion?"; reference_answer := "A large cat";
         audio_path := None; tts_latency := 0;
         stt_text := EmptyString; stt_latency := 0;
         ai_answer := EmptyString; chatbase_latency := 0;
         score := 0; reason := EmptyString; eval_latency := 0;
         total_latency := 3; status := "error";
         error_msg := Some "synthesis canceled" |}.
Proof. reflexivity. Qed.

Example process_item_stt_fails :
  fst (process_item audio_pipeline env_stt_down 1 "What is a lion?"
         "A large cat" None "google" "zh-TW" 1000)
  = Returned
      {| id := 1; question := "What is a lion?"; reference_answer := "A large cat";
         audio_path := Some "https://storage/audio/q1_01234567.wav";
         tts_latency := 0;
         stt_text := EmptyString; stt_latency := 0;
         ai_answer := EmptyString; chatbase_latency := 0;
         score := 0; reason := EmptyString; eval_latency := 0;
         total_latency := 7; status := "error";
         error_msg := Some "No transcription results returned" |}.
Proof. reflexivity. Qed.

Example process_item_chatbase_fails :
  fst (process_item audio_pipeline env_chatbase_down 1 "What is a lion?"
         "A large cat" None "google" "zh-TW" 1000)
  = Returned
      {| id := 1; question := "What is a lion?"; reference_answer := "A large cat";
         audio_path := Some "audio/q1_01234567.wav"; tts_latency := 3;
         stt_text := "what is a lion"; stt_latency := 5;
         ai_answer := EmptyString; chatbase_latency := 0;
         score := 0; reason := EmptyString; eval_latency := 0;
         total_latency := 19; status := "error";
         error_msg := Some "Chatbase API returned an error: 500" |}.
Proof. reflexivity. Qed.

(** When the judge cannot be reached, the judgment has no score and the
    fourth stage fails on reading it. *)
Example process_item_eval_fails :
  fst (process_item audio_pipeline (env_with judge_unreachable) 1
         "What is a lion?" "A large cat" None "google" "zh-TW" 1000)
  = Returned
      {| id := 1; question := "What is a lion?"; reference_answer := "A large cat";
         audio_path := Some "audio/q1_01234567.wav"; tts_latency := 3;
         stt_text := "what is a lion"; stt_latency := 5;
         ai_answer := "A big cat"; chatbase_latency := 11;
         score := 0; reason := EmptyString; eval_latency := 0;
         total_latency := 26; status := "error";
         error_msg := Some "'score'" |}.
Proof. reflexivity. Qed.

Example process_item_succeeds :
  fst (process_item audio_pipeline (env_ok 80) 1 "What is a lion?"
         "A large cat" None "google" "zh-TW" 1000)
  = Returned
      {| id := 1; question := "What is a lion?"; reference_answer := "A large cat";
         audio_path := Some "audio/q1_01234567.wav"; tts_latency := 3;
         stt_text := "what is a lion"; stt_latency := 5;
         ai_answer := "A big cat"; chatbase_latency := 11;
         score := 80; reason := "graded"; eval_latency := 7;
         total_latency := 26; status := "success"; error_msg := None |}.
Proof. reflexivity. Qed.

(** C10. The result of [process_item] is never left pending: its status
    is ["success"] or ["error"]; the total latency is set to the time
    between the two readings of the clock, which is not negative; and an
    error message is present only when the status is ["error"]. *)
Theorem process_item_result_invariant
    (self : ProcessingPipeline) (env : Collaborators) (item_id : Z)
    (q ref : string) (phrase_hints : option (list string))
    (stt_provider language_code : string) (clock : Z) :
  ∃ r clock',
    process_item self env item_id q ref phrase_hints stt_provider
      language_code clock = (Returned r, clock')
    ∧ (status r = "success" ∨ status r = "error")
    ∧ status r ≠ "pending"
    ∧ total_latency r = (clock' - clock)%Z
    ∧ (0 ≤ total_latency r)%Z
    ∧ (error_msg r ≠ None → status r = "error").
Proof.
  rewrite process_item_unfold, process_item_try_stages.
  set (s0 := Frame clock (new_PipelineResult item_id q ref)).
  destruct (run_stages _ _ _ _ _ _ _ _ _ s0) as [[e|[]] s1] eqn:Hrun;
    apply run_stages_touches in Hrun as (Hnow & _ & _ & Herr & _ & _);
    cbn in Hnow, Herr; eexists _, _; (split; [reflexivity|]);
    destruct (result s1); cbn in *.
  - split; [by right|]. split; [done|]. split; [done|]. split; [lia|]. done.
  - split; [by left|]. split; [done|]. split; [done|]. split; [lia|].
    intros Hmsg. by rewrite Herr in Hmsg.
Qed.

(** C3, as amended. For an item with an empty reference answer, if the
    first three stages complete then [process_item] returns a result with
    status ["success"], score 0, no error message, and the reason
    ["No reference answer provided"], with a capital N. *)
Theorem process_item_without_reference
    (self : ProcessingPipeline) (env : Collaborators) (item_id : Z)
    (q : string) (phrase_hints : option (list string))
    (stt_provider language_code : string) (clock : Z) (s : frame) :
  run_stages self env item_id q EmptyString phrase_hints stt_provider
    language_code (earlier Eval)
    (Frame clock (new_PipelineResult item_id q EmptyString))
  = (Returned tt, s) →
  ∃ r clock',
    process_item self env item_id q EmptyString phrase_hints stt_provider
      language_code clock = (Returned r, clock')
    ∧ status r = "success"
    ∧ score r = 0%Z
    ∧ reason r = "No reference answer provided"
    ∧ error_msg r = None.
Proof.
  intros Hbefore.
  rewrite process_item_unfold, process_item_try_stages.
  rewrite (all_stages_split Eval), run_stages_app, Hbefore.
  apply run_stages_touches in Hbefore as (_ & _ & _ & Herr & _ & Hscore).
  destruct Hscore as [Hscore _];
    [apply from_stage_not_earlier; cbn; repeat constructor|].
  cbn in Herr, Hscore. cbn [from_stage]. rewrite run_stages_singleton.
  cbn [stage_run]. unfold stage_eval. unfold_monad. cbn.
  eexists _, _. split; [reflexivity|].
  destruct (result s); cbn in *. by repeat split.
Qed.

(** C3 as amended, on collaborators that all work. *)
Lemma process_item_without_reference_witness :
  ∃ r clock',
    process_item audio_pipeline (env_ok 80) 1 "What is a lion?" EmptyString
      None "google" "zh-TW" 1000 = (Returned r, clock')
    ∧ status r = "success" ∧ score r = 0%Z
    ∧ reason r = "No reference answer provided" ∧ error_msg r = None.
Proof.
  apply (process_item_without_reference audio_pipeline (env_ok 80) 1
           "What is a lion?" None "google" "zh-TW" 1000
           (snd (run_stages audio_pipeline (env_ok 80) 1 "What is a lion?"
                   EmptyString None "google" "zh-TW" (earlier Eval)
                   (Frame 1000 (new_PipelineResult 1 "What is a lion?"
                                  EmptyString))))).
  reflexivity.
Defined.

(** C3 as stated fails: on collaborators that all work, an item without
    a reference answer gets a reason that is not the all-lower-case
    string. *)
Lemma process_item_without_reference_counterexample :
  ∃ r,
    fst (process_item audio_pipeline (env_ok 80) 1 "What is a lion?"
           EmptyString None "google" "zh-TW" 1000) = Returned r
    ∧ status r = "success" ∧ score r = 0%Z
    ∧ reason r = "No reference answer provided"
    ∧ reason r ≠ "no reference answer provided".
Proof.
  exists (set_total_latency 19
            (set_status "success"
               (set_eval_latency 0
                  (set_reason "No reference answer provided"
                     (set_chatbase_latency 11
                        (set_ai_answer "A big cat"
                           (set_stt_latency 5
                              (set_stt_text "what is a lion"
                                 (set_audio_path (Some "audio/q1_01234567.wav")
                                    (set_tts_latency 3
                                       (new_PipelineResult 1 "What is a lion?"
                                          EmptyString))))))))))).
  split; [vm_compute; reflexivity|]. by repeat split.
Qed.


(** ** server.py *)

(** [process_item] returns a result for the item it was given. *)
Lemma process_item_returns self env item_id q ref phrase_hints stt_provider
    language_code clock :
  ∃ r clock',
    process_item self env item_id q ref phrase_hints stt_provider
      language_code clock = (Returned r, clock')
    ∧ id r = item_id.
Proof.
  rewrite process_item_unfold, process_item_try_stages.
  destruct (run_stages _ _ _ _ _ _ _ _ _ _) as [[e|[]] s1] eqn:Hrun;
    apply run_stages_touches in Hrun as (_ & _ & _ & _ & Hid & _);
    cbn in Hid; eexists _, _; (split; [reflexivity|]);
    by destruct (result s1).
Qed.

Section streaming.
Variables (g : ServerGlobals) (ws : WebSocket).
Hypothesis connected : ∀ n, send_json ws n = Returned tt.

(** One turn of the loop, for an item that has its three keys and a
    consumer that stays connected: one update message for this item is
    delivered, and nothing else. *)
Lemma loop_body_delivers total env c it s :
  well_formed it →
  ∃ res s',
    loop_body g ws total env c it s = (Returned (update_stats c res), s')
    ∧ delivered s'
      = (delivered s ++ [update_message res (update_stats c res) total])%list
    ∧ current_results s' = (current_results s ++ [res])%list
    ∧ Some (id res) = item_id it.
Proof.
  destruct it as [[i|] [q|] [ref|]]; intros (Hi & Hq & Hr);
    try (by destruct Hi); try (by destruct Hq); try (by destruct Hr).
  unfold loop_body, item_get, run_pipeline, append_result, send.
  unfold_monad. cbn.
  destruct (process_item_returns (pipeline g) env i q ref
              (Some (current_phrase_hints g)) (current_stt_provider g)
              (if String.eqb (current_stt_provider g) "openai"
               then "en-US" else "zh-TW") (clock s))
    as (res & clock' & -> & Hid).
  cbn. rewrite connected. exists res. eexists. split; [reflexivity|].
  cbn. by rewrite Hid.
Qed.

(** The whole loop: one update per item, in the order of the items. *)
Lemma loop_delivers total envs k items c s :
  Forall well_formed items →
  ∃ c' s' updates,
    loop g ws total envs k items c s = (Returned c', s')
    ∧ delivered s' = (delivered s ++ updates)%list
    ∧ length updates = length items
    ∧ Forall (λ m, msg_type m = "update") updates
    ∧ Some <$> update_ids updates = item_id <$> items
    ∧ length (current_results s')
      = (length (current_results s) + length items)%nat.
Proof.
  intros Hitems. revert k c s.
  induction Hitems as [|it items Hit _ IH]; intros k c s.
  - exists c, s, []. cbn. rewrite app_nil_r. repeat split; [constructor|lia].
  - destruct (loop_body_delivers total (envs k) c it s Hit)
      as (res & s1 & Hbody & Hdel & Hres & Hid).
    destruct (IH (S k) (update_stats c res) s1)
      as (c' & s' & updates & Hloop & Hdel' & Hlen & Htypes & Hids & Hres').
    exists c', s', (update_message res (update_stats c res) total :: updates).
    split.
    { cbn [loop]. unfold mbind, M_bind, bind. by rewrite Hbody. }
    split; [by rewrite Hdel', Hdel, <- app_assoc|].
    split; [cbn; by rewrite Hlen|].
    split; [by constructor|].
    split.
    { change (Some (id res) :: (Some <$> update_ids updates)
              = item_id it :: (item_id <$> items)).
      by rewrite Hids, Hid. }
    rewrite Hres', Hres, length_app. cbn. lia.
Qed.
End streaming.

(** C7. When the consumer sends a non-empty list of items that have their
    three keys and stays connected, the endpoint returns after it has
    delivered exactly one message of type ["update"] per item, in the
    order of the items, followed by one message of type ["complete"], and
    nothing else. *)
Theorem websocket_endpoint_streams
    (g : ServerGlobals) (ws : WebSocket) (envs : nat → Collaborators)
    (items : list item) (s : ServerState) :
  receive_json ws = Received (Some items) →
  items ≠ [] →
  Forall well_formed items →
  (∀ n, send_json ws n = Returned tt) →
  ∃ s' updates,
    websocket_endpoint g ws envs s = (Returned tt, s')
    ∧ delivered s' = (delivered s ++ updates ++ [MsgComplete])%list
    ∧ length updates = length items
    ∧ Forall (λ m, msg_type m = "update") updates
    ∧ Some <$> update_ids updates = item_id <$> items.
Proof.
  intros Hrecv Hne Hitems Hsend.
  unfold websocket_endpoint, endpoint_try. rewrite Hrecv.
  change (default [] (Some items)) with items.
  destruct items as [|it items]; [done|].
  destruct (loop_delivers g ws Hsend (length (it :: items)) envs 0
              (it :: items)
              {| c_processed := 0; c_total_score := 0; c_total_latency := 0 |}
              s Hitems)
    as (c' & s1 & updates & Hloop & Hdel & Hlen & Htypes & Hids & _).
  unfold mbind, M_bind, bind. rewrite Hloop. unfold send. rewrite Hsend.
  eexists _, updates. split; [reflexivity|]. cbn.
  split; [by rewrite Hdel, <- app_assoc|]. done.
Qed.

(** C7, on three items of which the third fails in the pipeline. *)
Lemma websocket_endpoint_streams_witness :
  ∃ s' updates,
    websocket_endpoint globals (ws_sending three_items) envs_80_100_error idle
    = (Returned tt, s')
    ∧ delivered s' = (updates ++ [MsgComplete])%list
    ∧ length updates = 3
    ∧ Some <$> update_ids updates = [Some 1; Some 2; Some 3]%Z.
Proof.
  destruct (websocket_endpoint_streams globals (ws_sending three_items)
              envs_80_100_error three_items idle)
    as (s' & updates & Hrun & Hdel & Hlen & _ & Hids).
  - reflexivity.
  - done.
  - repeat constructor; eauto.
  - intros n. reflexivity.
  - exists s', updates. split; [exact Hrun|]. split; [exact Hdel|].
    split; [exact Hlen | exact Hids].
Defined.

(** C2, on the run of the specification: the first item is graded 80, the
    second 100 and the third fails. The average score sent with the third
    update is 180 / 3 = 60, not the mean 90 of the two successful items,
    and the average latency is the latency of the two successful items
    divided by 3: the sums skip the failed item, the divisor counts it. *)
Theorem websocket_endpoint_average_counts_failed_items :
  ∃ st1 st2 st3,
    delivered_stats
      (snd (websocket_endpoint globals (ws_sending three_items)
              envs_80_100_error idle))
    = [st1; st2; st3]
    ∧ (avg_score st1 == 80)%Q
    ∧ (avg_score st2 == 90)%Q
    ∧ (avg_score st3 == 60)%Q
    ∧ ¬ (avg_score st3 == 90)%Q
    ∧ (avg_latency st2 == 26)%Q
    ∧ (avg_latency st3 == 52 # 3)%Q
    ∧ processed st3 = 3.
Proof.
  set (stats := delivered_stats _). vm_compute in stats. subst stats.
  eexists _, _, _. split; [reflexivity|]. cbn. by repeat split.
Qed.

(** When every item fails, the sums are 0 and so are the averages. *)
Example websocket_endpoint_average_all_failed :
  avg_score <$> delivered_stats
      (snd (websocket_endpoint globals (ws_sending three_items)
              (λ _, env_chatbase_down) idle))
  = [0 # 1; 0 # 2; 0 # 3]%Q.
Proof. vm_compute. reflexivity. Qed.

(** The guard of the quotient: no update has been counted. *)
Example average_of_nothing x : average x 0 = 0%Q.
Proof. reflexivity. Qed.


(** ** More about the edit distance *)

Section levenshtein_metric.
Context {A : Type} `{EqDecision A}.
Local Open Scope list_scope.
Implicit Types (a b c : list A) (x y z : A).

Lemma ne_int_le_1 x y : ne_int x y ≤ 1.
Proof. unfold ne_int. case_decide; lia. Qed.

Lemma ne_int_triangle x y z : ne_int x z ≤ ne_int x y + ne_int y z.
Proof. unfold ne_int. repeat case_decide; try lia. congruence. Qed.

(** An edit script from [y :: b] to [c] after a script that ends in
    [y :: b]: the three ways the first script can treat [y]. *)
Lemma edit_after_ins a y b n :
  (∀ c m, edit b c m → ∃ k, k ≤ n + m ∧ edit a c k) →
  ∀ c m, edit (y :: b) c m → ∃ k, k ≤ S n + m ∧ edit a c k.
Proof.
  intros IH c m Hbc. remember (y :: b) as yb eqn:Hyb.
  induction Hbc as [|x' a' b' n' Hbc _|y' a' b' n' Hbc IHin|x' y' a' b' n' Hbc _].
  - done.
  - injection Hyb as -> ->.
    destruct (IH b' n' Hbc) as (k & Hk & Hedit). exists k. split; [lia|done].
  - destruct (IHin Hyb) as (k & Hk & Hedit).
    exists (S k). split; [lia | by apply edit_ins].
  - injection Hyb as -> ->.
    destruct (IH b' n' Hbc) as (k & Hk & Hedit).
    exists (S k). split; [lia | by apply edit_ins].
Qed.

Lemma edit_after_sub a x y b n :
  (∀ c m, edit b c m → ∃ k, k ≤ n + m ∧ edit a c k) →
  ∀ c m, edit (y :: b) c m →
         ∃ k, k ≤ n + ne_int x y + m ∧ edit (x :: a) c k.
Proof.
  intros IH c m Hbc. remember (y :: b) as yb eqn:Hyb.
  induction Hbc as [|x' a' b' n' Hbc _|y' a' b' n' Hbc IHin|x' y' a' b' n' Hbc _].
  - done.
  - injection Hyb as -> ->.
    destruct (IH b' n' Hbc) as (k & Hk & Hedit).
    exists (S k). split; [lia | by apply edit_del].
  - destruct (IHin Hyb) as (k & Hk & Hedit).
    exists (S k). split; [lia | by apply edit_ins].
  - injection Hyb as -> ->.
    destruct (IH b' n' Hbc) as (k & Hk & Hedit).
    exists (k + ne_int x y'). split; [|by apply edit_sub].
    pose proof (ne_int_triangle x y y'). lia.
Qed.

(** Edit scripts compose, at no more than the sum of their costs. *)
Lemma edit_trans a b n :
  edit a b n → ∀ c m, edit b c m → ∃ k, k ≤ n + m ∧ edit a c k.
Proof.
  induction 1 as [|x a b n _ IH|y a b n _ IH|x y a b n _ IH].
  - intros c m Hc. exists m. split; [lia|done].
  - intros c m Hc. destruct (IH c m Hc) as (k & Hk & Hedit).
    exists (S k). split; [lia | by apply edit_del].
  - by apply edit_after_ins.
  - by apply edit_after_sub.
Qed.

Lemma lev_triangle a b c : lev a c ≤ lev a b + lev b c.
Proof.
  destruct (edit_trans a b (lev a b) (edit_lev a b) c (lev b c) (edit_lev b c))
    as (k & Hk & Hedit).
  apply lev_le_edit in Hedit. lia.
Qed.

(** An edit script changes the length by no more than its cost. *)
Lemma edit_length a b n :
  edit a b n → length a ≤ length b + n ∧ length b ≤ length a + n.
Proof. induction 1; simpl; lia. Qed.

Lemma lev_le_max a b : lev a b ≤ length a `max` length b.
Proof.
  revert b. induction a as [|x a IH]; intros b; [simpl; lia|].
  destruct b as [|y b]; [rewrite lev_nil_r; simpl; lia|].
  rewrite lev_cons.
  pose proof (min3_le (lev (x :: a) b + 1) (lev a (y :: b) + 1)
                (lev a b + ne_int x y)) as (_ & _ & Hsub).
  specialize (IH b). pose proof (ne_int_le_1 x y). cbn [length]. lia.
Qed.

(** X1. The number [_levenshtein_distance] returns is a distance: it is
    0 exactly for equal sequences, and going from [a] to [c] directly
    never costs more than going through a third sequence [b]. *)
Theorem levenshtein_distance_metric a b c :
  ∃ dab dbc dac,
    _levenshtein_distance a b = Some dab
    ∧ _levenshtein_distance b c = Some dbc
    ∧ _levenshtein_distance a c = Some dac
    ∧ dac ≤ dab + dbc
    ∧ (dab = 0 ↔ a = b).
Proof.
  exists (lev a b), (lev b c), (lev a c).
  rewrite !levenshtein_distance_lev.
  repeat split; try done; [apply lev_triangle | apply lev_zero | apply lev_zero].
Qed.

(** X2. The distance lies between the difference of the two lengths
    and the larger of the two lengths. *)
Theorem levenshtein_distance_bounds a b :
  ∃ d, _levenshtein_distance a b = Some d
       ∧ length a - length b ≤ d
       ∧ length b - length a ≤ d
       ∧ d ≤ length a `max` length b.
Proof.
  exists (lev a b). rewrite levenshtein_distance_lev.
  pose proof (edit_length a b (lev a b) (edit_lev a b)).
  pose proof (lev_le_max a b). repeat split; lia.
Qed.
End levenshtein_metric.


(** ** More about [cer], [wer] and the keyword matcher *)

Lemma quotient_le_one (x y : nat) :
  y ≠ 0 → x ≤ y → (inject_Z (Z.of_nat x) / inject_Z (Z.of_nat y) <= 1)%Q.
Proof.
  intros Hy Hle. destruct y as [|y]; [done|].
  unfold Qdiv, Qinv, Qmult, Qle, inject_Z. simpl. lia.
Qed.

Lemma quotient_nonneg (x y : nat) :
  y ≠ 0 → (0 <= inject_Z (Z.of_nat x) / inject_Z (Z.of_nat y))%Q.
Proof.
  intros Hy. destruct y as [|y]; [done|].
  unfold Qdiv, Qinv, Qmult, Qle, inject_Z. simpl. lia.
Qed.

(** On a non-empty list of reference words [wer] divides the Levenshtein
    distance of the word lists by the number of reference words. *)
Lemma wer_nonempty (ref hyp : string) :
  split_ws ref ≠ [] →
  wer ref hyp
  = Some (inject_Z (Z.of_nat (lev (split_ws ref) (split_ws hyp)))
          / inject_Z (Z.of_nat (length (split_ws ref))))%Q.
Proof.
  intros Hne. unfold wer. destruct (split_ws ref) as [|w ws] eqn:Hws; [done|].
  rewrite levenshtein_distance_lev. cbn [mbind option_bind].
  by rewrite truediv_is_Some.
Qed.

(** X3. [wer] compares the lists of words and nothing else: it is 0
    exactly when reference and hypothesis split into the same words,
    whatever white space separates them. *)
Theorem wer_zero_iff_same_words (ref hyp : string) :
  ∃ q, wer ref hyp = Some q
       ∧ ((q == 0)%Q ↔ split_ws ref = split_ws hyp).
Proof.
  destruct (split_ws ref) as [|w ws] eqn:Href.
  - unfold wer. rewrite Href. destruct (split_ws hyp) as [|w' ws'].
    + by exists 0%Q.
    + exists 1%Q. split; [done|]. split; [|done]. unfold Qeq. simpl. lia.
  - eexists. split; [apply wer_nonempty; by rewrite Href|].
    rewrite Href, quotient_zero by done. apply lev_zero.
Qed.

(** X4. Rates are never negative, and a rate above 1 needs a hypothesis
    that is longer than the reference: with no more characters (words)
    in the hypothesis than in the reference, [cer] ([wer]) is at most 1. *)
Theorem cer_wer_range (ref hyp : string) :
  ∃ c w,
    cer ref hyp = Some c ∧ wer ref hyp = Some w
    ∧ (0 <= c)%Q ∧ (0 <= w)%Q
    ∧ (String.length hyp ≤ String.length ref → (c <= 1)%Q)
    ∧ (length (split_ws hyp) ≤ length (split_ws ref) → (w <= 1)%Q).
Proof.
  assert (Hc : ∃ c, cer ref hyp = Some c ∧ (0 <= c)%Q
                    ∧ (String.length hyp ≤ String.length ref → (c <= 1)%Q)).
  { destruct ref as [|a ref].
    - destruct hyp as [|b hyp]; [by exists 0%Q|]. exists 1%Q. by repeat split.
    - eexists. split; [by apply cer_nonempty|].
      split; [by apply quotient_nonneg|]. intros Hlen.
      apply quotient_le_one; [done|].
      pose proof (lev_le_max (list_ascii_of_string (String a ref))
                    (list_ascii_of_string hyp)) as Hmax.
      rewrite !length_list_ascii_of_string in Hmax.
      by rewrite Nat.max_l in Hmax. }
  assert (Hw : ∃ w, wer ref hyp = Some w ∧ (0 <= w)%Q
                    ∧ (length (split_ws hyp) ≤ length (split_ws ref) → (w <= 1)%Q)).
  { destruct (split_ws ref) as [|x xs] eqn:Href.
    - unfold wer. rewrite Href.
      destruct (split_ws hyp) as [|y ys]; [by exists 0%Q|].
      exists 1%Q. by repeat split.
    - eexists. split; [apply wer_nonempty; by rewrite Href|]. rewrite Href.
      split; [by apply quotient_nonneg|]. intros Hlen.
      apply quotient_le_one; [done|].
      pose proof (lev_le_max (x :: xs) (split_ws hyp)) as Hmax.
      by rewrite Nat.max_l in Hmax. }
  destruct Hc as (c & Hc & Hc0 & Hc1), Hw as (w & Hw & Hw0 & Hw1).
  exists c, w. by repeat split.
Qed.

(** X4, on a hypothesis shorter than the reference. *)
Lemma cer_wer_range_witness :
  ∃ c w, cer "the lion" "a lion" = Some c ∧ wer "the lion" "a lion" = Some w
         ∧ (c <= 1)%Q ∧ (w <= 1)%Q.
Proof.
  destruct (cer_wer_range "the lion" "a lion")
    as (c & w & Hc & Hw & _ & _ & Hc1 & Hw1).
  exists c, w. split; [exact Hc|]. split; [exact Hw|].
  split; [apply Hc1; vm_compute; lia | apply Hw1; vm_compute; lia].
Defined.

Lemma strip_empty : strip EmptyString = EmptyString.
Proof. reflexivity. Qed.

(** X5. A comma-separated string and the list of its pieces are the same
    keyword specification. *)
Theorem check_answer_with_keywords_str_iter (answer s : string) :
  check_answer_with_keywords answer (KeywordsStr s)
  = check_answer_with_keywords answer (KeywordsIter (split_on "," s)).
Proof.
  unfold check_answer_with_keywords, keyword_items.
  replace (List.filter (λ item, truthy item && truthy (strip item)) (split_on "," s))
    with (List.filter (λ item, truthy (strip item)) (split_on "," s)); [done|].
  apply filter_ext. intros [|c item]; [done|]. reflexivity.
Qed.


Lemma string_app_assoc (s t u : string) : (s ++ t) ++ u = s ++ t ++ u.
Proof.
  induction s as [|c s IH]; [done|].
  change (String c ((s ++ t) ++ u) = String c (s ++ t ++ u)). by rewrite IH.
Qed.





(** ** text_utils.py: [normalize_text] *)

Lemma lower_char_idemp c : lower_char (lower_char c) = lower_char c.
Proof. destruct c as [[] [] [] [] [] [] [] []]; reflexivity. Qed.

Lemma isspace_lower_char c : isspace (lower_char c) = isspace c.
Proof. destruct c as [[] [] [] [] [] [] [] []]; reflexivity. Qed.

Lemma lower_char_space c : isspace c = true → lower_char c = c.
Proof. destruct c as [[] [] [] [] [] [] [] []]; (reflexivity || discriminate). Qed.

Lemma lower_idemp s : lower (lower s) = lower s.
Proof. induction s as [|c s IH]; simpl; [done|]. by rewrite lower_char_idemp, IH. Qed.

(** Lower-casing and the collapse of white space do not get in each
    other's way. *)
Lemma lower_sub_whitespace b s :
  lower (sub_whitespace b s) = sub_whitespace b (lower s).
Proof.
  revert b. induction s as [|c s IH]; intros b; simpl; [done|].
  rewrite isspace_lower_char. destruct (isspace c) eqn:Hc.
  - destruct b; simpl; by rewrite IH.
  - simpl. by rewrite IH.
Qed.

Lemma rstrip_cons c s :
  rstrip (String c s)
  = if isspace c && negb (truthy (rstrip s)) then EmptyString
    else String c (rstrip s).
Proof. reflexivity. Qed.

Lemma rstrip_idemp s : rstrip (rstrip s) = rstrip s.
Proof.
  induction s as [|c s IH]; [done|]. rewrite rstrip_cons.
  destruct (isspace c && negb (truthy (rstrip s))) eqn:Hc; [done|].
  by rewrite rstrip_cons, IH, Hc.
Qed.

(** What [strip] returns has white space at neither end. *)
Lemma lstrip_strip s : lstrip (strip s) = strip s.
Proof.
  unfold strip. induction s as [|c s IH]; [done|]. simpl lstrip.
  destruct (isspace c) eqn:Hc; [done|].
  rewrite rstrip_cons, Hc. simpl. by rewrite Hc.
Qed.

Lemma rstrip_strip s : rstrip (strip s) = strip s.
Proof. unfold strip. apply rstrip_idemp. Qed.

Lemma strip_idemp s : strip (strip s) = strip s.
Proof. unfold strip at 1. by rewrite lstrip_strip, rstrip_strip. Qed.

Lemma rstrip_lower s : rstrip (lower s) = lower (rstrip s).
Proof.
  induction s as [|c s IH]; [done|]. simpl lower. rewrite !rstrip_cons, IH.
  rewrite isspace_lower_char.
  replace (truthy (lower (rstrip s))) with (truthy (rstrip s))
    by (by destruct (rstrip s)).
  by destruct (isspace c && negb (truthy (rstrip s))).
Qed.

(** The collapse of white space brings a string without trailing white
    space into shape; inside a run of white space the string must not
    end. *)
Lemma sub_whitespace_shape s :
  rstrip s = s →
  single_spaced false (sub_whitespace false s) = true
  ∧ (s ≠ EmptyString → single_spaced true (sub_whitespace true s) = true).
Proof.
  induction s as [|c s IH]; [done|]. rewrite rstrip_cons.
  destruct (isspace c) eqn:Hc; simpl andb.
  - destruct (truthy (rstrip s)) eqn:Ht; [|done]. simpl negb. cbv iota.
    intros [= Hs]. destruct (IH Hs) as [_ IHrun].
    assert (s ≠ EmptyString) as Hne by (intros ->; discriminate).
    simpl. rewrite Hc. simpl. rewrite (IHrun Hne). by split.
  - intros [= Hs]. destruct (IH Hs) as [IHword _].
    simpl. rewrite Hc. simpl. rewrite Hc. by split.
Qed.

(** A string of that shape is left alone by the collapse of white space
    and by [rstrip]. *)
Lemma single_spaced_fixed s :
  (single_spaced false s = true →
   sub_whitespace false s = s ∧ rstrip s = s)
  ∧ (single_spaced true s = true →
     (∀ b, sub_whitespace b s = s) ∧ rstrip s = s ∧ lstrip s = s
     ∧ s ≠ EmptyString).
Proof.
  induction s as [|c s [IHword IHdue]]; [by split|].
  simpl single_spaced. simpl sub_whitespace. simpl lstrip.
  rewrite rstrip_cons. destruct (isspace c) eqn:Hc.
  - split; [|by rewrite andb_false_r].
    rewrite andb_true_r. intros [Heq Hs]%andb_true_iff.
    apply Ascii.eqb_eq in Heq as ->.
    destruct (IHdue Hs) as (Hsub & Hr & _ & Hne).
    rewrite (Hsub true), Hr. split; [done|].
    by destruct s.
  - simpl andb. cbv iota. split.
    + intros Hs. destruct (IHword Hs) as [Hsub Hr]. by rewrite Hsub, Hr.
    + intros Hs. destruct (IHword Hs) as [Hsub Hr]. rewrite Hsub, Hr.
      repeat split; try done.
Qed.

(** The normal form: the empty string, or words separated by single
    spaces. *)
Lemma normalize_text_shape t :
  normalize_text (Some t) = EmptyString
  ∨ single_spaced true (normalize_text (Some t)) = true.
Proof.
  unfold normalize_text. destruct (truthy t); [|by left].
  pose proof (lstrip_strip t) as Hl. pose proof (rstrip_strip t) as Hr.
  destruct (strip t) as [|c v] eqn:Hv; [by left|]. right.
  simpl in Hl. destruct (isspace c) eqn:Hc.
  { exfalso.
    assert (String.length (lstrip v) ≤ String.length v) as Hlen.
    { clear. induction v as [|a v IH]; simpl; [lia|].
      destruct (isspace a); simpl; lia. }
    rewrite Hl in Hlen. simpl in Hlen. lia. }
  assert (rstrip (lower (String c v)) = lower (String c v)) as Hrl
    by (by rewrite rstrip_lower, Hr).
  destruct (sub_whitespace_shape _ Hrl) as [Hword _].
  simpl in Hword |- *. rewrite isspace_lower_char, Hc in Hword |- *.
  simpl in Hword |- *. by rewrite isspace_lower_char, Hc in Hword |- *.
Qed.

(** X7. [normalize_text] is idempotent, and its result is a fixed point
    of each of its three steps: it has no white space at either end, no
    capital letter that [lower] would change, and no white space other
    than single spaces between words. *)
Theorem normalize_text_idempotent (text : option string) :
  let n := normalize_text text in
  normalize_text (Some n) = n
  ∧ strip n = n ∧ lower n = n ∧ sub_whitespace false n = n.
Proof.
  cbv zeta. destruct text as [t|]; [|done].
  assert (Hlow : lower (normalize_text (Some t)) = normalize_text (Some t)).
  { unfold normalize_text. destruct (truthy t); [|done].
    by rewrite lower_sub_whitespace, lower_idemp. }
  destruct (normalize_text_shape t) as [->|Hshape]; [done|].
  destruct (proj2 (single_spaced_fixed _) Hshape) as (Hsub & Hr & Hl & Hne).
  assert (Hstrip : strip (normalize_text (Some t)) = normalize_text (Some t)).
  { unfold strip. by rewrite Hl, Hr. }
  split; [|by rewrite Hstrip, Hlow, (Hsub false)].
  unfold normalize_text at 1.
  destruct (normalize_text (Some t)) as [|c n] eqn:Hn; [done|].
  cbn [truthy]. by rewrite Hstrip, Hlow, (Hsub false).
Qed.


(** ** More about [evaluate_answer_with_llm] *)

(** The [try] block raises on nothing but the failures of the call. *)
Lemma evaluate_try_raises judge q ref answer exc :
  evaluate_try judge (gave (chat_completions_create judge q ref answer))
  = Raised exc →
  delegate_failure judge q ref answer exc.
Proof.
  unfold evaluate_try.
  destruct (gave (chat_completions_create judge q ref answer))
    as [e|content] eqn:Hc; simpl.
  - intros [= ->]. by apply failure_call.
  - destruct content as [[|a content]|]; simpl.
    + intros [= <-]. apply (failure_empty _ _ _ _ _ Hc). by right.
    + unfold mbind, outcome_bind.
      destruct (json_loads judge (String a content)) as [e|[o|type_name]] eqn:Hj.
      * intros [= ->]. by apply (failure_not_json _ _ _ _ _ _ Hc).
      * done.
      * simpl. intros [= <-]. by apply (failure_not_object _ _ _ _ _ _ Hc).
    + intros [= <-]. apply (failure_empty _ _ _ _ _ Hc). by left.
Qed.

Lemma evaluate_try_returns judge q ref answer res :
  evaluate_try judge (gave (chat_completions_create judge q ref answer))
  = Returned res →
  ∃ content o,
    gave (chat_completions_create judge q ref answer) = Returned (Some content)
    ∧ json_loads judge content = Returned (JsonObject o)
    ∧ res = {| eval_is_correct := Some (default false (eval_is_correct o));
               eval_score := Some (default 0%Z (eval_score o));
               eval_reason :=
                 Some (default "No reason provided" (eval_reason o)) |}.
Proof.
  unfold evaluate_try.
  destruct (gave (chat_completions_create judge q ref answer))
    as [e|content] eqn:Hc; simpl; [done|].
  destruct content as [[|a content]|]; simpl; [done| |done].
  unfold mbind, outcome_bind.
  destruct (json_loads judge (String a content)) as [e|[o|type_name]] eqn:Hj;
    [done| |done].
  simpl. intros [= <-]. by exists (String a content), o.
Qed.

(** X8. [evaluate_answer_with_llm] raises only when no client can be
    built. Every judgment it returns has the keys [is_correct] and
    [reason]; it says [is_correct: true] only when the model answered
    with a JSON object that says so; and the key [score] is missing
    exactly when the call to the model failed. *)
Theorem evaluate_answer_with_llm_verdict
    (judge : JudgeModel) (q ref answer : string) :
  (∀ exc, gave (evaluate_answer_with_llm judge q ref answer) = Raised exc
          ↔ get_openai_client judge = Raised exc)
  ∧ (∀ res,
       gave (evaluate_answer_with_llm judge q ref answer) = Returned res →
       is_Some (eval_is_correct res)
       ∧ is_Some (eval_reason res)
       ∧ (eval_is_correct res = Some true →
          ∃ content o,
            gave (chat_completions_create judge q ref answer)
            = Returned (Some content)
            ∧ json_loads judge content = Returned (JsonObject o)
            ∧ eval_is_correct o = Some true)
       ∧ (eval_score res = None
          ↔ ∃ exc, delegate_failure judge q ref answer exc)).
Proof.
  unfold evaluate_answer_with_llm.
  destruct (get_openai_client judge) as [e|[]] eqn:Hclient.
  { split; [by split; intros [= ->]|]. done. }
  cbn [gave].
  destruct (evaluate_try judge _) as [e|res0] eqn:Htry.
  - split; [by split|]. intros res [= <-]. cbn.
    split; [eauto|]. split; [eauto|]. split; [done|].
    split; [|done]. intros _. exists e. by apply evaluate_try_raises.
  - split; [by split|]. intros res [= <-].
    destruct (evaluate_try_returns _ _ _ _ _ Htry) as (content & o & Hc & Hj & ->).
    cbn. split; [eauto|]. split; [eauto|]. split.
    + intros [= Ho]. exists content, o. split; [done|]. split; [done|].
      by destruct (eval_is_correct o) as [[]|].
    + split; [done|]. intros [exc Hfail].
      apply evaluate_try_failure in Hfail. by rewrite Htry in Hfail.
Qed.

(** X8, on a judge that returns a judgment. *)
Lemma evaluate_answer_with_llm_verdict_witness :
  ∃ res,
    gave (evaluate_answer_with_llm judge_unreachable "What is a lion?"
            "A large cat" "A big cat") = Returned res
    ∧ is_Some (eval_is_correct res) ∧ is_Some (eval_reason res).
Proof.
  eexists. split; [reflexivity|].
  destruct (proj2 (evaluate_answer_with_llm_verdict judge_unreachable
                     "What is a lion?" "A large cat" "A big cat") _ eq_refl)
    as (Hc & Hr & _).
  by split.
Defined.

(** A judgment that was returned has a reason. *)
Lemma evaluate_reason_present judge q ref answer res :
  gave (evaluate_answer_with_llm judge q ref answer) = Returned res →
  eval_reason res = None → False.
Proof.
  unfold evaluate_answer_with_llm.
  destruct (get_openai_client judge) as [e|[]]; [done|]. cbn [gave].
  destruct (evaluate_try judge _) as [e|res0] eqn:Htry.
  - by intros [= <-].
  - intros [= <-].
    by destruct (evaluate_try_returns _ _ _ _ _ Htry) as (? & ? & _ & _ & ->).
Qed.

(** So reading the reason of a judgment never fails. *)
Lemma evaluate_reason_getitem judge q ref answer res e :
  gave (evaluate_answer_with_llm judge q ref answer) = Returned res →
  getitem "reason" (eval_reason res) = Raised e → False.
Proof.
  intros Hres Hget. apply (evaluate_reason_present _ _ _ _ _ Hres).
  by destruct (eval_reason res).
Qed.


(** ** More about [process_item] *)

Section one_item_more.
Variables (self : ProcessingPipeline) (env : Collaborators).
Variables (item_id : Z) (q ref : string) (phrase_hints : option (list string)).
Variables (stt_provider language_code : string).

Local Abbreviation run_stage_of := (stage_run self env item_id q ref phrase_hints
                         stt_provider language_code).
Local Abbreviation run_all := (run_stages self env item_id q ref phrase_hints
                          stt_provider language_code).

(** A stage writes its own outputs only, and none when it raises; the
    question and the reference answer are never written. *)
Lemma stage_run_outputs k s o s' :
  run_stage_of k s = (o, s') →
  (∀ j, j ≠ k → outputs j (result s') = outputs j (result s))
  ∧ question (result s') = question (result s)
  ∧ reference_answer (result s') = reference_answer (result s)
  ∧ (∀ msg, o = Raised msg → outputs k (result s') = outputs k (result s)).
Proof.
  destruct s as [t r], r.
  destruct k; unfold stage_run, stage_tts, stage_stt, stage_chatbase,
    stage_eval; run_stage; intros [= <- <-]; cbn;
    (split; [by intros []|]; split; [done|]; split; [done|]; try done);
    exfalso; eapply evaluate_reason_getitem; eassumption.
Qed.

Lemma run_stages_outputs l s o s' :
  run_all l s = (o, s') →
  (∀ j, j ∉ l → outputs j (result s') = outputs j (result s))
  ∧ question (result s') = question (result s)
  ∧ reference_answer (result s') = reference_answer (result s).
Proof.
  revert s. induction l as [|k l IH]; intros s; cbn [run_stages].
  - by intros [= <- <-].
  - unfold mbind, M_bind, bind.
    destruct (run_stage_of k s) as [[e|[]] s1] eqn:Hk;
      apply stage_run_outputs in Hk as (Hout & Hq & Hr & _).
    + intros [= <- <-]. split; [|done]. intros j Hj.
      apply Hout. by apply not_elem_of_cons in Hj as [? _].
    + intros Hl. apply IH in Hl as (Hout' & Hq' & Hr').
      split; [|split; congruence]. intros j Hj.
      apply not_elem_of_cons in Hj as [Hjk Hj]. by rewrite Hout', Hout.
Qed.



Lemma sum_latency_ext l r r' :
  (∀ j, j ∈ l → latency j r = latency j r') →
  sum_latency l r = sum_latency l r'.
Proof.
  induction l as [|k l IH]; intros Hz; [done|]. cbn [sum_latency foldr].
  fold (sum_latency l r) (sum_latency l r'). rewrite IH, Hz; [done|constructor|].
  intros j Hj. apply Hz. by constructor.
Qed.

End one_item_more.


Lemma closed_fields t e st r :
  let r' := set_total_latency t (set_error_msg e (set_status st r)) in
  (∀ j, outputs j r' = outputs j r)
  ∧ question r' = question r
  ∧ reference_answer r' = reference_answer r
  ∧ total_latency r' = t.
Proof. destruct r. cbn. split; [by intros []|done]. Qed.

Lemma total_latency_set t r : total_latency (set_total_latency t r) = t.
Proof. by destruct r. Qed.

Lemma latency_set_total j t r : latency j (set_total_latency t r) = latency j r.
Proof. by destruct r, j. Qed.

Lemma latency_set_status j st r : latency j (set_status st r) = latency j r.
Proof. by destruct r, j. Qed.



(** X10. A result echoes the id, the question and the reference answer
    it was given. When stage [k] fails, whatever stage [k] and the later
    stages would have written is still at its default; in particular a
    result with status ["error"] has score 0 and an empty reason. *)
Theorem process_item_error_defaults
    (self : ProcessingPipeline) (env : Collaborators) (item_id : Z)
    (q ref : string) (phrase_hints : option (list string))
    (stt_provider language_code : string) (clock : Z) :
  ∃ r clock',
    process_item self env item_id q ref phrase_hints stt_provider
      language_code clock = (Returned r, clock')
    ∧ id r = item_id ∧ question r = q ∧ reference_answer r = ref
    ∧ (∀ k msg s,
         fails_at self env item_id q ref phrase_hints stt_provider
           language_code clock k msg s →
         ∀ j, j ∈ from_stage k →
              outputs j r = outputs j (new_PipelineResult item_id q ref))
    ∧ (status r = "error" → score r = 0%Z ∧ reason r = EmptyString).
Proof.
  destruct (process_item_returns self env item_id q ref phrase_hints
              stt_provider language_code clock) as (r0 & c0 & Hr0 & Hid).
  revert Hr0. rewrite process_item_unfold, process_item_try_stages.
  set (s0 := Frame clock (new_PipelineResult item_id q ref)).
  destruct (run_stages _ _ _ _ _ _ _ _ _ s0) as [[e|[]] s1] eqn:Hrun;
    intros [= <- <-]; eexists _, _; (split; [reflexivity|]);
    (split; [exact Hid|]);
    pose proof (run_stages_outputs _ _ _ _ _ _ _ _ _ _ _ _ Hrun) as (_ & Hq & Hr).
  - destruct (closed_fields (now s1 - clock) (Some e) "error" (result s1))
      as (Hout & Hq' & Hr' & _).
    split; [by rewrite Hq', Hq|]. split; [by rewrite Hr', Hr|].
    assert (Hfail : ∀ k msg s,
              fails_at self env item_id q ref phrase_hints stt_provider
                language_code clock k msg s →
              ∀ j, j ∈ from_stage k →
                   outputs j (result s1) = outputs j (result s0)).
    { intros k msg s Hfail j Hj. pose proof Hfail as [Hbefore _].
      apply fails_at_run in Hfail as (s' & Hk & Hall).
      fold s0 in Hall, Hbefore. rewrite Hrun in Hall. injection Hall as -> ->.
      apply run_stages_outputs in Hbefore as (Hearlier & _).
      apply stage_run_outputs in Hk as (Hothers & _ & _ & Hself).
      rewrite <- Hearlier by (by apply from_stage_not_earlier).
      destruct (decide (j = k)) as [->|Hjk];
        [by apply (Hself msg) | by apply Hothers]. }
    split.
    + intros k msg s Hk j Hj. rewrite Hout. by apply (Hfail k msg s).
    + intros _.
      assert (∃ k msg s,
                fails_at self env item_id q ref phrase_hints stt_provider
                  language_code clock k msg s) as (k & msg & s & Hk).
      { clear -Hrun. subst s0. revert Hrun.
        cbn [run_stages]. unfold mbind, M_bind, bind, ret.
        set (s0 := Frame clock (new_PipelineResult item_id q ref)).
        destruct (stage_run _ _ _ _ _ _ _ _ TTS s0) as [[e1|[]] s1'] eqn:H1.
        { intros [= -> ->]. exists TTS, e, s0. split; [done|eauto]. }
        destruct (stage_run _ _ _ _ _ _ _ _ STT s1') as [[e2|[]] s2'] eqn:H2.
        { intros [= -> ->]. exists STT, e, s1'. split; [|eauto].
          cbn [earlier run_stages]. unfold mbind, M_bind, bind, ret.
          fold s0. by rewrite H1. }
        destruct (stage_run _ _ _ _ _ _ _ _ Chatbase s2') as [[e3|[]] s3'] eqn:H3.
        { intros [= -> ->]. exists Chatbase, e, s2'. split; [|eauto].
          cbn [earlier run_stages]. unfold mbind, M_bind, bind, ret.
          fold s0. by rewrite H1, H2. }
        destruct (stage_run _ _ _ _ _ _ _ _ Eval s3') as [[e4|[]] s4'] eqn:H4.
        { intros [= -> ->]. exists Eval, e, s3'. split; [|eauto].
          cbn [earlier run_stages]. unfold mbind, M_bind, bind, ret.
          fold s0. by rewrite H1, H2, H3. }
        done. }
      assert (Eval ∈ from_stage k) as HEval by (destruct k; repeat constructor).
      pose proof (Hfail k msg s Hk Eval HEval) as Heval.
      specialize (Hout Eval). cbn in Hout, Heval.
      rewrite Heval in Hout. by injection Hout as -> ->.
  - destruct (closed_fields (now s1 - clock) None "success" (result s1))
      as (_ & _ & _ & _).
    assert (∀ t r, question (set_total_latency t (set_status "success" r))
                   = question r
                   ∧ reference_answer (set_total_latency t (set_status "success" r))
                     = reference_answer r
                   ∧ status (set_total_latency t (set_status "success" r))
                     = "success") as Hset by (by intros t []).
    destruct (Hset (now s1 - clock)%Z (result s1)) as (Hq' & Hr' & Hst).
    cbn [result now]. split; [by rewrite Hq', Hq|]. split; [by rewrite Hr', Hr|].
    split.
    + intros k msg s Hfail.
      apply fails_at_run in Hfail as (s' & _ & Hall).
      fold s0 in Hall. by rewrite Hrun in Hall.
    + by rewrite Hst.
Qed.


(** X10, when speech recognition fails after a successful upload. *)
Lemma process_item_error_defaults_witness :
  ∃ r clock',
    process_item audio_pipeline env_stt_down 1 "What is a lion?"
      "A large cat" None "google" "zh-TW" 1000 = (Returned r, clock')
    ∧ stt_text r = EmptyString ∧ ai_answer r = EmptyString
    ∧ score r = 0%Z ∧ reason r = EmptyString.
Proof.
  destruct (process_item_error_defaults audio_pipeline env_stt_down 1
              "What is a lion?" "A large cat" None "google" "zh-TW" 1000)
    as (r & clock' & Hr & _ & _ & _ & Hfail & _).
  pose (s := snd (run_stages audio_pipeline env_stt_down 1
                    "What is a lion?" "A large cat" None "google" "zh-TW"
                    (earlier STT)
                    (Frame 1000 (new_PipelineResult 1 "What is a lion?"
                                   "A large cat")))).
  assert (Hat : fails_at audio_pipeline env_stt_down 1 "What is a lion?"
                  "A large cat" None "google" "zh-TW" 1000 STT
                  "No transcription results returned" s).
  { split; [reflexivity|].
    exists (snd (stage_run audio_pipeline env_stt_down 1 "What is a lion?"
                   "A large cat" None "google" "zh-TW" STT s)).
    reflexivity. }
  pose proof (Hfail _ _ _ Hat STT ltac:(cbn; repeat constructor)) as H2.
  pose proof (Hfail _ _ _ Hat Chatbase ltac:(cbn; repeat constructor)) as H3.
  pose proof (Hfail _ _ _ Hat Eval ltac:(cbn; repeat constructor)) as H4.
  cbn in H2, H3, H4.
  exists r, clock'. split; [exact Hr|].
  injection H2 as H2. injection H3 as H3. injection H4 as H4 H4'.
  by rewrite H2, H3, H4, H4'.
Defined.

Section audio.
Variables (self : ProcessingPipeline) (env : Collaborators).
Variables (item_id : Z) (q ref : string) (phrase_hints : option (list string)).
Variables (stt_provider language_code : string) (clock : Z).

Let wav_filename := wav_filename_of env item_id q.
Let wav_path := path_join (output_dir self) wav_filename.

(** The audio path is written by the first stage and by nothing after. *)
Lemma process_item_audio_path_of_tts s1 :
  stage_run self env item_id q ref phrase_hints stt_provider language_code
    TTS (Frame clock (new_PipelineResult item_id q ref)) = (Returned tt, s1) →
  ∃ r clock',
    process_item self env item_id q ref phrase_hints stt_provider
      language_code clock = (Returned r, clock')
    ∧ audio_path r = audio_path (result s1).
Proof.
  intros Htts. rewrite process_item_unfold, process_item_try_stages.
  change [TTS; STT; Chatbase; Eval] with ([TTS] ++ [STT; Chatbase; Eval])%list.
  rewrite run_stages_app, run_stages_singleton, Htts.
  destruct (run_stages _ _ _ _ _ _ _ _ _ s1) as [o s2] eqn:Hrest.
  apply run_stages_outputs in Hrest as (Hout & _).
  specialize (Hout TTS ltac:(by apply (bool_decide_unpack _))).
  cbn in Hout. injection Hout as Hout.
  destruct o as [e|[]]; eexists _, _; (split; [reflexivity|]);
    cbn [result]; rewrite <- Hout; by destruct (result s2).
Qed.

(** X11. Once the audio is there (found in the cache or synthesised),
    a failing upload does not fail the item: the result then carries
    the local path, as it does when no bucket is configured, and the
    URL of the upload when the upload succeeds. *)
Theorem process_item_audio_path :
  wav_exists env wav_path = true
  ∨ gave (generate_tts_for_text env q wav_filename (output_dir self)
            language_code (tts_voice language_code)) = Returned tt →
  ∃ r clock',
    process_item self env item_id q ref phrase_hints stt_provider
      language_code clock = (Returned r, clock')
    ∧ audio_path r
      = Some match GCS_BUCKET_NAME env with
             | Some (String _ _ as gcs_bucket) =>
                 match gave (upload_file env gcs_bucket wav_path
                               ("audio/" ++ wav_filename)) with
                 | Returned public_url => public_url
                 | Raised _ => wav_path
                 end
             | _ => wav_path
             end.
Proof.
  intros Hready.
  assert (∃ s1,
            stage_run self env item_id q ref phrase_hints stt_provider
              language_code TTS
              (Frame clock (new_PipelineResult item_id q ref))
            = (Returned tt, s1)
            ∧ audio_path (result s1)
              = Some match GCS_BUCKET_NAME env with
                     | Some (String _ _ as gcs_bucket) =>
                         match gave (upload_file env gcs_bucket wav_path
                                       ("audio/" ++ wav_filename)) with
                         | Returned public_url => public_url
                         | Raised _ => wav_path
                         end
                     | _ => wav_path
                     end) as (s1 & Htts & Hpath).
  { unfold stage_run, stage_tts. fold wav_filename. fold wav_path.
    unfold_monad. cbn beta iota. unfold tts_voice in Hready.
    destruct (wav_exists env wav_path) eqn:Hex.
    - destruct (GCS_BUCKET_NAME env) as [[|c b]|]; cbn; [eauto| |eauto].
      destruct (gave (upload_file env (String c b) wav_path _));
        cbn; eauto.
    - destruct Hready as [|Hgen]; [done|]. rewrite Hgen. cbn.
      destruct (GCS_BUCKET_NAME env) as [[|c b]|]; cbn; [eauto| |eauto].
      destruct (gave (upload_file env (String c b) wav_path _));
        cbn; eauto. }
  destruct (process_item_audio_path_of_tts s1 Htts) as (r & clock' & Hr & Ha).
  exists r, clock'. split; [exact Hr | by rewrite Ha].
Qed.

(** X12. A question whose audio is cached is not synthesised again:
    with the file in place, [process_item] does the same whatever the
    speech synthesiser would do. *)
Theorem process_item_cached_audio
    (tts : string → string → string → string → option string → effect unit) :
  wav_exists env wav_path = true →
  process_item self (with_tts tts env) item_id q ref phrase_hints
    stt_provider language_code clock
  = process_item self env item_id q ref phrase_hints stt_provider
      language_code clock.
Proof.
  intros Hex. unfold process_item, process_item_body, process_item_try.
  unfold stage_tts, stage_stt, stage_chatbase, stage_eval.
  change (wav_filename_of (with_tts tts env) item_id q) with wav_filename.
  fold wav_filename. fold wav_path. cbn [with_tts wav_exists GCS_BUCKET_NAME
    upload_file transcribe_file ask_chatbase judge_model TAIWAN_ANIMALS].
  by rewrite Hex.
Qed.
End audio.

(** X11, when the audio is cached and the upload succeeds. *)
Lemma process_item_audio_path_witness :
  ∃ r clock',
    process_item audio_pipeline env_stt_down 1 "What is a lion?"
      "A large cat" None "google" "zh-TW" 1000 = (Returned r, clock')
    ∧ audio_path r = Some "https://storage/audio/q1_01234567.wav".
Proof.
  apply (process_item_audio_path audio_pipeline env_stt_down 1
           "What is a lion?" "A large cat" None "google" "zh-TW" 1000).
  left. reflexivity.
Defined.

(** X12, with a synthesiser that would fail. *)
Lemma process_item_cached_audio_witness :
  process_item audio_pipeline
    (with_tts (λ _ _ _ _ _, Effect 99 (Raised "synthesis canceled")) env_stt_down)
    1 "What is a lion?" "A large cat" None "google" "zh-TW" 1000
  = process_item audio_pipeline env_stt_down 1 "What is a lion?"
      "A large cat" None "google" "zh-TW" 1000.
Proof.
  apply (process_item_cached_audio audio_pipeline env_stt_down 1
           "What is a lion?" "A large cat" None "google" "zh-TW" 1000).
  reflexivity.
Defined.


(** ** More about the streaming endpoint *)

Section streaming_more.
Variables (g : ServerGlobals) (ws : WebSocket).

Lemma well_formed_missing_key it : well_formed it ↔ missing_key it = None.
Proof.
  unfold well_formed, missing_key.
  destruct (item_id it), (item_question it), (item_reference_answer it);
    split; try done; intros (Hi & Hq & Hr);
    by (destruct Hi || destruct Hq || destruct Hr).
Qed.

(** One turn of the loop on an item that has its three keys: the item
    goes through the pipeline, its result is appended to
    [current_results], and one [send_json] is attempted; the update is
    delivered if that call returns. *)
Lemma loop_body_turn total env c it s :
  well_formed it →
  ∃ res t,
    Some (id res) = item_id it
    ∧ loop_body g ws total env c it s
      = match send_json ws (sends s) with
        | Returned _ =>
            (Returned (update_stats c res),
             {| clock := t; sends := S (sends s);
                delivered :=
                  delivered s ++ [update_message res (update_stats c res) total];
                current_results := current_results s ++ [res] |})
        | Raised e =>
            (Raised e,
             {| clock := t; sends := S (sends s);
                delivered := delivered s;
                current_results := current_results s ++ [res] |})
        end.
Proof.
  destruct it as [[i|] [q|] [ref|]]; intros (Hi & Hq & Hr);
    try (by destruct Hi); try (by destruct Hq); try (by destruct Hr).
  unfold loop_body, item_get, run_pipeline, append_result, send.
  unfold_monad. cbn.
  destruct (process_item_returns (pipeline g) env i q ref
              (Some (current_phrase_hints g)) (current_stt_provider g)
              (if String.eqb (current_stt_provider g) "openai"
               then "en-US" else "zh-TW") (clock s))
    as (res & clock' & -> & Hid).
  cbn. exists res, clock'. split; [by rewrite Hid|].
  by destruct (send_json ws (sends s)) as [e|[]].
Qed.

(** On an item with a missing key the turn stops at once, before the
    pipeline is run. *)
Lemma loop_body_missing_key total env c it s key :
  missing_key it = Some key →
  loop_body g ws total env c it s = (Raised (Exception ("'" ++ key ++ "'")), s).
Proof.
  unfold missing_key, loop_body, item_get. unfold_monad.
  destruct (item_id it), (item_question it), (item_reference_answer it);
    intros [= <-]; reflexivity.
Qed.

Lemma loop_app total envs k items1 items2 c s :
  loop g ws total envs k (items1 ++ items2) c s
  = match loop g ws total envs k items1 c s with
    | (Raised e, s') => (Raised e, s')
    | (Returned c', s') =>
        loop g ws total envs (k + length items1) items2 c' s'
    end.
Proof.
  revert k c s. induction items1 as [|it items1 IH]; intros k c s.
  - cbn. by rewrite Nat.add_0_r.
  - cbn [app loop length]. unfold mbind, M_bind, bind.
    destruct (loop_body g ws total (envs k) c it s) as [[e|c1] s1]; [done|].
    rewrite IH. by replace (S k + length items1) with (k + S (length items1))
      by lia.
Qed.

(** The loop over items that have their keys, as long as the consumer
    takes the updates. *)
Lemma loop_turns total envs k items c s :
  Forall well_formed items →
  (∀ n, sends s ≤ n < sends s + length items → send_json ws n = Returned tt) →
  ∃ results s',
    loop g ws total envs k items c s
    = (Returned (foldl update_stats c results), s')
    ∧ delivered s' = (delivered s ++ updates_of c total results)%list
    ∧ current_results s' = (current_results s ++ results)%list
    ∧ sends s' = sends s + length items
    ∧ Some ∘ id <$> results = item_id <$> items.
Proof.
  intros Hitems. revert k c s.
  induction Hitems as [|it items Hit _ IH]; intros k c s Hsend.
  - exists [], s. cbn. rewrite !app_nil_r. repeat split; lia.
  - destruct (loop_body_turn total (envs k) c it s Hit)
      as (res & t & Hid & Hbody).
    rewrite Hsend in Hbody by (cbn; lia).
    set (s1 := {| clock := t; sends := S (sends s);
                  delivered := delivered s
                    ++ [update_message res (update_stats c res) total];
                  current_results := current_results s ++ [res] |}) in Hbody.
    destruct (IH (S k) (update_stats c res) s1)
      as (results & s' & Hloop & Hdel & Hres & Hsends & Hids).
    { intros n Hn. apply Hsend. cbn in Hn |- *. lia. }
    exists (res :: results), s'. split.
    { cbn [loop]. unfold mbind, M_bind, bind. by rewrite Hbody. }
    split; [by rewrite Hdel; cbn; rewrite <- app_assoc|].
    split; [by rewrite Hres; cbn; rewrite <- app_assoc|].
    split; [rewrite Hsends; cbn; lia|].
    cbn. by rewrite Hids, Hid.
Qed.
End streaming_more.

Lemma updates_of_length c total rs : length (updates_of c total rs) = length rs.
Proof. revert c. induction rs as [|r rs IH]; intros c; cbn; [done|]. by rewrite IH. Qed.

Lemma updates_of_types c total rs :
  Forall (λ m, msg_type m = "update") (updates_of c total rs).
Proof. revert c. induction rs as [|r rs IH]; intros c; cbn; by constructor. Qed.

Lemma updates_of_ids c total rs : update_ids (updates_of c total rs) = id <$> rs.
Proof.
  revert c. induction rs as [|r rs IH]; intros c; [done|].
  change (id r :: update_ids (updates_of (update_stats c r) total rs)
          = id r :: (id <$> rs)). by rewrite IH.
Qed.


(** X13. Without items (no key ["items"], or an empty list) the endpoint
    runs nothing: it sends the one error message ["No items to process"]
    and returns; the clock and [current_results] are as before. *)
Theorem websocket_endpoint_no_items
    (g : ServerGlobals) (ws : WebSocket) (envs : nat → Collaborators)
    (data : option (list item)) (s : ServerState) :
  receive_json ws = Received data →
  default [] data = [] →
  send_json ws (sends s) = Returned tt →
  ∃ s',
    websocket_endpoint g ws envs s = (Returned tt, s')
    ∧ delivered s' = (delivered s ++ [MsgError "No items to process"])%list
    ∧ current_results s' = current_results s
    ∧ clock s' = clock s.
Proof.
  intros Hrecv Hnone Hsend.
  unfold websocket_endpoint, endpoint_try. rewrite Hrecv, Hnone.
  unfold send. rewrite Hsend. eexists. by split.
Qed.

(** X13, on a message without the key ["items"]. *)
Lemma websocket_endpoint_no_items_witness :
  ∃ s',
    websocket_endpoint globals
      {| receive_json := Received None; send_json := λ _, Returned tt |}
      envs_80_100_error idle = (Returned tt, s')
    ∧ delivered s' = [MsgError "No items to process"]
    ∧ current_results s' = [].
Proof.
  destruct (websocket_endpoint_no_items globals
              {| receive_json := Received None; send_json := λ _, Returned tt |}
              envs_80_100_error None idle eq_refl eq_refl eq_refl)
    as (s' & Hrun & Hdel & Hres & _).
  exists s'. split; [exact Hrun|]. split; [exact Hdel | exact Hres].
Defined.

(** X14. When [send_json] fails on the update of an item, the loop stops
    there: the updates of the items before it have been delivered, the
    item itself has been processed and recorded, no later item is
    touched and no completion message is sent. After a
    [WebSocketDisconnect] the endpoint returns without sending anything
    more; after any other exception it sends one error message with the
    text of the exception. *)
Theorem websocket_endpoint_send_fails
    (g : ServerGlobals) (ws : WebSocket) (envs : nat → Collaborators)
    (before after : list item) (it : item) (e : server_exc) (s : ServerState) :
  receive_json ws = Received (Some (before ++ it :: after)%list) →
  Forall well_formed (before ++ [it])%list →
  (∀ n, sends s ≤ n < sends s + length before → send_json ws n = Returned tt) →
  send_json ws (sends s + length before) = Raised e →
  send_json ws (sends s + length before + 1) = Returned tt →
  ∃ s' results,
    websocket_endpoint g ws envs s = (Returned tt, s')
    ∧ length results = length before
    ∧ length (current_results s') = length (current_results s) + length before + 1
    ∧ delivered s'
      = (delivered s
         ++ updates_of {| c_processed := 0; c_total_score := 0;
                          c_total_latency := 0 |}
              (length (before ++ it :: after)%list) results
         ++ match e with
            | WebSocketDisconnect => []
            | Exception msg => [MsgError msg]
            end)%list
    ∧ sends s'
      = sends s + length before
        + match e with WebSocketDisconnect => 1 | Exception _ => 2 end.
Proof.
  intros Hrecv Hitems Hok Hfail Hnext.
  apply Forall_app in Hitems as [Hbefore Hit].
  rewrite Forall_singleton in Hit.
  unfold websocket_endpoint, endpoint_try. rewrite Hrecv.
  change (default [] (Some (before ++ it :: after)%list)) with (before ++ it :: after)%list.
  set (total := length (before ++ it :: after)%list).
  set (c0 := {| c_processed := 0; c_total_score := 0; c_total_latency := 0 |}).
  assert (Hloop : ∃ results s1 res t,
            length results = length before
            ∧ loop g ws total envs 0 (before ++ it :: after)%list c0 s
              = (Raised e,
                 {| clock := t; sends := S (sends s1);
                    delivered := delivered s1;
                    current_results := current_results s1 ++ [res] |})
            ∧ delivered s1 = (delivered s ++ updates_of c0 total results)%list
            ∧ current_results s1 = (current_results s ++ results)%list
            ∧ sends s1 = sends s + length before).
  { destruct (loop_turns g ws total envs 0 before c0 s Hbefore Hok)
      as (results & s1 & Hrun & Hdel & Hres & Hsends & Hids).
    destruct (loop_body_turn g ws total (envs (0 + length before))
                (foldl update_stats c0 results) it s1 Hit)
      as (res & t & _ & Hbody).
    rewrite Hsends, Hfail in Hbody.
    exists results, s1, res, t. split.
    { apply (f_equal length) in Hids. by rewrite !length_fmap in Hids. }
    split; [|done].
    rewrite loop_app, Hrun. cbn [loop]. unfold mbind, M_bind, bind.
    by rewrite Hbody, Hsends. }
  destruct Hloop as (results & s1 & res & t & Hlen & Hloop & Hdel & Hres & Hsends).
  destruct (before ++ it :: after)%list as [|it0 items0] eqn:Hall.
  { by destruct before. }
  unfold mbind, M_bind, bind. rewrite Hloop.
  destruct e as [|msg].
  - eexists _, results. split; [reflexivity|]. cbn.
    split; [done|]. split; [rewrite length_app, Hres, length_app; cbn; lia|].
    split; [by rewrite Hdel, app_nil_r | lia].
  - unfold send. cbn [sends].
    replace (S (sends s1)) with (sends s + length before + 1) by lia.
    rewrite Hnext. eexists _, results. split; [reflexivity|]. cbn.
    split; [done|]. split; [rewrite length_app, Hres, length_app; cbn; lia|].
    split; [by rewrite Hdel, <- app_assoc | lia].
Qed.

(** X14, when the consumer goes away at the second update of three. *)
Lemma websocket_endpoint_send_fails_witness :
  ∃ s',
    websocket_endpoint globals (ws_failing three_items 1 (Raised WebSocketDisconnect))
      envs_80_100_error idle = (Returned tt, s')
    ∧ length (delivered s') = 1
    ∧ length (current_results s') = 2
    ∧ sends s' = 2.
Proof.
  destruct (websocket_endpoint_send_fails globals
              (ws_failing three_items 1 (Raised WebSocketDisconnect))
              envs_80_100_error
              [item_of 1 "What is a lion?" "A large cat"]
              [item_of 3 "What is a gnu?" "An antelope"]
              (item_of 2 "What is a zebra?" "A striped horse")
              WebSocketDisconnect idle)
    as (s' & results & Hrun & Hlen & Hres & Hdel & Hsends).
  - reflexivity.
  - repeat constructor; eauto.
  - intros n Hn. cbn in Hn. by replace n with 0 by lia.
  - reflexivity.
  - reflexivity.
  - exists s'. split; [exact Hrun|].
    split; [rewrite Hdel; cbn; rewrite app_nil_r, updates_of_length; exact Hlen|].
    split; [exact Hres | exact Hsends].
Defined.

(** X15. An item that lacks one of its three keys stops the run before
    its own pipeline is started: the updates of the items before it have
    been delivered, then one error message names the first missing key
    in quotes; the item is not recorded and no completion message is
    sent. *)
Theorem websocket_endpoint_missing_key
    (g : ServerGlobals) (ws : WebSocket) (envs : nat → Collaborators)
    (before after : list item) (it : item) (key : string) (s : ServerState) :
  receive_json ws = Received (Some (before ++ it :: after)%list) →
  Forall well_formed before →
  missing_key it = Some key →
  (∀ n, sends s ≤ n < sends s + length before + 1 →
        send_json ws n = Returned tt) →
  ∃ s' results,
    websocket_endpoint g ws envs s = (Returned tt, s')
    ∧ length results = length before
    ∧ current_results s' = (current_results s ++ results)%list
    ∧ delivered s'
      = (delivered s
         ++ updates_of {| c_processed := 0; c_total_score := 0;
                          c_total_latency := 0 |}
              (length (before ++ it :: after)%list) results
         ++ [MsgError ("'" ++ key ++ "'")])%list.
Proof.
  intros Hrecv Hbefore Hkey Hok.
  unfold websocket_endpoint, endpoint_try. rewrite Hrecv.
  change (default [] (Some (before ++ it :: after)%list)) with (before ++ it :: after)%list.
  set (total := length (before ++ it :: after)%list).
  set (c0 := {| c_processed := 0; c_total_score := 0; c_total_latency := 0 |}).
  destruct (loop_turns g ws total envs 0 before c0 s Hbefore)
    as (results & s1 & Hrun & Hdel & Hres & Hsends & Hids).
  { intros n Hn. apply Hok. lia. }
  assert (Hloop : loop g ws total envs 0 (before ++ it :: after)%list c0 s
                  = (Raised (Exception ("'" ++ key ++ "'")), s1)).
  { rewrite loop_app, Hrun. cbn [loop]. unfold mbind, M_bind, bind.
    by rewrite (loop_body_missing_key g ws total _ _ it s1 key Hkey). }
  destruct (before ++ it :: after)%list as [|it0 items0] eqn:Hall.
  { by destruct before. }
  unfold mbind, M_bind, bind. rewrite Hloop. unfold send.
  rewrite Hok by lia. eexists _, results. split; [reflexivity|]. cbn.
  split. { apply (f_equal length) in Hids. by rewrite !length_fmap in Hids. }
  split; [done|]. by rewrite Hdel, <- app_assoc.
Qed.

(** X15, on a second item without a question. *)
Lemma websocket_endpoint_missing_key_witness :
  ∃ s',
    websocket_endpoint globals
      (ws_sending [item_of 1 "What is a lion?" "A large cat";
                   {| item_id := Some 2%Z; item_question := None;
                      item_reference_answer := Some "A striped horse" |}])
      envs_80_100_error idle = (Returned tt, s')
    ∧ length (current_results s') = 1
    ∧ last (delivered s') = Some (MsgError "'question'").
Proof.
  destruct (websocket_endpoint_missing_key globals
              (ws_sending [item_of 1 "What is a lion?" "A large cat";
                           {| item_id := Some 2%Z; item_question := None;
                              item_reference_answer := Some "A striped horse" |}])
              envs_80_100_error
              [item_of 1 "What is a lion?" "A large cat"] []
              {| item_id := Some 2%Z; item_question := None;
                 item_reference_answer := Some "A striped horse" |}
              "question" idle)
    as (s' & results & Hrun & Hlen & Hres & Hdel).
  - reflexivity.
  - repeat constructor; eauto.
  - reflexivity.
  - intros n _. reflexivity.
  - exists s'. split; [exact Hrun|]. rewrite Hres, Hdel. cbn [idle delivered
      current_results app]. split; [exact Hlen|].
    by rewrite last_snoc.
Defined.


(** The counters after a history of results: how many there are, and the
    sums over those that succeeded. *)
Lemma foldl_update_stats c rs :
  foldl update_stats c rs
  = {| c_processed := c_processed c + length rs;
       c_total_score := c_total_score c + sum_Z (score <$> successes rs);
       c_total_latency :=
         c_total_latency c + sum_Z (total_latency <$> successes rs) |}.
Proof.
  revert c. induction rs as [|r rs IH]; intros c.
  - destruct c. cbn. f_equal; lia.
  - cbn [foldl]. rewrite IH. unfold update_stats, successes. cbn [List.filter].
    destruct (String.eqb (status r) "success");
      cbn [c_processed c_total_score c_total_latency length fmap list_fmap];
      unfold sum_Z; cbn [foldr]; f_equal; lia.
Qed.

Lemma updates_of_lookup c total rs k r :
  rs !! k = Some r →
  updates_of c total rs !! k
  = Some (update_message r (foldl update_stats c (take (S k) rs)) total).
Proof.
  revert c k. induction rs as [|r0 rs IH]; intros c k; [done|].
  destruct k as [|k]; cbn.
  - by intros [= ->].
  - intros Hk. by rewrite (IH _ _ Hk).
Qed.

(** X16. The statistics sent with the update of item number [k] are those
    of the history so far, as if recomputed from scratch: [processed] is
    [k + 1], [total] is the number of items, and each average is the sum
    over the results with status ["success"] divided by the number of
    all results so far. *)
Theorem websocket_endpoint_running_stats
    (g : ServerGlobals) (ws : WebSocket) (envs : nat → Collaborators)
    (items : list item) (s : ServerState) :
  receive_json ws = Received (Some items) →
  items ≠ [] →
  Forall well_formed items →
  (∀ n, send_json ws n = Returned tt) →
  ∃ s' results,
    websocket_endpoint g ws envs s = (Returned tt, s')
    ∧ current_results s' = (current_results s ++ results)%list
    ∧ length results = length items
    ∧ ∀ k r, results !! k = Some r →
        ∃ payload,
          delivered s' !! (length (delivered s) + k)
          = Some (MsgUpdate payload
                    (stats_of (take (S k) results) (length items)))
          ∧ u_id payload = id r ∧ u_status payload = status r
          ∧ u_score payload = score r.
Proof.
  intros Hrecv Hne Hitems Hsend.
  unfold websocket_endpoint, endpoint_try. rewrite Hrecv.
  change (default [] (Some items)) with items.
  destruct items as [|it items]; [done|].
  set (c0 := {| c_processed := 0; c_total_score := 0; c_total_latency := 0 |}).
  destruct (loop_turns g ws (length (it :: items)) envs 0 (it :: items) c0 s
              Hitems ltac:(intros n _; apply Hsend))
    as (results & s1 & Hloop & Hdel & Hres & Hsends & Hids).
  unfold mbind, M_bind, bind. rewrite Hloop. unfold send. rewrite Hsend.
  eexists _, results. split; [reflexivity|]. cbn [current_results delivered].
  split; [done|]. split.
  { apply (f_equal length) in Hids. by rewrite !length_fmap in Hids. }
  intros k r Hk. rewrite Hdel, <- app_assoc.
  rewrite lookup_app_r by lia.
  replace (length (delivered s) + k - length (delivered s)) with k by lia.
  rewrite lookup_app_l
    by (rewrite updates_of_length; by apply lookup_lt_Some in Hk).
  rewrite (updates_of_lookup _ _ _ _ _ Hk), foldl_update_stats.
  unfold update_message, stats_of. cbn [c_processed c_total_score c_total_latency c0].
  eexists. split; [reflexivity|]. done.
Qed.

(** X16, on the run with grades 80 and 100 and a failure: the third
    update comes with the sums 180 and 52 over the two successes, divided
    by 3. *)
Lemma websocket_endpoint_running_stats_witness :
  ∃ s' results,
    websocket_endpoint globals (ws_sending three_items) envs_80_100_error idle
    = (Returned tt, s')
    ∧ length results = 3
    ∧ ∀ r, results !! 2 = Some r →
        ∃ payload,
          delivered s' !! 2
          = Some (MsgUpdate payload (stats_of (take 3 results) 3)).
Proof.
  destruct (websocket_endpoint_running_stats globals (ws_sending three_items)
              envs_80_100_error three_items idle)
    as (s' & results & Hrun & _ & Hlen & Hstats).
  - reflexivity.
  - done.
  - repeat constructor; eauto.
  - intros n. reflexivity.
  - exists s', results. split; [exact Hrun|]. split; [exact Hlen|].
    intros r Hr. destruct (Hstats 2 r Hr) as (payload & Hmsg & _).
    exists payload. exact Hmsg.
Defined.

(** ** The audio URL of an update *)






(** ** tts_generate.py: [_resolve_column] *)

Lemma elem_of_dict_keys_from seen l x :
  x ∈ dict_keys_from seen l ↔ x ∈ l ∧ x ∉ seen.
Proof.
  revert seen. induction l as [|y l IH]; intros seen; cbn [dict_keys_from].
  - rewrite elem_of_nil. tauto.
  - case_bool_decide as Hy.
    + rewrite IH, elem_of_cons. split; [tauto|].
      intros [[->|Hx] Hseen]; [contradiction | tauto].
    + rewrite !elem_of_cons, IH, elem_of_cons.
      destruct (decide (x = y)) as [->|Hne]; [|tauto].
      split; [intros _; split; [by left | done] | intros _; by left].
Qed.

Lemma elem_of_dict_keys l x : x ∈ dict_keys l ↔ x ∈ l.
Proof.
  unfold dict_keys. rewrite elem_of_dict_keys_from.
  split; [by intros [? _] | intros Hx; split; [done | apply not_elem_of_nil]].
Qed.

Lemma normalized_lower_get_Some normalized k r :
  normalized_lower_get normalized k = Some r → r ∈ normalized ∧ lower r = k.
Proof.
  unfold normalized_lower_get. intros Hlast.
  apply last_Some in Hlast as [l' Hl'].
  assert (In r (List.filter (λ name, String.eqb (lower name) k) normalized)) as Hin.
  { rewrite Hl'. apply in_or_app. right. by left. }
  apply filter_In in Hin as [Hin Heq].
  split; [by apply list_elem_of_In | by apply String.eqb_eq].
Qed.

Lemma normalized_lower_get_None normalized k :
  normalized_lower_get normalized k = None ↔ ∀ r, r ∈ normalized → lower r ≠ k.
Proof.
  unfold normalized_lower_get. rewrite last_None, filter_nil_forallb.
  apply forall_proper. intros r.
  destruct (String.eqb_spec (lower r) k); naive_solver.
Qed.

(** X18. [_resolve_column] returns one of the column names (with the
    white space around it removed); a preferred name that is a column is
    returned as it is; otherwise the answer matches some candidate up to
    letter case; and the function gives up (with a [ValueError]) exactly
    when no non-blank candidate matches a column even up to case. *)
Theorem resolve_column_spec
    (COLUMN_ALIASES : string → list string) (columns : list string)
    (preferred key : string) :
  let stripped := strip <$> columns in
  let search_order := search_order_of COLUMN_ALIASES preferred key in
  (∀ c, _resolve_column COLUMN_ALIASES columns preferred key = Some c →
        c ∈ stripped
        ∧ ∃ candidate, candidate ∈ search_order
                       ∧ lower c = lower (strip candidate))
  ∧ (strip preferred ≠ EmptyString → strip preferred ∈ stripped →
     _resolve_column COLUMN_ALIASES columns preferred key
     = Some (strip preferred))
  ∧ (_resolve_column COLUMN_ALIASES columns preferred key = None
     ↔ ∀ candidate, candidate ∈ search_order →
                    strip candidate ≠ EmptyString →
                    lower (strip candidate) ∉ lower <$> stripped).
Proof.
  cbv zeta. unfold _resolve_column.
  set (normalized := dict_keys (strip <$> columns)).
  assert (Hkeys : ∀ x, x ∈ normalized ↔ x ∈ strip <$> columns)
    by (intros x; apply elem_of_dict_keys).
  split; [|split].
  - intros c. generalize (search_order_of COLUMN_ALIASES preferred key).
    intros so. induction so as [|cand so IH]; [done|]. cbn [resolve_loop].
    destruct (truthy (strip cand)) eqn:Ht; cbn [negb].
    + case_bool_decide as Hin.
      * intros [= <-]. split; [by apply Hkeys|]. exists cand.
        split; [constructor | done].
      * destruct (normalized_lower_get normalized (lower (strip cand)))
          as [r|] eqn:Hget.
        -- intros [= <-]. apply normalized_lower_get_Some in Hget as [Hr Hlow].
           split; [by apply Hkeys|]. exists cand. split; [constructor | done].
        -- intros Hc. destruct (IH Hc) as (Hc' & cand' & Hcand' & Hlow).
           split; [done|]. exists cand'. split; [by constructor | done].
    + intros Hc. destruct (IH Hc) as (Hc' & cand' & Hcand' & Hlow).
      split; [done|]. exists cand'. split; [by constructor | done].
  - intros Hne Hin. unfold search_order_of.
    assert (truthy preferred = true) as -> by (by destruct preferred).
    cbn [app resolve_loop]. apply truthy_spec in Hne. rewrite Hne. cbn [negb].
    apply Hkeys in Hin. by rewrite bool_decide_eq_true_2.
  - generalize (search_order_of COLUMN_ALIASES preferred key).
    intros so. induction so as [|cand so IH].
    + split; [by intros _ ? ?%elem_of_nil | done].
    + cbn [resolve_loop].
      assert (Hmatch : ∀ k, k ∉ lower <$> (strip <$> columns)
                            ↔ ∀ r, r ∈ normalized → lower r ≠ k).
      { intros k. rewrite list_elem_of_fmap. split.
        - intros Hnot r Hr Heq. apply Hnot. exists r.
          split; [done | by apply Hkeys].
        - intros Hall (r & Heq & Hr). apply (Hall r); [by apply Hkeys | done]. }
      destruct (truthy (strip cand)) eqn:Ht; cbn [negb].
      * case_bool_decide as Hin.
        { split; [done|]. intros Hall. exfalso.
          apply (Hall cand); [constructor | by apply truthy_spec|].
          apply list_elem_of_fmap. exists (strip cand).
          by rewrite <- Hkeys. }
        destruct (normalized_lower_get normalized (lower (strip cand)))
          as [r|] eqn:Hget.
        { split; [done|]. intros Hall. exfalso.
          apply normalized_lower_get_Some in Hget as [Hr Hlow].
          apply (Hall cand); [constructor | by apply truthy_spec|].
          apply list_elem_of_fmap. exists r. by rewrite <- Hkeys. }
        rewrite IH.
        pose proof (proj1 (normalized_lower_get_None _ _) Hget) as Hnone. split.
        -- intros Hall c [->|Hc]%elem_of_cons Hne; [by apply Hmatch | by apply Hall].
        -- intros Hall c Hc. apply Hall. by constructor.
      * rewrite IH. split.
        -- intros Hall c [->|Hc]%elem_of_cons Hne; [|by apply Hall].
           apply truthy_spec in Hne. congruence.
        -- intros Hall c Hc. apply Hall. by constructor.
Qed.

(** X18, on a header with a capitalised and padded id column. *)
Lemma resolve_column_spec_witness :
  _resolve_column (λ _, ["id"; "no"]) [" ID "; "Question"; "id"] "id" "id"
  = Some "id"
  ∧ _resolve_column (λ _, ["id"; "no"]) [" Id "; "Question"] "number" "id"
    = Some "Id".
Proof.
  split.
  - apply (proj1 (proj2 (resolve_column_spec (λ _, ["id"; "no"])
                           [" ID "; "Question"; "id"] "id" "id"))).
    + done.
    + vm_compute. repeat constructor.
  - reflexivity.
Defined.


(** ** config.py *)

(** X19. [_require_env] returns the value of the variable without the
    white space around it, and never an empty string; it raises, with a
    message that names the variable, exactly when the variable is unset
    or blank. It looks at this one variable only: setting another one
    changes nothing, and setting this one to a non-blank value makes the
    call return that value, trimmed. *)
Theorem require_env_spec (env : environ) (var_name : string) :
  (∀ value, _require_env env var_name = Returned value →
            value ≠ EmptyString ∧ strip value = value
            ∧ ∃ raw, env !! var_name = Some raw ∧ value = strip raw)
  ∧ (∀ exc, _require_env env var_name = Raised exc →
            exc = config_error var_name
            ∧ (env !! var_name = None
               ∨ ∃ raw, env !! var_name = Some raw ∧ strip raw = EmptyString))
  ∧ (∀ other raw, other ≠ var_name →
       _require_env (<[other := raw]> env) var_name = _require_env env var_name)
  ∧ (∀ raw, strip raw ≠ EmptyString →
       _require_env (<[var_name := raw]> env) var_name = Returned (strip raw)).
Proof.
  unfold _require_env. split; [|split; [|split]].
  - intros value. destruct (env !! var_name) as [raw|] eqn:Hraw; [|done].
    destruct (truthy (strip raw)) eqn:Ht; cbn [negb]; [|done].
    intros [= <-]. split; [by apply truthy_spec|].
    split; [apply strip_idemp | by exists raw].
  - intros exc. destruct (env !! var_name) as [raw|] eqn:Hraw.
    + destruct (truthy (strip raw)) eqn:Ht; cbn [negb]; [done|].
      intros [= <-]. split; [done|]. right. exists raw. split; [done|].
      by destruct (strip raw).
    + intros [= <-]. split; [done | by left].
  - intros other raw Hne. by rewrite lookup_insert_ne.
  - intros raw Hne. rewrite lookup_insert_eq.
    apply truthy_spec in Hne. by rewrite Hne.
Qed.

(** X19, on a padded value. *)
Lemma require_env_spec_witness :
  _require_env (<["DEFAULT_LANGUAGE_CODE" := " zh-TW "]> ∅) "DEFAULT_LANGUAGE_CODE"
  = Returned "zh-TW".
Proof.
  apply (proj2 (proj2 (proj2 (require_env_spec ∅ "DEFAULT_LANGUAGE_CODE")))
           " zh-TW "). done.
Defined.

Lemma require_env_cases (env : environ) (var_name : string) :
  (∃ value, _require_env env var_name = Returned value
            ∧ value ≠ EmptyString ∧ strip value = value)
  ∨ _require_env env var_name = Raised (config_error var_name).
Proof.
  unfold _require_env. destruct (env !! var_name) as [raw|]; [|by right].
  destruct (truthy (strip raw)) eqn:Ht; cbn [negb]; [|by right].
  left. exists (strip raw). split; [done|].
  split; [by apply truthy_spec | apply strip_idemp].
Qed.

(** X20. [get_chatbase_config] needs its three variables: it returns
    their trimmed values when all are set and not blank; otherwise it
    raises the error of the first one that is missing, in the order API
    key, bot id, URL. *)
Theorem get_chatbase_config_spec (env : environ) :
  (∀ cfg, get_chatbase_config env = Returned cfg ↔
     _require_env env "CHATBASE_API_KEY" = Returned (api_key cfg)
     ∧ _require_env env "CHATBASE_BOT_ID" = Returned (bot_id cfg)
     ∧ _require_env env "CHATBASE_API_URL" = Returned (api_url cfg))
  ∧ (∀ exc, get_chatbase_config env = Raised exc ↔
     ∃ before var after,
       ["CHATBASE_API_KEY"; "CHATBASE_BOT_ID"; "CHATBASE_API_URL"]
       = (before ++ var :: after)%list
       ∧ Forall (λ v, ∃ value, _require_env env v = Returned value) before
       ∧ _require_env env var = Raised exc
       ∧ exc = config_error var).
Proof.
  unfold get_chatbase_config. unfold mbind, outcome_bind.
  destruct (require_env_cases env "CHATBASE_API_KEY") as [(k & Hk & _)| Hk];
    rewrite Hk.
  2:{ split; [intros cfg; split; [done | by intros [? _]]|].
      intros exc. split.
      - intros [= <-]. by exists [], "CHATBASE_API_KEY", ["CHATBASE_BOT_ID"; "CHATBASE_API_URL"].
      - intros (before & var & after & Hsplit & Hbefore & Hvar & ->).
        destruct before as [|v1 before]; [by injection Hsplit as <- _|].
        injection Hsplit as <- _. apply Forall_cons in Hbefore as [[? Hv] _].
        by rewrite Hk in Hv. }
  destruct (require_env_cases env "CHATBASE_BOT_ID") as [(b & Hb & _)| Hb];
    rewrite Hb.
  2:{ split; [intros cfg; split; [done | by intros (_ & ? & _)]|].
      intros exc. split.
      - intros [= <-]. by exists ["CHATBASE_API_KEY"], "CHATBASE_BOT_ID", ["CHATBASE_API_URL"];
          repeat split; eauto.
      - intros (before & var & after & Hsplit & Hbefore & Hvar & ->).
        destruct before as [|v1 [|v2 before]].
        + injection Hsplit as <- _. by rewrite Hk in Hvar.
        + by injection Hsplit as _ <- _.
        + injection Hsplit as _ <- _.
          apply Forall_cons in Hbefore as [_ Hbefore].
          apply Forall_cons in Hbefore as [[? Hv] _]. by rewrite Hb in Hv. }
  destruct (require_env_cases env "CHATBASE_API_URL") as [(u & Hu & _)| Hu];
    rewrite Hu.
  2:{ split; [intros cfg; split; [done | by intros (_ & _ & ?)]|].
      intros exc. split.
      - intros [= <-].
        exists ["CHATBASE_API_KEY"; "CHATBASE_BOT_ID"], "CHATBASE_API_URL", [].
        repeat split; eauto.
      - intros (before & var & after & Hsplit & Hbefore & Hvar & ->).
        destruct before as [|v1 [|v2 [|v3 before]]].
        + injection Hsplit as <- _. by rewrite Hk in Hvar.
        + injection Hsplit as _ <- _. by rewrite Hb in Hvar.
        + by injection Hsplit as _ _ <- _.
        + injection Hsplit as _ _ Hrest. by destruct before. }
  split.
  - intros [k' b' u']. cbn. split; [by intros [= -> -> ->] | by intros ([= ->] & [= ->] & [= ->])].
  - intros exc. split; [done|].
    intros (before & var & after & Hsplit & Hbefore & Hvar & ->).
    destruct before as [|v1 [|v2 [|v3 before]]].
    + injection Hsplit as <- _. by rewrite Hk in Hvar.
    + injection Hsplit as _ <- _. by rewrite Hb in Hvar.
    + injection Hsplit as _ _ <- _. by rewrite Hu in Hvar.
    + injection Hsplit as _ _ Hrest. by destruct before.
Qed.


(** ** chatbase_client.py *)

Lemma py_or_cases a b :
  (json_truthy a = true ∧ py_or a b = a) ∨ (json_truthy a = false ∧ py_or a b = b).
Proof. unfold py_or. destruct (json_truthy a); [by left | by right]. Qed.

Lemma py_or_true a b : json_truthy a = true → py_or a b = a.
Proof. unfold py_or. by intros ->. Qed.

Lemma py_or_false a b : json_truthy a = false → py_or a b = b.
Proof. unfold py_or. by intros ->. Qed.

(** The chain of [or] picks the first value that counts as true. *)
Lemma py_or_chain_str a1 a2 a3 a4 s :
  py_or (py_or (py_or a1 a2) a3) a4 = JStr s →
  ∃ i, [a1; a2; a3; a4] !! i = Some (JStr s)
       ∧ ∀ j v, j < i → [a1; a2; a3; a4] !! j = Some v → json_truthy v = false.
Proof.
  intros Hor.
  destruct (json_truthy a1) eqn:H1.
  { rewrite !(py_or_true a1) in Hor by done.
    exists 0. split; [by rewrite <- Hor|]. intros j v Hj. lia. }
  rewrite (py_or_false a1) in Hor by done.
  destruct (json_truthy a2) eqn:H2.
  { rewrite !(py_or_true a2) in Hor by done.
    exists 1. split; [by rewrite <- Hor|].
    intros [|[|j]] v Hj; [|lia..]. by intros [= <-]. }
  rewrite (py_or_false a2) in Hor by done.
  destruct (json_truthy a3) eqn:H3.
  { rewrite !(py_or_true a3) in Hor by done.
    exists 2. split; [by rewrite <- Hor|].
    intros [|[|[|j]]] v Hj; [| |lia..]; by intros [= <-]. }
  rewrite (py_or_false a3) in Hor by done.
  exists 3. split; [by rewrite <- Hor|].
  intros [|[|[|[|j]]]] v Hj; [| | |lia..]; by intros [= <-].
Qed.

(** X21. What [ask_chatbase] returns is an answer text that is not
    empty and has no white space around it: the trimmed string found
    under the first of the keys [answer], [text], [answer_text], [reply]
    whose value counts as true. Without its configuration it raises the
    configuration error and sends nothing; a status of 400 or more is
    reported with the status and the trimmed body; a network error is
    reported with its text. *)
Theorem ask_chatbase_spec (env : environ)
    (post : chatbase_client.request → outcome string chatbase_client.response)
    (question : string) (conversation_id : option string) :
  (∀ res,
     chatbase_client.ask_chatbase env post question conversation_id
     = Returned res →
     chatbase_client.answer_text res ≠ EmptyString
     ∧ strip (chatbase_client.answer_text res) = chatbase_client.answer_text res
     ∧ ∃ fields i key s,
         chatbase_client.raw res = JObj fields
         ∧ answer_keys !! i = Some key
         ∧ assoc key fields = Some (JStr s)
         ∧ chatbase_client.answer_text res = strip s
         ∧ ∀ j k, j < i → answer_keys !! j = Some k →
                  json_truthy (default JNull (assoc k fields)) = false)
  ∧ (∀ exc, get_chatbase_config env = Raised exc →
       chatbase_client.ask_chatbase env post question conversation_id
       = Raised exc)
  ∧ (∀ cfg req, get_chatbase_config env = Returned cfg →
       req = {| chatbase_client.url := api_url cfg;
                chatbase_client.bearer := api_key cfg;
                chatbase_client.chatbotId := bot_id cfg;
                chatbase_client.content := question;
                chatbase_client.conversationId :=
                  match conversation_id with
                  | Some (String _ _ as c) => Some c
                  | _ => None
                  end |} →
       (∀ exc, post req = Raised exc →
          chatbase_client.ask_chatbase env post question conversation_id
          = Raised ("Network error calling Chatbase: " ++ exc))
       ∧ (∀ resp, post req = Returned resp →
            (400 ≤ chatbase_client.status_code resp)%Z →
            chatbase_client.ask_chatbase env post question conversation_id
            = Raised ("Chatbase API returned an error: "
                      ++ str_of_int (chatbase_client.status_code resp) ++ " "
                      ++ strip (chatbase_client.text resp)))).
Proof.
  unfold chatbase_client.ask_chatbase, mbind, outcome_bind.
  split; [|split].
  - intros res. destruct (get_chatbase_config env) as [e|cfg]; [done|].
    destruct (post _) as [e|resp]; [done|].
    destruct (400 <=? chatbase_client.status_code resp)%Z; [done|].
    destruct (chatbase_client.json_of resp) as [e|payload]; [done|].
    destruct payload as [| | | | |fields]; try done.
    cbn [payload_get].
    destruct (py_or _ _) as [| | |s| |] eqn:Hor; try done.
    destruct (truthy (strip s)) eqn:Ht; cbn [negb]; [|done].
    intros [= <-]. cbn.
    split; [by apply truthy_spec|]. split; [apply strip_idemp|].
    apply py_or_chain_str in Hor as (i & Hi & Hfalse).
    assert (∃ key, answer_keys !! i = Some key
                   ∧ default JNull (assoc key fields) = JStr s) as (key & Hkey & Hval).
    { destruct i as [|[|[|[|i]]]]; cbn in Hi; try done;
        injection Hi as Hi; eexists; (split; [reflexivity|done]). }
    exists fields, i, key, s. split; [done|]. split; [done|].
    split; [by destruct (assoc key fields) as [v|]; [cbn in Hval; subst|]|].
    split; [done|]. intros j k Hj Hk.
    destruct j as [|[|[|[|j]]]]; cbn in Hk; try done;
      injection Hk as <-; by apply (Hfalse _ _ Hj).
  - by intros exc ->.
  - intros cfg req Hcfg ->. rewrite Hcfg. cbn beta iota zeta. split.
    + by intros exc ->.
    + intros resp -> Hstatus. apply Z.leb_le in Hstatus. by rewrite Hstatus.
Qed.

(** X21, on a chatbot that answers under the key [text]. *)
Lemma ask_chatbase_spec_witness :
  ∃ res,
    chatbase_client.ask_chatbase environ_chatbase post_text_answer
      "what is a lion" None = Returned res
    ∧ chatbase_client.answer_text res = "A big cat"
    ∧ strip (chatbase_client.answer_text res) = chatbase_client.answer_text res.
Proof.
  pose (res := {| chatbase_client.answer_text := "A big cat";
                  chatbase_client.conversation_id := JNull;
                  chatbase_client.raw :=
                    JObj [("answer", JStr EmptyString);
                          ("text", JStr " A big cat ")] |}).
  assert (Hrun : chatbase_client.ask_chatbase environ_chatbase post_text_answer
                   "what is a lion" None = Returned res)
    by (vm_compute; reflexivity).
  exists res. split; [exact Hrun|]. split; [reflexivity|].
  exact (proj1 (proj2 (proj1 (ask_chatbase_spec _ _ _ _) res Hrun))).
Defined.


(** ** stt_client.py and stt_test.py *)

(** A text that is not empty and has no white space around it does not
    normalise to the empty string. *)
Lemma normalize_text_nonempty t :
  t ≠ EmptyString → strip t = t → normalize_text (Some t) ≠ EmptyString.
Proof.
  intros Hne Hstrip. pose proof (lstrip_strip t) as Hl. rewrite Hstrip in Hl.
  unfold normalize_text. rewrite Hstrip.
  destruct t as [|c v]; [done|]. cbn [truthy].
  simpl in Hl. destruct (isspace c) eqn:Hc.
  { exfalso.
    assert (String.length (lstrip v) ≤ String.length v) as Hlen.
    { clear. induction v as [|a v IH]; simpl; [lia|].
      destruct (isspace a); simpl; lia. }
    rewrite Hl in Hlen. simpl in Hlen. lia. }
  simpl. by rewrite isspace_lower_char, Hc.
Qed.

(** What the Google path of [transcribe_file] returns. *)
Lemma transcribe_file_google_returned (env : environ)
    (sv : stt_client.services) (wav_path : string)
    (language_code : option string) (phrase_hints : option (list string))
    (provider : string) (t : string) :
  provider ≠ "openai" →
  stt_client.transcribe_file env sv wav_path language_code phrase_hints
    provider = Returned t →
  t ≠ EmptyString ∧ strip t = t
  ∧ normalize_text (Some t) ≠ EmptyString
  ∧ stt_client.path_exists sv wav_path = true
  ∧ ∃ rate lang ctx alternative others rest,
      stt_client.recognize sv wav_path rate lang ctx
      = Returned ((alternative :: others) :: rest)
      ∧ t = strip alternative.
Proof.
  intros Hprov. apply String.eqb_neq in Hprov.
  unfold stt_client.transcribe_file. rewrite Hprov.
  destruct (stt_client.path_exists sv wav_path) eqn:Hex;
    cbn [negb]; [|done].
  unfold mbind, outcome_bind.
  destruct (match language_code with
            | Some (String _ _ as l) => Returned l
            | _ => get_default_language_code env
            end) as [e|lang]; [done|].
  destruct (stt_client.detect_sample_rate sv wav_path) as [e|rate]; [done|].
  destruct (stt_client.recognize sv wav_path rate lang _)
    as [[e|e]|[|[|alt others] rest]] eqn:Hrec; try done.
  destruct (truthy (strip alt)) eqn:Ht; cbn [negb]; [|done].
  intros [= <-]. apply truthy_spec in Ht.
  split; [done|]. split; [apply strip_idemp|].
  split; [apply normalize_text_nonempty; [done | apply strip_idemp]|].
  split; [done|]. by eexists _, _, _, _, _, _.
Qed.

(** The character error rate is 0 exactly for equal texts, and the word
    error rate is 0 for texts with the same words. *)
Lemma cer_zero_iff (ref hyp : string) :
  ∃ q, cer ref hyp = Some q ∧ ((q == 0)%Q ↔ ref = hyp).
Proof.
  destruct ref as [|c ref].
  - destruct hyp as [|c' hyp]; simpl.
    + by exists 0%Q.
    + exists 1%Q. split; [done|]. split; [|done]. unfold Qeq. simpl. lia.
  - eexists. split; [by apply cer_nonempty|].
    rewrite quotient_zero by done. rewrite lev_zero. split.
    + apply list_ascii_of_string_inj.
    + by intros ->.
Qed.

Lemma wer_zero_same_words (ref hyp : string) :
  ∃ q, wer ref hyp = Some q
       ∧ (split_ws ref = split_ws hyp → (q == 0)%Q).
Proof.
  destruct (split_ws ref) as [|w ws] eqn:Href.
  - unfold wer. rewrite Href. destruct (split_ws hyp) as [|w' ws'].
    + by exists 0%Q.
    + by exists 1%Q.
  - eexists. split; [apply wer_nonempty; by rewrite Href|].
    rewrite Href, quotient_zero by done. apply lev_zero.
Qed.

(** X22. With the Google provider [transcribe_file] returns only a
    transcript that is not empty and has no white space around it: the
    trimmed first alternative of the first result, for a file that
    exists; such a transcript does not normalise to the empty string.
    A missing file is reported before any service is called. With the
    OpenAI provider nothing is checked or trimmed: the text of the
    service is returned as it is. *)
Theorem transcribe_file_spec (env : environ) (sv : stt_client.services)
    (wav_path : string) (language_code : option string)
    (phrase_hints : option (list string)) (provider : string) :
  (provider ≠ "openai" →
   (∀ t, stt_client.transcribe_file env sv wav_path language_code
           phrase_hints provider = Returned t →
         t ≠ EmptyString ∧ strip t = t
         ∧ normalize_text (Some t) ≠ EmptyString
         ∧ stt_client.path_exists sv wav_path = true
         ∧ ∃ rate lang ctx alternative others rest,
             stt_client.recognize sv wav_path rate lang ctx
             = Returned ((alternative :: others) :: rest)
             ∧ t = strip alternative)
   ∧ (stt_client.path_exists sv wav_path = false →
      stt_client.transcribe_file env sv wav_path language_code
        phrase_hints provider
      = Raised ("Audio file not found: " ++ wav_path)))
  ∧ (provider = "openai" →
     stt_client.path_exists sv wav_path = true →
     ∀ key, get_openai_config env = Returned key →
     ∃ iso_lang,
       (iso_lang = "en" ∨ iso_lang = "zh")
       ∧ stt_client.transcribe_file env sv wav_path language_code
           phrase_hints provider
         = stt_client.whisper sv wav_path iso_lang).
Proof.
  split.
  - intros Hprov. split.
    + intros t. by apply transcribe_file_google_returned.
    + intros Hex. apply String.eqb_neq in Hprov.
      unfold stt_client.transcribe_file. by rewrite Hprov, Hex.
  - intros -> Hex key Hkey. unfold stt_client.transcribe_file.
    cbn [String.eqb Ascii.eqb Bool.eqb]. unfold stt_client.transcribe_file_openai.
    rewrite Hkey, Hex. unfold mbind, outcome_bind. cbn [negb].
    eexists. split; [|reflexivity].
    destruct language_code as [[|c l]|]; [by right| |by right].
    destruct (contains _ _); [by left | by right].
Qed.

(** X22, on a file that exists. *)
Lemma transcribe_file_spec_witness :
  ∃ t,
    stt_client.transcribe_file ∅ services_one_file "audio/q1.wav"
      (Some "zh-TW") (Some ["lion"]) "google" = Returned t
    ∧ t = "What is a LION" ∧ normalize_text (Some t) ≠ EmptyString.
Proof.
  exists "What is a LION".
  assert (Hrun : stt_client.transcribe_file ∅ services_one_file "audio/q1.wav"
                   (Some "zh-TW") (Some ["lion"]) "google"
                 = Returned "What is a LION") by (vm_compute; reflexivity).
  split; [exact Hrun|]. split; [reflexivity|].
  destruct (proj1 (transcribe_file_spec ∅ services_one_file "audio/q1.wav"
                     (Some "zh-TW") (Some ["lion"]) "google")
              ltac:(done)) as [Hok _].
  exact (proj1 (proj2 (proj2 (Hok _ Hrun)))).
Defined.

Lemma rate_returned r q : stt_test.rate r = Returned q → r = Some q.
Proof. destruct r; [by intros [= ->] | done]. Qed.

(** X23. A row that [evaluate_row] of [stt_test.py] evaluates has a
    normalised transcript that is not empty. In strict mode the intent
    is hit exactly when the character error rate is 0, and then the word
    error rate is 0 as well; otherwise no intent verdict is given. *)
Theorem stt_evaluate_row_spec (env : environ) (sv : stt_client.services)
    (hints : list string) (r : stt_test.row) (language : option string)
    (intent_strict : bool) (res : stt_test.result) :
  stt_test.evaluate_row env sv hints r language intent_strict = Returned res →
  stt_test.stt_normalized res ≠ EmptyString
  ∧ stt_test.error res = None
  ∧ (intent_strict = false → stt_test.intent_hit res = None)
  ∧ (intent_strict = true →
     (stt_test.intent_hit res = Some true ↔ (stt_test.cer_score res == 0)%Q)
     ∧ (stt_test.intent_hit res = Some true → (stt_test.wer_score res == 0)%Q)
     ∧ (stt_test.intent_hit res = Some true
        ∨ stt_test.intent_hit res = Some false)).
Proof.
  unfold stt_test.evaluate_row. unfold mbind, outcome_bind.
  destruct (stt_client.transcribe_file env sv _ language (Some hints) "google")
    as [e|raw] eqn:Hraw; [done|].
  assert (Hgoogle : "google" ≠ "openai") by done.
  destruct (transcribe_file_google_returned _ _ _ _ _ _ _ Hgoogle Hraw)
    as (_ & _ & Hnorm & _).
  set (n := normalize_text (Some raw)) in *.
  set (m := normalize_text (Some (stt_test.row_ref_transcript r))).
  clearbody n m.
  destruct (stt_test.rate (cer _ _)) as [e|c] eqn:Hc; [done|].
  destruct (stt_test.rate (wer _ _)) as [e|w] eqn:Hw; [done|].
  apply rate_returned in Hc, Hw. intros [= <-].
  cbn [stt_test.stt_normalized stt_test.error stt_test.intent_hit
       stt_test.cer_score stt_test.wer_score].
  split; [done|]. split; [done|]. split; [by intros ->|]. intros ->.
  destruct (cer_zero_iff m n) as (c' & Hc' & Hzero).
  rewrite Hc in Hc'. injection Hc' as <-.
  destruct (wer_zero_same_words m n) as (w' & Hw' & Hwzero).
  rewrite Hw in Hw'. injection Hw' as <-.
  split; [|split].
  - rewrite Hzero. split.
    + intros Heq. injection Heq as Heq. symmetry. by apply String.eqb_eq.
    + intros Heq. f_equal. by apply String.eqb_eq.
  - intros Heq. injection Heq as Heq. apply String.eqb_eq in Heq.
    apply Hwzero. by rewrite Heq.
  - destruct (String.eqb n m); [by left | by right].
Qed.

(** X23, on a row whose audio is recognised as its reference. *)
Lemma stt_evaluate_row_spec_witness :
  ∃ res,
    stt_test.evaluate_row ∅ services_one_file ["lion"] row_q1 (Some "zh-TW")
      true = Returned res
    ∧ stt_test.stt_normalized res = "what is a lion"
    ∧ stt_test.intent_hit res = Some true
    ∧ (stt_test.cer_score res == 0)%Q ∧ (stt_test.wer_score res == 0)%Q.
Proof.
  set (res := {| stt_test.res_id := 1; stt_test.wav_path := "audio/q1.wav";
                 stt_test.ref_transcript := "what  is a lion";
                 stt_test.stt_raw := "What is a LION";
                 stt_test.stt_normalized := "what is a lion";
                 stt_test.cer_score := (0 # 14)%Q;
                 stt_test.wer_score := (0 # 4)%Q;
                 stt_test.intent_hit := Some true;
                 stt_test.error := None |}).
  assert (Hrun : stt_test.evaluate_row ∅ services_one_file ["lion"] row_q1
                   (Some "zh-TW") true = Returned res)
    by (vm_compute; reflexivity).
  exists res. split; [exact Hrun|]. split; [reflexivity|].
  split; [reflexivity|].
  destruct (stt_evaluate_row_spec _ _ _ _ _ _ _ Hrun)
    as (_ & _ & _ & Hstrict).
  destruct (Hstrict eq_refl) as (Hcer & Hwer & _).
  split; [by apply Hcer | by apply Hwer].
Defined.


(** ** tts_generate.py: SSML and synthesis *)

Section ssml.
Local Open Scope string_scope.

Lemma replace_char_app c b s t :
tts_generate.replace_char c b (s ++ t)
= tts_generate.replace_char c b s ++ tts_generate.replace_char c b t.
Proof.
induction s as [|a s IH]; [done|].
change (String a s ++ t) with (String a (s ++ t)).
cbn [tts_generate.replace_char]. rewrite IH.
destruct (Ascii.eqb a c); [by rewrite string_app_assoc | done].
Qed.

Lemma html_escape_app s t :
tts_generate.html_escape (s ++ t)
= tts_generate.html_escape s ++ tts_generate.html_escape t.
Proof. unfold tts_generate.html_escape. by rewrite !replace_char_app. Qed.

Lemma html_escape_char a :
tts_generate.html_escape (String a EmptyString) = escape_char a.
Proof. destruct a as [[] [] [] [] [] [] [] []]; reflexivity. Qed.

Lemma html_escape_cons a s :
tts_generate.html_escape (String a s)
= escape_char a ++ tts_generate.html_escape s.
Proof.
change (String a s) with (String a EmptyString ++ s).
by rewrite html_escape_app, html_escape_char.
Qed.

Ltac split_char a :=
unfold escape_char;
destruct (Ascii.eqb_spec a "&") as [->|?];
[|destruct (Ascii.eqb_spec a "<") as [->|?];
  [|destruct (Ascii.eqb_spec a ">") as [->|?];
    [|destruct (Ascii.eqb_spec a tts_generate.quot) as [->|?];
      [|destruct (Ascii.eqb_spec a "'") as [->|?]]]]].

(** The escaped characters can be told apart, whatever follows them. *)
Lemma escape_char_inj a b x y :
escape_char a ++ x = escape_char b ++ y → a = b ∧ x = y.
Proof.
split_char a; split_char b; intros Heq; vm_compute in Heq;
  try discriminate; try (by injection Heq); injection Heq; intros; by subst.
Qed.

Lemma escape_char_length a : (1 ≤ String.length (escape_char a))%nat.
Proof. split_char a; simpl; lia. Qed.

Lemma escape_char_plain a c :
c ∈ list_ascii_of_string (escape_char a) →
c ∉ ["<"; ">"; tts_generate.quot; "'"]%char.
Proof.
split_char a; cbn [list_ascii_of_string]; intros Hin Hbad;
  repeat (apply elem_of_cons in Hin as [->|Hin];
          [repeat (apply elem_of_cons in Hbad as [Hbad|Hbad];
                   [try discriminate; congruence|]);
           by apply elem_of_nil in Hbad|]);
  by apply elem_of_nil in Hin.
Qed.

Lemma string_length_append s t :
String.length (s ++ t) = (String.length s + String.length t)%nat.
Proof.
induction s as [|a s IH]; [done|].
change (String a s ++ t) with (String a (s ++ t)). simpl. by rewrite IH.
Qed.

Lemma list_ascii_of_string_append s t :
list_ascii_of_string (s ++ t)
= (list_ascii_of_string s ++ list_ascii_of_string t)%list.
Proof.
induction s as [|a s IH]; [done|].
change (String a s ++ t) with (String a (s ++ t)). simpl. by rewrite IH.
Qed.

Lemma html_escape_plain text c :
c ∈ list_ascii_of_string (tts_generate.html_escape text) →
c ∉ ["<"; ">"; tts_generate.quot; "'"]%char.
Proof.
induction text as [|a text IH]; [by intros ?%elem_of_nil|].
rewrite html_escape_cons, list_ascii_of_string_append.
intros [Hin|Hin]%elem_of_app; [by eapply escape_char_plain | by apply IH].
Qed.

Lemma html_escape_tail_inj tail t1 t2 :
tts_generate.html_escape t1 ++ tail = tts_generate.html_escape t2 ++ tail →
t1 = t2.
Proof.
revert t2. induction t1 as [|a t1 IH]; intros [|b t2].
- done.
- rewrite html_escape_cons. intros Heq%(f_equal String.length).
  rewrite !string_length_append in Heq. cbn in Heq.
  pose proof (escape_char_length b). lia.
- rewrite html_escape_cons. intros Heq%(f_equal String.length).
  rewrite !string_length_append in Heq. cbn in Heq.
  pose proof (escape_char_length a). lia.
- rewrite !html_escape_cons, !string_app_assoc.
  intros [-> Heq]%escape_char_inj. f_equal. by apply IH.
Qed.

Lemma html_escape_id text :
(∀ c, c ∈ list_ascii_of_string text →
      c ∉ ["&"; "<"; ">"; tts_generate.quot; "'"]%char) →
tts_generate.html_escape text = text.
Proof.
induction text as [|a text IH]; [done|]. intros Hplain.
rewrite html_escape_cons, IH.
- assert (Ha : a ∉ ["&"; "<"; ">"; tts_generate.quot; "'"]%char)
    by (apply Hplain; simpl; apply elem_of_cons; by left).
  split_char a; try done; exfalso; apply Ha; repeat constructor.
- intros c Hc. apply Hplain. simpl. apply elem_of_cons. by right.
Qed.

(** X24. The SSML that [_build_ssml] builds is a head that does not
  depend on the text, the escaped text and the closing tags. The
  escaped text has no angle bracket and no quote, so a text cannot
  close or open an element; a text without the five special
  characters is sent as it is, and different texts give different
  documents. *)
Theorem build_ssml_spec `{Float} (voice_name language_code : string)
  (rate : float) :
∃ head,
  (∀ text,
     tts_generate._build_ssml text voice_name language_code rate
     = head ++ tts_generate.html_escape text
       ++ "</prosody></voice></speak>")
  ∧ (∀ text c,
       c ∈ list_ascii_of_string (tts_generate.html_escape text) →
       c ∉ ["<"; ">"; tts_generate.quot; "'"]%char)
  ∧ (∀ text,
       (∀ c, c ∈ list_ascii_of_string text →
             c ∉ ["&"; "<"; ">"; tts_generate.quot; "'"]%char) →
       tts_generate.html_escape text = text)
  ∧ (∀ text text',
       tts_generate._build_ssml text voice_name language_code rate
       = tts_generate._build_ssml text' voice_name language_code rate →
       text = text').
Proof.
exists ("<speak version='1.0' xml:lang='" ++ language_code ++ "'>"
        ++ "<voice name='" ++ voice_name ++ "'>"
        ++ "<prosody rate='"
        ++ float_str (if float_pos rate then rate else float_one) ++ "'>").
assert (Hshape : ∀ text,
           tts_generate._build_ssml text voice_name language_code rate
           = ("<speak version='1.0' xml:lang='" ++ language_code ++ "'>"
              ++ "<voice name='" ++ voice_name ++ "'>"
              ++ "<prosody rate='"
              ++ float_str (if float_pos rate then rate else float_one)
              ++ "'>")
             ++ tts_generate.html_escape text
             ++ "</prosody></voice></speak>").
{ intros text. unfold tts_generate._build_ssml.
  by rewrite !string_app_assoc. }
split; [exact Hshape|]. split; [apply html_escape_plain|].
split; [apply html_escape_id|].
intros text text'. rewrite !Hshape. intros Heq%(inj _).
by apply html_escape_tail_inj in Heq.
Qed.

(** X24, on a text with markup in it. *)
Lemma build_ssml_spec_witness :
@tts_generate._build_ssml tenths "<b>Tom & Jerry</b>" "v" "zh-TW" 0%N
= "<speak version='1.0' xml:lang='zh-TW'><voice name='v'><prosody rate='1.0'>&lt;b&gt;Tom &amp; Jerry&lt;/b&gt;</prosody></voice></speak>"
∧ tts_generate.html_escape "lion" = "lion".
Proof.
split; [vm_compute; reflexivity|].
destruct (@build_ssml_spec tenths "v" "zh-TW" 0%N) as (head & _ & _ & Hid & _).
apply Hid. intros c Hc Hbad. cbn in Hc.
repeat (apply elem_of_cons in Hc as [->|Hc];
        [repeat (apply elem_of_cons in Hbad as [Hbad|Hbad];
                 [discriminate|]); by apply elem_of_nil in Hbad|]).
by apply elem_of_nil in Hc.
Defined.

End ssml.


Section synthesis.
Local Open Scope string_scope.
Context `{Float}.

(** [_synthesize_to_file] writes the audio it was given, which is not
  empty, or writes nothing. *)
Lemma synthesize_to_file_cases az cfg ssml output_path (fs : tts_generate.files) :
match tts_generate._synthesize_to_file az cfg ssml output_path fs with
| (Returned _, fs') =>
    ∃ result,
      tts_generate.speak_ssml az cfg ssml = Returned result
      ∧ tts_generate.completed result = true
      ∧ tts_generate.audio_data result ≠ EmptyString
      ∧ fs' = <[output_path := tts_generate.audio_data result]> fs
| (Raised _, fs') => fs' = fs
end.
Proof.
unfold tts_generate._synthesize_to_file, mbind, M_bind, bind,
  tts_generate.of_outcome.
destruct (tts_generate.speak_ssml az cfg ssml) as [e|result]; [done|].
destruct (tts_generate.completed result) eqn:Hdone; cbn [negb]; [|done].
destruct (truthy (tts_generate.audio_data result)) eqn:Hdata; cbn [negb];
  [|done].
exists result. by apply truthy_spec in Hdata.
Qed.

(** X25. When [generate_tts_for_text] returns, the one file it wrote is
  [outdir/filename] and holds the audio, not empty, that Azure
  completed for the SSML of the text, with the key and region of the
  environment and with the language and voice that were asked for, if
  any; when it raises it has written nothing. The Azure settings are
  required even when language and voice are given. *)
Theorem generate_tts_for_text_spec (az : tts_generate.Azure) (env : environ)
  (text filename outdir : string) (language voice_name : option string)
  (speed : float) (fs : tts_generate.files) :
match tts_generate.generate_tts_for_text az env text filename outdir
        language voice_name speed fs with
| (Returned _, fs') =>
    ∃ azure_cfg cfg result,
      get_azure_config env = Returned azure_cfg
      ∧ tts_generate.subscription cfg = azure_key azure_cfg
      ∧ tts_generate.region cfg = azure_region azure_cfg
      ∧ (∀ l, language = Some l → l ≠ EmptyString →
              tts_generate.speech_synthesis_language cfg = l)
      ∧ (∀ v, voice_name = Some v → v ≠ EmptyString →
              tts_generate.speech_synthesis_voice_name cfg = v)
      ∧ ((voice_name = None ∨ voice_name = Some EmptyString) →
         tts_generate.speech_synthesis_voice_name cfg
         = azure_voice azure_cfg)
      ∧ tts_generate.speak_ssml az cfg
          (tts_generate._build_ssml text
             (tts_generate.speech_synthesis_voice_name cfg)
             (tts_generate.speech_synthesis_language cfg) speed)
        = Returned result
      ∧ tts_generate.completed result = true
      ∧ tts_generate.audio_data result ≠ EmptyString
      ∧ fs' = <[path_join outdir filename
                := tts_generate.audio_data result]> fs
| (Raised _, fs') => fs' = fs
end
∧ (∀ e, get_azure_config env = Raised e →
        tts_generate.sdk_installed az = true →
        tts_generate.mkdir az outdir = Returned tt →
        tts_generate.generate_tts_for_text az env text filename outdir
          language voice_name speed fs = (Raised e, fs)).
Proof.
unfold tts_generate.generate_tts_for_text. split.
- unfold mbind at 1 2. unfold M_bind, bind. unfold tts_generate.of_outcome at 1 2.
  destruct (tts_generate.mkdir az outdir) as [e|[]]; [done|].
  unfold tts_generate._build_speech_config.
  destruct (tts_generate.sdk_installed az); cbn [negb]; [|done].
  unfold mbind, outcome_bind.
  destruct (get_azure_config env) as [e|azure_cfg]; [done|].
  destruct (match language with
            | Some (String _ _ as l) => Returned l
            | _ => get_default_language_code env
            end) as [e|lang] eqn:Hlang; [done|].
  match goal with
  | |- context [tts_generate._synthesize_to_file az ?c ?s ?p fs] =>
      pose proof (synthesize_to_file_cases az c s p fs) as Hsyn;
      destruct (tts_generate._synthesize_to_file az c s p fs)
        as [[e|u] fs']; [done|];
      destruct Hsyn as (result & Hspeak & Hdone & Hdata & Hfs);
      exists azure_cfg, c, result
  end.
  cbn [tts_generate.subscription tts_generate.region
       tts_generate.speech_synthesis_language
       tts_generate.speech_synthesis_voice_name] in *.
  split; [done|]. split; [done|]. split; [done|]. split.
  { intros l -> Hl. destruct l; [done|]. by injection Hlang. }
  split.
  { intros v -> Hv. by destruct v. }
  split; [by intros [->| ->]|]. done.
- intros e Hcfg Hsdk Hmk.
  unfold mbind at 1 2. unfold M_bind, bind. unfold tts_generate.of_outcome at 1 2.
  rewrite Hmk. unfold tts_generate._build_speech_config.
  by rewrite Hsdk, Hcfg.
Qed.

End synthesis.

(** X25, for a question of the data set. *)
Lemma generate_tts_for_text_spec_witness :
  @tts_generate.generate_tts_for_text tenths azure_ok environ_azure
    "What is a lion?" "q1_v1.wav" "audio" (Some "zh-TW") None 10%N ∅
  = (Returned tt, {["audio/q1_v1.wav" := "RIFF."]})
  ∧ @tts_generate.generate_tts_for_text tenths azure_ok ∅
      "What is a lion?" "q1_v1.wav" "audio" (Some "zh-TW") (Some "v") 10%N ∅
    = (Raised "Environment variable 'AZURE_SPEECH_KEY' is required but was not provided.", ∅).
Proof.
  split; [vm_compute; reflexivity|].
  apply (proj2 (@generate_tts_for_text_spec tenths azure_ok ∅
                  "What is a lion?" "q1_v1.wav" "audio" (Some "zh-TW")
                  (Some "v") 10%N ∅)); reflexivity.
Defined.


(** ** e2e_test.py *)

Lemma grade_by_keywords_cases answer keywords c m :
  e2e_test.grade_by_keywords answer keywords = (c, m) →
  (c = None ↔ (keywords = None ∨ keywords = Some EmptyString))
  ∧ (c = None → m = None)
  ∧ (c = Some true ↔
     ∃ k, keywords = Some k
          ∧ check_answer_with_keywords answer (KeywordsStr k) = (true, [])).
Proof.
  unfold e2e_test.grade_by_keywords.
  destruct keywords as [[|a k]|].
  - intros [= <- <-]. split; [split; [by right | done]|]. split; [done|].
    split; [done|]. by intros (k & [= <-] & Hk).
  - destruct (check_answer_with_keywords answer (KeywordsStr (String a k)))
      as [correct missing] eqn:Hcheck.
    intros [= <- <-]. split; [split; [done | by intros [|]]|].
    split; [done|]. split.
    + intros [= ->]. exists (String a k). split; [done|].
      rewrite Hcheck. f_equal. unfold check_answer_with_keywords in Hcheck.
      destruct (keyword_items _); [done|]. injection Hcheck as Hc <-.
      revert Hc. destruct (negb _); [done|]. by destruct (List.filter _ _).
    + intros (k' & [= <-] & Hk). rewrite Hcheck in Hk. by injection Hk as ->.
  - intros [= <- <-]. split; [split; [by left | done]|]. split; [done|].
    split; [done|]. by intros (k & [=] & _).
Qed.

(** X26. A row that [evaluate_row] of [e2e_test.py] evaluates has a
    normalised transcript that is not empty, and this transcript is the
    question the chatbot answered. The row is a success exactly when the
    answer was graded correct and, in strict mode, the transcript
    matched the reference; it has no end-to-end verdict exactly when the
    answer was not graded. Without the judge the grade is that of the
    keywords of the row, and an answer is graded by the judge or by
    keywords, never by both. *)
Theorem e2e_evaluate_row_spec (env : environ) (sv : stt_client.services)
    (post : chatbase_client.request → outcome string chatbase_client.response)
    (judge : JudgeModel) (int_of_str : string → option Z)
    (hints : list string) (r : e2e_test.row) (keyword_map : gmap Z string)
    (language : option string) (intent_strict : bool)
    (question_map : gmap Z string) (use_llm_eval : bool)
    (reference_answer_map : gmap Z string) (res : e2e_test.result) :
  e2e_test.evaluate_row env sv post judge int_of_str hints r keyword_map
    language intent_strict question_map use_llm_eval reference_answer_map
  = Returned res →
  e2e_test.stt_normalized res ≠ EmptyString
  ∧ (∃ reply,
       chatbase_client.ask_chatbase env post (e2e_test.stt_normalized res) None
       = Returned reply
       ∧ e2e_test.ai_answer res = chatbase_client.answer_text reply)
  ∧ (e2e_test.stt_intent_hit res = Some true ↔
     intent_strict = true
     ∧ e2e_test.stt_normalized res
       = normalize_text (Some (e2e_test.row_ref_transcript r)))
  ∧ (e2e_test.e2e_success res = Some true ↔
     e2e_test.ai_correct res = Some true
     ∧ (intent_strict = true → e2e_test.stt_intent_hit res = Some true))
  ∧ (e2e_test.e2e_success res = None ↔ e2e_test.ai_correct res = None)
  ∧ (use_llm_eval = false →
     e2e_test.llm_reason res = None
     ∧ (e2e_test.ai_correct res = None ↔
        (e2e_test.keywords_used res = None
         ∨ e2e_test.keywords_used res = Some EmptyString))
     ∧ (e2e_test.ai_correct res = Some true ↔
        ∃ k, e2e_test.keywords_used res = Some k
             ∧ check_answer_with_keywords (e2e_test.ai_answer res)
                 (KeywordsStr k) = (true, [])))
  ∧ (∀ why, e2e_test.llm_reason res = Some why →
       use_llm_eval = true
       ∧ e2e_test.missing_keywords res = None
       ∧ ∃ q reference verdict,
           e2e_test.question_text res = Some q
           ∧ gave (evaluate_answer_with_llm judge q reference
                     (e2e_test.ai_answer res)) = Returned verdict
           ∧ eval_is_correct verdict = e2e_test.ai_correct res
           ∧ eval_reason verdict = Some why).
Proof.
  unfold e2e_test.evaluate_row. unfold mbind at 1 2 3 4. unfold outcome_bind.
  destruct (stt_client.transcribe_file env sv _ language (Some hints) "google")
    as [e|raw] eqn:Hraw; [done|].
  assert (Hgoogle : "google" ≠ "openai") by done.
  destruct (transcribe_file_google_returned _ _ _ _ _ _ _ Hgoogle Hraw)
    as (_ & _ & Hnorm & _).
  set (n := normalize_text (Some raw)) in *.
  set (m := normalize_text (Some (e2e_test.row_ref_transcript r))).
  clearbody n m.
  destruct (chatbase_client.ask_chatbase env post n None)
    as [e|reply] eqn:Hreply; [done|].
  set (canonical_id := if e2e_test.cell_truthy _ then _ else _).
  clearbody canonical_id.
  match goal with
  | |- match ?lookup with _ => _ end = _ → _ =>
      destruct lookup as [e|[keywords question]]; [done|]
  end.
  assert (Hintent : ∀ b : bool,
             (if intent_strict then Some b else None) = Some true
             ↔ intent_strict = true ∧ b = true).
  { intros b. destruct intent_strict; [|by split; [|intros []]].
    split; [by intros [= ->] | by intros [_ ->]]. }
  assert (Hkw : ∀ c ms (why : option string),
    (let '(c, ms) := e2e_test.grade_by_keywords
                       (chatbase_client.answer_text reply) keywords in
     Returned (c, ms, None)) = (Returned (c, ms, why) : outcome string _) →
    why = None ∧ e2e_test.grade_by_keywords
                   (chatbase_client.answer_text reply) keywords = (c, ms)).
  { intros c ms why. destruct (e2e_test.grade_by_keywords _ _) as [c' ms'].
    by intros [= -> -> <-]. }
  match goal with
  | |- match ?grading with _ => _ end = _ → _ =>
      destruct grading as [e|[[correct missing] reason]] eqn:Hgrade; [done|]
  end.
  unfold mbind, outcome_bind.
  destruct (getitem "id" (e2e_test.row_id r)) as [e|i]; [done|].
  intros [= <-].
  cbn [e2e_test.stt_normalized e2e_test.ai_answer e2e_test.stt_intent_hit
       e2e_test.ai_correct e2e_test.e2e_success e2e_test.keywords_used
       e2e_test.missing_keywords e2e_test.llm_reason
       e2e_test.question_text].
  split; [done|]. split; [exists reply; split; [exact Hreply | reflexivity]|].
  split; [rewrite Hintent, String.eqb_eq; reflexivity|].
  split.
  { destruct correct as [[]|].
    - rewrite andb_true_r. destruct intent_strict; cbn.
      + split; [by intros [= ->] | intros [_ Hhit]; by rewrite (Hhit eq_refl)].
      + by split.
    - rewrite andb_false_r. by split; [|intros []].
    - by split; [|intros []]. }
  split; [by destruct correct|].
  split.
  - intros ->. apply Hkw in Hgrade as [-> Hgrade].
    split; [done|].
    by destruct (grade_by_keywords_cases _ _ _ _ Hgrade) as (? & _ & ?).
  - intros why ->. destruct use_llm_eval.
    2:{ by apply Hkw in Hgrade as [? _]. }
    destruct question as [[|a q]|]; try by apply Hkw in Hgrade as [? _].
    destruct (canonical_id ≫= e2e_test.dict_get_cell reference_answer_map)
      as [[|b reference]|]; try by apply Hkw in Hgrade as [? _].
    unfold mbind, outcome_bind in Hgrade.
    destruct (gave (evaluate_answer_with_llm judge (String a q)
                      (String b reference) (chatbase_client.answer_text reply)))
      as [e|verdict] eqn:Hverdict; [done|].
    destruct (eval_is_correct verdict) as [c|] eqn:Hc; [|done].
    destruct (eval_reason verdict) as [w|] eqn:Hw; [|done].
    cbn in Hgrade. injection Hgrade as <- <- <-.
    split; [done|]. split; [done|].
    by exists (String a q), (String b reference), verdict.
Qed.

(** X26, on a row graded by keywords in strict mode. *)
Lemma e2e_evaluate_row_spec_witness :
  ∃ res,
    e2e_test.evaluate_row environ_chatbase services_one_file post_text_answer
      judge_unreachable (λ _, None) ["lion"] e2e_row_q1
      {[1%Z := "cat, big"]} (Some "zh-TW") true ∅ false ∅ = Returned res
    ∧ e2e_test.ai_correct res = Some true
    ∧ e2e_test.stt_intent_hit res = Some true
    ∧ e2e_test.e2e_success res = Some true.
Proof.
  set (res := {| e2e_test.res_id := e2e_test.CInt 1;
                 e2e_test.wav_path := "audio/q1.wav";
                 e2e_test.ref_transcript := "What is a lion";
                 e2e_test.question_text := None;
                 e2e_test.stt_raw := "What is a LION";
                 e2e_test.stt_normalized := "what is a lion";
                 e2e_test.ai_answer := "A big cat";
                 e2e_test.stt_intent_hit := Some true;
                 e2e_test.ai_correct := Some true;
                 e2e_test.e2e_success := Some true;
                 e2e_test.conversation_id := JNull;
                 e2e_test.keywords_used := Some "cat, big";
                 e2e_test.missing_keywords := None;
                 e2e_test.llm_reason := None;
                 e2e_test.error := None |}).
  assert (Hrun : e2e_test.evaluate_row environ_chatbase services_one_file
                   post_text_answer judge_unreachable (λ _, None) ["lion"]
                   e2e_row_q1 {[1%Z := "cat, big"]} (Some "zh-TW") true ∅
                   false ∅ = Returned res)
    by (vm_compute; reflexivity).
  exists res. split; [exact Hrun|]. split; [reflexivity|].
  split; [reflexivity|].
  destruct (e2e_evaluate_row_spec _ _ _ _ _ _ _ _ _ _ _ _ _ _ Hrun)
    as (_ & _ & _ & Hsuccess & _).
  apply Hsuccess. split; reflexivity.
Defined.


(** ** gcs_client.py *)

(** X27. [upload_file] never replaces an object: when the bucket has the
    destination already, the bucket is left as it is and the source file
    is not even read; otherwise the bytes of the source become the
    object, or the error of reading them is raised and nothing is
    stored. No other object is touched, and after a first upload any
    later upload to the same name, from whatever file, changes nothing
    and returns the same URL. *)
Theorem upload_file_spec (st : gcs_client.Storage)
    (self : gcs_client.GCSClient) (source dest : string)
    (b : gcs_client.bucket) :
  let url := gcs_client.public_url st (gcs_client.bucket_name self) dest in
  (is_Some (b !! dest) →
   gcs_client.upload_file st self source dest b = (Returned url, b))
  ∧ (b !! dest = None →
     (∀ data, gcs_client.read_file st source = Returned data →
        gcs_client.upload_file st self source dest b
        = (Returned url, <[dest := data]> b))
     ∧ (∀ exc, gcs_client.read_file st source = Raised exc →
          gcs_client.upload_file st self source dest b = (Raised exc, b)))
  ∧ (∀ o b', gcs_client.upload_file st self source dest b = (o, b') →
       (∀ other, other ≠ dest → b' !! other = b !! other)
       ∧ (∀ data, b !! dest = Some data → b' !! dest = Some data)
       ∧ (∀ u, o = Returned u →
            u = url
            ∧ ∀ source',
                gcs_client.upload_file st self source' dest b'
                = (Returned url, b'))).
Proof.
  intros url.
  assert (Hthere : ∀ src (b0 : gcs_client.bucket), is_Some (b0 !! dest) →
            gcs_client.upload_file st self src dest b0 = (Returned url, b0)).
  { intros src b0 Hsome.
    unfold gcs_client.upload_file, gcs_client.exists_, mbind, M_bind, bind.
    by rewrite bool_decide_eq_true_2. }
  assert (Hfresh : b !! dest = None →
            gcs_client.upload_file st self source dest b
            = match gcs_client.read_file st source with
              | Returned data => (Returned url, <[dest := data]> b)
              | Raised exc => (Raised exc, b)
              end).
  { intros Hnone.
    unfold gcs_client.upload_file, gcs_client.exists_, mbind, M_bind, bind.
    rewrite bool_decide_eq_false_2 by (rewrite Hnone; by intros [? ?]).
    cbn [negb]. by destruct (gcs_client.read_file st source). }
  split; [apply Hthere|]. split.
  - intros Hnone. rewrite (Hfresh Hnone). by split; intros ? ->.
  - intros o b'. destruct (b !! dest) as [data|] eqn:Hdest.
    + rewrite Hthere by (by rewrite Hdest). intros [= <- <-].
      split; [done|]. split; [by intros ? [= <-]|].
      intros u [= <-]. split; [done|]. intros source'.
      apply Hthere. by rewrite Hdest.
    + rewrite (Hfresh eq_refl).
      destruct (gcs_client.read_file st source) as [exc|data].
      * intros [= <- <-]. by split; [|split].
      * intros [= <- <-]. split; [intros other Hne; by rewrite lookup_insert_ne|].
        split; [done|]. intros u [= <-]. split; [done|]. intros source'.
        apply Hthere. rewrite lookup_insert_eq. by eexists.
Qed.

(** X27, for the audio of one question, uploaded twice. *)
Lemma upload_file_spec_witness :
  gcs_client.upload_file storage_one_file {| gcs_client.bucket_name := "zoo" |}
    "audio/q1.wav" "audio/q1.wav" ∅
  = (Returned "https://storage.googleapis.com/zoo/audio/q1.wav",
     {["audio/q1.wav" := "RIFF."]})
  ∧ gcs_client.upload_file storage_one_file {| gcs_client.bucket_name := "zoo" |}
      "audio/other.wav" "audio/q1.wav" {["audio/q1.wav" := "RIFF."]}
    = (Returned "https://storage.googleapis.com/zoo/audio/q1.wav",
       {["audio/q1.wav" := "RIFF."]}).
Proof.
  split.
  - apply (proj1 (proj2 (upload_file_spec storage_one_file
                           {| gcs_client.bucket_name := "zoo" |}
                           "audio/q1.wav" "audio/q1.wav" ∅)));
      reflexivity.
  - apply (proj1 (upload_file_spec storage_one_file
                    {| gcs_client.bucket_name := "zoo" |}
                    "audio/other.wav" "audio/q1.wav"
                    {["audio/q1.wav" := "RIFF."]})).
    by eexists.
Defined.
